(** * Who Stole the Sun: scene, motion, collision and persistence core

    A shallow embedding of the game core (the final iteration of the game
    file, with [Object], [MotionMaster], the binary scene file and the
    game-state stack) and the properties of it stated by the specification.

    C [float] is IEEE-754 binary32: it is modelled by [spec_float] with
    precision 24 and exponent bound 128, so every arithmetic operation of
    the source is evaluated with its rounding, its infinities and its NaN. *)

From Stdlib Require Import ZArith List Bool String Ascii Lia.
From Stdlib Require Import Floats.SpecFloat.
From Stdlib Require Import Sorting.Permutation Sorting.Sorted.
From stdpp Require Import base list gmap strings.

Local Open Scope Z_scope.

(** ** binary32 arithmetic *)

Module F32.

Definition prec : Z := 24.
Definition emax : Z := 128.

Definition float := spec_float.

Definition add : float -> float -> float := SFadd prec emax.
Definition sub : float -> float -> float := SFsub prec emax.
Definition mul : float -> float -> float := SFmul prec emax.
Definition div : float -> float -> float := SFdiv prec emax.
Definition sqrt : float -> float := SFsqrt prec emax.
Definition neg : float -> float := SFopp.

(** The C comparisons: every one of them is false on a NaN operand. *)
Definition eqb : float -> float -> bool := SFeqb.
Definition ltb : float -> float -> bool := SFltb.
Definition leb : float -> float -> bool := SFleb.
Definition gtb (a b : float) : bool := SFltb b a.
Definition geb (a b : float) : bool := SFleb b a.

Definition is_nan (f : float) : bool :=
  match f with S754_nan => true | _ => false end.

Definition valid (f : float) : bool := valid_binary prec emax f.

(** [(float)n] for an [int] n, and the float nearest to [m * 2^e]. *)
Definition of_Z (n : Z) : float := binary_normalize prec emax n 0 false.
Definition of_scaled (m e : Z) : float := binary_normalize prec emax m e false.

Definition zero : float := S754_zero false.
Definition half : float := Eval cbv in of_scaled 1 (-1).
Definition ten : float := Eval cbv in of_Z 10.
Definition twenty : float := Eval cbv in of_Z 20.

(** The mathematical floor of a float, where it has one. *)
Definition floor (f : float) : option Z :=
  match f with
  | S754_zero _ => Some 0
  | S754_finite s m e =>
      let v := cond_Zopp s (Z.pos m) in
      Some (if 0 <=? e then v * 2 ^ e else v / 2 ^ (- e))
  | _ => None
  end.

Definition INT_MIN : Z := - 2 ^ 31.
Definition INT_MAX : Z := 2 ^ 31 - 1.

Definition in_int (z : Z) : Prop := INT_MIN <= z <= INT_MAX.

(** [(int)floorf(x)].  C leaves the conversion undefined when the floor
    does not fit an [int] (and for NaN and the infinities); the x86
    conversion instruction the game is compiled to yields [INT_MIN]
    there, which is what is modelled. *)
Definition floor_to_int (f : float) : Z :=
  match floor f with
  | Some z => if (INT_MIN <=? z) && (z <=? INT_MAX) then z else INT_MIN
  | None => INT_MIN
  end.

End F32.

Abbreviation float := F32.float.
Infix "+f" := F32.add (at level 50, left associativity).
Infix "-f" := F32.sub (at level 50, left associativity).
Infix "*f" := F32.mul (at level 40, left associativity).
Infix "/f" := F32.div (at level 40, left associativity).

(** ** Vectors and rectangles *)

Record Vector2 := mkVector2 { x : float; y : float }.

Record Rectangle := mkRectangle
  { rec_x : float; rec_y : float; rec_width : float; rec_height : float }.

(** Modelled from the spec: [Vector2Zero] of the maths header (not in the
    sources): the zero vector. *)
Definition Vector2Zero : Vector2 := mkVector2 F32.zero F32.zero.

(** Modelled from the spec: [Vector2Add] and [operator+] of the maths header
    (not in the sources): the component-wise sum. *)
Definition Vector2Add (a b : Vector2) : Vector2 :=
  mkVector2 (x a +f x b) (y a +f y b).

(** Modelled from the spec: [Vector2Subtract] and [operator-] of the maths
    header (not in the sources): the component-wise difference. *)
Definition Vector2Subtract (a b : Vector2) : Vector2 :=
  mkVector2 (x a -f x b) (y a -f y b).

(** Modelled from the spec: [Vector2Distance] of the maths header (not in the
    sources): the straight-line distance of two points. *)
Definition Vector2Distance (a b : Vector2) : float :=
  F32.sqrt ((x a -f x b) *f (x a -f x b) +f (y a -f y b) *f (y a -f y b)).

(** Modelled from the spec: [Lerp] of the maths header (not in the sources):
    the linear interpolation [start + amount * (end - start)]. *)
Definition Lerp (start finish amount : float) : float :=
  start +f amount *f (finish -f start).

(** ** MotionMaster *)

Record MotionMaster := mkMotionMaster
  { currentPoint : Vector2;
    isMoving : bool;
    startPoint : Vector2;
    endPoint : Vector2;
    motionTime : float;
    arrivalTime : float;
    speed : float }.

(** The member initialisers of the struct.  [currentPoint], [startPoint] and
    [endPoint] have none: they are zero in the statically allocated object
    table. *)
Definition MotionMaster_default : MotionMaster :=
  {| currentPoint := Vector2Zero; isMoving := false;
     startPoint := Vector2Zero; endPoint := Vector2Zero;
     motionTime := F32.zero; arrivalTime := F32.zero; speed := F32.ten |}.

Section MotionMaster.

(** [FRAME_TIME] and [operator==] on [Vector2] come from the header that
    is not among the sources: they are parameters here. *)
Variable FRAME_TIME : float.
Variable Vector2_eq : Vector2 -> Vector2 -> bool.

Definition MoveToPoint (m : MotionMaster) (start finish : Vector2)
  : MotionMaster :=
  if Vector2_eq start finish then m
  else
    {| currentPoint := currentPoint m;
       isMoving := true;
       startPoint := start;
       endPoint := finish;
       motionTime := motionTime m;
       arrivalTime := Vector2Distance start finish /f speed m;
       speed := speed m |}.

Definition Reset (m : MotionMaster) : MotionMaster :=
  {| currentPoint := currentPoint m;
     isMoving := false;
     startPoint := Vector2Zero;
     endPoint := Vector2Zero;
     motionTime := F32.zero;
     arrivalTime := F32.zero;
     speed := F32.ten |}.

Definition set_currentPoint (m : MotionMaster) (p : Vector2) : MotionMaster :=
  {| currentPoint := p; isMoving := isMoving m;
     startPoint := startPoint m; endPoint := endPoint m;
     motionTime := motionTime m; arrivalTime := arrivalTime m;
     speed := speed m |}.

Definition set_motionTime (m : MotionMaster) (t : float) : MotionMaster :=
  {| currentPoint := currentPoint m; isMoving := isMoving m;
     startPoint := startPoint m; endPoint := endPoint m;
     motionTime := t; arrivalTime := arrivalTime m;
     speed := speed m |}.

Definition Update (m : MotionMaster) : MotionMaster :=
  if negb (isMoving m) then m
  else if F32.leb (motionTime m +f FRAME_TIME *f speed m) (arrivalTime m)
  then
    let m1 := set_motionTime m (motionTime m +f FRAME_TIME *f speed m) in
    set_currentPoint m1
      (mkVector2
         (Lerp (x (startPoint m1)) (x (endPoint m1))
               (motionTime m1 /f arrivalTime m1))
         (Lerp (y (startPoint m1)) (y (endPoint m1))
               (motionTime m1 /f arrivalTime m1)))
  else Reset (set_currentPoint m (endPoint m)).

(** [n] frames of [Update]. *)
Fixpoint Update_frames (n : nat) (m : MotionMaster) : MotionMaster :=
  match n with
  | O => m
  | S k => Update (Update_frames k m)
  end.

End MotionMaster.

(** ** Assets and objects *)

(** [ENUM(Direction)]: a C enumeration, that is an [int]; [LoadScene] casts
    whatever integer the file holds to it. *)
Definition Direction := Z.
Definition DIRECTION_RIGHT : Direction := 0.
Definition DIRECTION_UP_RIGHT : Direction := 1.
Definition DIRECTION_UP : Direction := 2.
Definition DIRECTION_UP_LEFT : Direction := 3.
Definition DIRECTION_LEFT : Direction := 4.
Definition DIRECTION_DOWN_LEFT : Direction := 5.
Definition DIRECTION_DOWN : Direction := 6.
Definition DIRECTION_DOWN_RIGHT : Direction := 7.
Definition DIRECTION_ENUM_COUNT : Z := 8.

Record Color := mkColor { r : Z; g : Z; b : Z; a : Z }.

Record Image := mkImage { width : Z; height : Z; data : list Color }.

Record Texture := mkTexture { tex_width : Z; tex_height : Z }.

Record Sprite := mkSprite { numFrames : Z; frames : list Texture }.

Record Paragraph := mkParagraph { speaker : option string; duration : float }.

Record Script := mkScript { paragraphs : list Paragraph; commandIndex : Z }.

(** An asset handle is a pointer into the asset cache; what the core sees of
    it is the path it was acquired under and the asset's content.  A NULL
    handle is [None]. *)
Record Asset (A : Type) := mkAsset { asset_path : string; asset_data : A }.
Arguments mkAsset {A} _ _.
Arguments asset_path {A} _.
Arguments asset_data {A} _.

Definition Handle (A : Type) := option (Asset A).

(** Modelled from the spec: [GetAssetPath] of the asset cache (not in the
    sources): the path a handle was acquired under, and the empty string
    for an unused slot. *)
Definition GetAssetPath {A : Type} (h : Handle A) : string :=
  match h with
  | Some asset => asset_path asset
  | None => EmptyString
  end.

Record Expression := mkExpression
  { expr_name : string;
    portrait : Handle Texture }.

Record Object := mkObject
  { name : string;
    position : Vector2;
    zOffset : float;
    direction : Direction;
    sprites : list (Handle Sprite);
    animationFps : float;
    animationTimeAccumulator : float;
    animationFrame : Z;
    collisionMap : Handle Image;
    script : Handle Script;
    numExpressions : Z;
    expressions : list Expression;
    motionMaster : MotionMaster }.

(** Array capacities of the declarations [Object objects[100]],
    [Expression expressions[10]], [char name[50]] and [char name[32]]. *)
Definition MAX_OBJECTS : Z := 100.
Definition MAX_EXPRESSIONS : Z := 10.
Definition OBJECT_NAME_SIZE : Z := 50.
Definition EXPRESSION_NAME_SIZE : Z := 32.
Definition SCENE_PATH_SIZE : Z := 256.

(** ** Collision *)

Section Collision.

(** [CheckCollisionPointRec] and [GetImageColor] belong to the graphics
    library: they are parameters. *)
Variable CheckCollisionPointRec : Vector2 -> Rectangle -> bool.
Variable GetImageColor : Image -> Z -> Z -> Color.

Definition CheckCollisionMap (map : Image) (position : Vector2) : bool :=
  let xi := F32.floor_to_int (x position) in
  let yi := F32.floor_to_int (y position) in
  if xi <? 0 then false
  else if xi >=? width map then false
  else if yi <? 0 then false
  else if yi >=? height map then false
  else
    let color := GetImageColor map xi yi in
    r color <? 128.

(** The overload of an earlier iteration of the game file, which takes the
    coordinates apart and answers [true] outside the map. *)
Definition CheckCollisionMap_xy (map : Image) (px py : float) : bool :=
  let xi := F32.floor_to_int px in
  let yi := F32.floor_to_int py in
  if xi <? 0 then true
  else if xi >=? width map then true
  else if yi <? 0 then true
  else if yi >=? height map then true
  else
    let color := GetImageColor map xi yi in
    r color <? 128.

(** The rectangle of an object's collision map, and the test the loop body
    of [MovePointWithCollisions] makes on one object. *)
Definition collision_rectangle (object : Object) (map : Image) : Rectangle :=
  mkRectangle
    (x (position object) -f F32.half *f F32.of_Z (width map))
    (y (position object) -f F32.half *f F32.of_Z (height map))
    (F32.of_Z (width map))
    (F32.of_Z (height map)).

Definition rejects (object : Object) (newPosition : Vector2) : bool :=
  match collisionMap object with
  | Some asset =>
      let map := asset_data asset in
      let rectangle := collision_rectangle object map in
      let topLeft := mkVector2 (rec_x rectangle) (rec_y rectangle) in
      let localPosition := Vector2Subtract newPosition topLeft in
      CheckCollisionPointRec newPosition rectangle
      && CheckCollisionMap map localPosition
  | None => false
  end.

Fixpoint MovePointWithCollisions_scan
  (objs : list Object) (position newPosition : Vector2) : Vector2 :=
  match objs with
  | [] => newPosition
  | object :: rest =>
      if rejects object newPosition then position
      else MovePointWithCollisions_scan rest position newPosition
  end.

Definition MovePointWithCollisions
  (objects : list Object) (numObjects : Z) (position velocity : Vector2)
  : Vector2 :=
  let newPosition := Vector2Add position velocity in
  MovePointWithCollisions_scan
    (take (Z.to_nat numObjects) objects) position newPosition.

End Collision.

(** ** Sprites, foot position and the z-sort *)

(** [ZeroBytes(object, sizeof object[0])]: every field of the record is
    zero, every pointer NULL, every string empty (and the motion master's
    speed is 0, not its initialiser's 10). *)
Definition Expression_zero : Expression :=
  {| expr_name := EmptyString; portrait := None |}.

Definition MotionMaster_zero : MotionMaster :=
  {| currentPoint := Vector2Zero; isMoving := false;
     startPoint := Vector2Zero; endPoint := Vector2Zero;
     motionTime := F32.zero; arrivalTime := F32.zero; speed := F32.zero |}.

Definition Object_zero : Object :=
  {| name := EmptyString;
     position := Vector2Zero;
     zOffset := F32.zero;
     direction := 0;
     sprites := replicate (Z.to_nat DIRECTION_ENUM_COUNT) None;
     animationFps := F32.zero;
     animationTimeAccumulator := F32.zero;
     animationFrame := 0;
     collisionMap := None;
     script := None;
     numExpressions := 0;
     expressions := replicate (Z.to_nat MAX_EXPRESSIONS) Expression_zero;
     motionMaster := MotionMaster_zero |}.

(** [array[i]] for a C array held as a list.  An index outside the array is
    undefined behaviour in the source; the model answers [None] there. *)
Definition array_get {A : Type} (l : list A) (i : Z) : option A :=
  if i <? 0 then None else l !! Z.to_nat i.

Section ZSort.

(** [MirrorDirectionVertically] is declared in the header that is not among
    the sources: a parameter. *)
Variable MirrorDirectionVertically : Direction -> Direction.

Definition GetCurrentSprite (object : Object) : Handle Sprite :=
  match default None (array_get (sprites object) (direction object)) with
  | Some sprite => Some sprite
  | None =>
      default None
        (array_get (sprites object)
           (MirrorDirectionVertically (direction object)))
  end.

Definition GetCurrentTexture (object : Object) : option Texture :=
  match GetCurrentSprite object with
  | None => None
  | Some sprite =>
      Some (default (mkTexture 0 0)
              (array_get (frames (asset_data sprite)) (animationFrame object)))
  end.

Definition GetFootPositionInScreenSpace (object : Object) : Vector2 :=
  match GetCurrentTexture object with
  | Some objectTexture =>
      mkVector2 (x (position object))
        (y (position object) +f F32.of_Z (tex_height objectTexture) *f F32.half)
  | None => position object
  end.

(** The sort key of the comparator, and the comparator itself (the lambda
    passed to [Sort]). *)
Definition sort_key (object : Object) : float :=
  y (GetFootPositionInScreenSpace object) +f zOffset object.

Definition compare_z (l r : Object) : Z :=
  let lz := sort_key l in
  let rz := sort_key r in
  if F32.gtb lz rz then -1
  else if F32.ltb lz rz then 1
  else 0.

End ZSort.

(** Modelled from the spec: the insertion step of [Sort]: the element goes
    before the first element that the comparator does not put before it. *)
Fixpoint Sort_insert {A : Type} (compare : A -> A -> Z) (e : A) (l : list A)
  : list A :=
  match l with
  | [] => [e]
  | h :: t =>
      if compare e h <=? 0 then e :: h :: t
      else h :: Sort_insert compare e t
  end.

(** Modelled from the spec: [Sort(base, count, size, compare)] of the header
    (not in the sources), a comparison sort driven by a C comparator that
    answers a negative number when its left argument goes first; taken here
    as the stable insertion sort. *)
Definition Sort {A : Type} (compare : A -> A -> Z) (l : list A) : list A :=
  foldr (Sort_insert compare) [] l.

Section GetZSortedObjects.

Variable MirrorDirectionVertically : Direction -> Direction.

(** A pointer [&objects[i]] is the index [i]. *)
Definition deref (objects : list Object) (pointer : nat) : Object :=
  default Object_zero (objects !! pointer).

Definition GetZSortedObjects (objects : list Object) (numObjects : Z)
  : list nat :=
  let pointers := seq 0 (Z.to_nat numObjects) in
  Sort (fun left right =>
          compare_z MirrorDirectionVertically
            (deref objects left) (deref objects right))
       pointers.

End GetZSortedObjects.

(** ** Camera shake *)

Record CameraShake := mkCameraShake
  { cameraTrauma : float;
    cameraTraumaFalloff : float }.

Definition seven_tenths : float := Eval cbv in F32.of_Z 7 /f F32.of_Z 10.

Definition DEFAULT_CAMERA_SHAKE_TRAUMA : float := F32.half.

Section Camera.

Variable FRAME_TIME : float.

(** [ParseCommandFloatArg(arg, &success)] of the console (not in the
    sources): a parameter, [None] when [success] is cleared. *)
Variable ParseCommandFloatArg : string -> option float.

Definition DEFAULT_CAMERA_SHAKE_FALLOFF : float := seven_tenths *f FRAME_TIME.

Definition UpdateCameraShake (c : CameraShake) : CameraShake :=
  let trauma := cameraTrauma c -f cameraTraumaFalloff c in
  if F32.leb trauma F32.zero
  then {| cameraTrauma := F32.zero;
          cameraTraumaFalloff := DEFAULT_CAMERA_SHAKE_FALLOFF |}
  else {| cameraTrauma := trauma;
          cameraTraumaFalloff := cameraTraumaFalloff c |}.

Definition HandleCameraShakeCommand (args : list string) (c : CameraShake)
  : bool * CameraShake :=
  if (2 <? length args)%nat then (false, c)
  else
    let parsed1 :=
      match args !! 0%nat with
      | Some arg => ParseCommandFloatArg arg
      | None => Some DEFAULT_CAMERA_SHAKE_TRAUMA
      end in
    let parsed2 :=
      match args !! 1%nat with
      | Some arg => ParseCommandFloatArg arg
      | None => Some DEFAULT_CAMERA_SHAKE_FALLOFF
      end in
    match parsed1, parsed2 with
    | Some trauma, Some falloff =>
        (true, {| cameraTrauma := cameraTrauma c +f trauma;
                  cameraTraumaFalloff := falloff |})
    | _, _ => (false, c)
    end.

Fixpoint UpdateCameraShake_frames (n : nat) (c : CameraShake) : CameraShake :=
  match n with
  | O => c
  | S k => UpdateCameraShake (UpdateCameraShake_frames k c)
  end.

End Camera.

(** ** Binary streams *)

Definition byte := Z.

(** Modelled from the spec: the scene file is little-endian; four bytes of a
    32-bit word, least significant first. *)
Definition uint_to_bytes (v : Z) : list byte :=
  [v mod 256; (v / 256) mod 256; (v / 65536) mod 256; (v / 16777216) mod 256].

(** Modelled from the spec: an [int32] of the scene file, in two's
    complement. *)
Definition int_to_bytes (v : Z) : list byte := uint_to_bytes (v mod 2 ^ 32).

(** Modelled from the spec: the 32-bit word of four little-endian bytes; a
    byte that is not there reads as zero. *)
Definition bytes_to_uint (bs : list byte) : Z :=
  default 0 (bs !! 0%nat)
  + 256 * default 0 (bs !! 1%nat)
  + 65536 * default 0 (bs !! 2%nat)
  + 16777216 * default 0 (bs !! 3%nat).

(** Modelled from the spec: the [int32] of four little-endian bytes. *)
Definition bytes_to_int (bs : list byte) : Z :=
  let u := bytes_to_uint bs in
  if u <? 2 ^ 31 then u else u - 2 ^ 32.

(** Modelled from the spec: the sign bit of a binary32 bit pattern. *)
Definition sign_bit (s : bool) : Z := if s then 2 ^ 31 else 0.

(** Modelled from the spec: a [float32] of the scene file is the IEEE-754
    bit pattern of the number: sign, eight bits of biased exponent, 23 bits
    of fraction. *)
Definition float_to_bits (f : float) : Z :=
  match f with
  | S754_zero s => sign_bit s
  | S754_infinity s => sign_bit s + 255 * 2 ^ 23
  | S754_nan => 255 * 2 ^ 23 + 2 ^ 22
  | S754_finite s m e => sign_bit s + (e + 149) * 2 ^ 23 + Z.pos m
  end.

(** Modelled from the spec: the number of an IEEE-754 binary32 bit pattern. *)
Definition bits_to_float (bits : Z) : float :=
  let s := 2 ^ 31 <=? bits in
  let biased := (bits / 2 ^ 23) mod 256 in
  let fraction := bits mod 2 ^ 23 in
  if biased =? 0 then
    if fraction =? 0 then S754_zero s
    else S754_finite s (Z.to_pos fraction) (-149)
  else if biased =? 255 then
    if fraction =? 0 then S754_infinity s else S754_nan
  else S754_finite s (Z.to_pos (fraction + 2 ^ 23)) (biased - 150).

(** Modelled from the spec: the four bytes of a [float32]. *)
Definition float_to_bytes (f : float) : list byte :=
  uint_to_bytes (float_to_bits f).

(** Modelled from the spec: the [float32] of four bytes. *)
Definition bytes_to_float (bs : list byte) : float :=
  bits_to_float (bytes_to_uint bs).

(** The characters of a string as bytes. *)
Definition string_to_bytes (s : string) : list byte :=
  map (fun c => Z.of_N (N_of_ascii c)) (list_ascii_of_string s).

(** The string of a list of bytes. *)
Definition bytes_to_string (bs : list byte) : string :=
  string_of_list_ascii (map (fun z => ascii_of_N (Z.to_N z)) bs).

(** Modelled from the spec: a [string] of the scene file is the characters
    followed by a terminating zero byte (the spec allows a null-terminated
    encoding as long as writer and reader agree). *)
Definition cstring_to_bytes (s : string) : list byte := string_to_bytes s ++ [0].

(** The bytes of a C string up to its terminator. *)
Fixpoint until_zero (bs : list byte) : list byte :=
  match bs with
  | [] => []
  | c :: rest => if c =? 0 then [] else c :: until_zero rest
  end.

(** A C string holds no zero character. *)
Definition is_cstring (s : string) : bool :=
  forallb (fun c => negb (c =? 0)) (string_to_bytes s).

(** Modelled from the spec: [CopyString(dst, src, sizeof dst)] of the header
    (not in the sources): the destination receives the source cut to what
    the array holds with its terminator. *)
Definition CopyString (src : string) (dst_size : Z) : string :=
  bytes_to_string (take (Z.to_nat (dst_size - 1)) (string_to_bytes src)).

(** Modelled from the spec: the [BinaryStream] of the header (not in the
    sources): a block of [size] bytes and a cursor into it. *)
Record BinaryStream := mkBinaryStream
  { buffer : list byte;
    size : nat;
    cursor : nat }.

(** Modelled from the spec: [WriteBytes] of the header (not in the sources).
    The save buffer is bounded by a fixed maximum size: a write that does not
    fit is cut at the end of the block. *)
Definition WriteBytes (stream : BinaryStream) (bytes : list byte)
  : BinaryStream :=
  let written := take (size stream - cursor stream) bytes in
  {| buffer := take (cursor stream) (buffer stream) ++ written
               ++ drop (cursor stream + length written) (buffer stream);
     size := size stream;
     cursor := cursor stream + length written |}.

(** Modelled from the spec: [WriteInt] of the header (not in the sources). *)
Definition WriteInt (stream : BinaryStream) (v : Z) : BinaryStream :=
  WriteBytes stream (int_to_bytes v).

(** Modelled from the spec: [WriteFloat] of the header (not in the sources). *)
Definition WriteFloat (stream : BinaryStream) (f : float) : BinaryStream :=
  WriteBytes stream (float_to_bytes f).

(** Modelled from the spec: [WriteString] of the header (not in the sources). *)
Definition WriteString (stream : BinaryStream) (s : string) : BinaryStream :=
  WriteBytes stream (cstring_to_bytes s).

(** The bytes from the cursor to the end of the stream. *)
Definition remaining (stream : BinaryStream) : list byte :=
  drop (cursor stream) (take (size stream) (buffer stream)).

(** The stream with its cursor moved on by [n] bytes, or to the end. *)
Definition advance (stream : BinaryStream) (n : nat) : BinaryStream :=
  {| buffer := buffer stream;
     size := size stream;
     cursor := cursor stream + Nat.min n (length (remaining stream)) |}.

(** Readers thread the stream. *)
Definition Reader (A : Type) : Type := BinaryStream -> A * BinaryStream.

Definition ret {A : Type} (v : A) : Reader A := fun stream => (v, stream).

Definition bind {A B : Type} (c : Reader A) (k : A -> Reader B) : Reader B :=
  fun stream => let (v, stream') := c stream in k v stream'.

Notation "'let*' v ':=' c 'in' k" := (bind c (fun v => k))
  (at level 10, v name, c at level 100, k at level 200).

(** Modelled from the spec: [ReadBytes] of the header (not in the sources); a
    read past the end yields the bytes there are. *)
Definition ReadBytes (n : nat) : Reader (list byte) :=
  fun stream => (take n (remaining stream), advance stream n).

(** Modelled from the spec: [ReadInt] of the header (not in the sources). *)
Definition ReadInt : Reader Z :=
  let* bytes := ReadBytes 4 in ret (bytes_to_int bytes).

(** Modelled from the spec: [ReadFloat] of the header (not in the sources). *)
Definition ReadFloat : Reader float :=
  let* bytes := ReadBytes 4 in ret (bytes_to_float bytes).

(** Modelled from the spec: [ReadString] of the header (not in the sources):
    the characters up to the terminator, the cursor moved past it. *)
Definition ReadString : Reader string :=
  fun stream =>
    let chars := until_zero (remaining stream) in
    (bytes_to_string chars, advance stream (length chars + 1)).

(** A [for] loop that reads the [n] elements of an array in turn. *)
Fixpoint read_array {A : Type} (n : nat) (c : Reader A) : Reader (list A) :=
  match n with
  | O => ret []
  | S k => let* v := c in let* rest := read_array k c in ret (v :: rest)
  end.

(** Modelled from the spec: [BytesEqual(a, b, n)] of the header (not in the
    sources): the first [n] bytes of both are there and are the same. *)
Definition BytesEqual (a b : list byte) (n : nat) : bool :=
  bool_decide (take n a = take n b) && (n <=? length a)%nat && (n <=? length b)%nat.

(** ** Scene persistence *)

Definition SCENE_MAGIC : list byte := [75; 69; 75; 87].
Definition SCENE_VERSION : Z := 2.
Definition maxBytes : nat := 32 * 1024.

(** What [LogError] and [LogInfo] are called with. *)
Inductive LogMessage :=
| Error_FileDoesNotExist (path : string)
| Error_FailedToLoadContents (path : string)
| Error_NotASceneFile (path : string)
| Error_WrongVersion (path : string) (version : Z)
| Info_LoadedScene (path : string)
| Info_SavedScene (path : string)
| Info_CouldNotSave (path : string).

Definition is_error (m : LogMessage) : bool :=
  match m with
  | Error_FileDoesNotExist _ | Error_FailedToLoadContents _
  | Error_NotASceneFile _ | Error_WrongVersion _ _ => true
  | _ => false
  end.

(** The globals the persistence code reads and writes, with the disk and the
    log it talks to. *)
Record World := mkWorld
  { objects : list Object;
    numObjects : Z;
    lastSavedOrLoadedScene : string;
    files : gmap string (list byte);
    log : list LogMessage }.

Definition set_log (w : World) (m : LogMessage) : World :=
  {| objects := objects w; numObjects := numObjects w;
     lastSavedOrLoadedScene := lastSavedOrLoadedScene w;
     files := files w; log := log w ++ [m] |}.

Section Persistence.

(** The asset cache is an external collaborator: acquiring by path is a
    parameter for each kind of asset ([AcquireScript] with the four fonts
    it is passed). *)
Variable AcquireScript : string -> Handle Script.
Variable AcquireCollisionMap : string -> Handle Image.
Variable AcquireSprite : string -> Handle Sprite.
Variable AcquireTexture : string -> Handle Texture.

(** Whether the operating system lets a file be written at a path. *)
Variable writable : string -> bool.

(** Modelled from the spec: [SaveFileData] writes the whole file in one
    call and reports failure, leaving the disk as it was. *)
Definition SaveFileData (disk : gmap string (list byte)) (path : string)
  (bytes : list byte) : option (gmap string (list byte)) :=
  if writable path then Some (<[path := bytes]> disk) else None.

Definition SaveExpression (stream : BinaryStream) (expression : Expression)
  : BinaryStream :=
  let stream := WriteString stream (expr_name expression) in
  WriteString stream (GetAssetPath (portrait expression)).

Definition SaveObject (stream : BinaryStream) (object : Object)
  : BinaryStream :=
  let stream := WriteString stream (name object) in
  let stream := WriteFloat stream (x (position object)) in
  let stream := WriteFloat stream (y (position object)) in
  let stream := WriteFloat stream (zOffset object) in
  let stream := WriteFloat stream (animationFps object) in
  let stream := WriteInt stream (direction object) in
  let stream := WriteString stream (GetAssetPath (script object)) in
  let stream := WriteString stream (GetAssetPath (collisionMap object)) in
  let stream :=
    fold_left
      (fun stream dir =>
         WriteString stream
           (GetAssetPath (default None (array_get (sprites object) dir))))
      (seqZ 0 DIRECTION_ENUM_COUNT) stream in
  fold_left
    (fun stream j =>
       SaveExpression stream
         (default Expression_zero (array_get (expressions object) j)))
    (seqZ 0 MAX_EXPRESSIONS) stream.

Definition SaveScene (w : World) (path : string) : World :=
  let stream := {| buffer := replicate maxBytes 0; size := maxBytes; cursor := 0 |} in
  let stream := WriteBytes stream SCENE_MAGIC in
  let stream := WriteInt stream SCENE_VERSION in
  let stream := WriteInt stream (numObjects w) in
  let stream :=
    fold_left
      (fun stream i =>
         SaveObject stream (default Object_zero (array_get (objects w) i)))
      (seqZ 0 (numObjects w)) stream in
  match SaveFileData (files w) path (take (cursor stream) (buffer stream)) with
  | Some disk =>
      {| objects := objects w; numObjects := numObjects w;
         lastSavedOrLoadedScene := CopyString path SCENE_PATH_SIZE;
         files := disk;
         log := log w ++ [Info_SavedScene path] |}
  | None => set_log w (Info_CouldNotSave path)
  end.

(** [for (i < numObjects) Destroy(&objects[i])]: the asset releases go to
    the asset cache, the record is zero-filled. *)
Definition Destroy_all (objects : list Object) (numObjects : Z) : list Object :=
  fold_left (fun objects i => <[i := Object_zero]> objects)
    (seq 0 (Z.to_nat numObjects)) objects.

Definition LoadExpression : Reader Expression :=
  let* expressionName := ReadString in
  let* portraitPath := ReadString in
  ret {| expr_name := CopyString expressionName EXPRESSION_NAME_SIZE;
         portrait := AcquireTexture portraitPath |}.

(** One iteration of the loading loop: the fields the file holds are
    assigned, the others are left as they are. *)
Definition LoadObject (object : Object) : Reader Object :=
  let* objectName := ReadString in
  let* positionX := ReadFloat in
  let* positionY := ReadFloat in
  let* z := ReadFloat in
  let* fps := ReadFloat in
  let* dir := ReadInt in
  let* scriptPath := ReadString in
  let* collisionMapPath := ReadString in
  let* spritePaths := read_array (Z.to_nat DIRECTION_ENUM_COUNT) ReadString in
  let* loadedExpressions := read_array (Z.to_nat MAX_EXPRESSIONS) LoadExpression in
  ret {| name := CopyString objectName OBJECT_NAME_SIZE;
         position := mkVector2 positionX positionY;
         zOffset := z;
         direction := dir;
         sprites := map AcquireSprite spritePaths;
         animationFps := fps;
         animationTimeAccumulator := animationTimeAccumulator object;
         animationFrame := animationFrame object;
         collisionMap := AcquireCollisionMap collisionMapPath;
         script := AcquireScript scriptPath;
         numExpressions := numExpressions object;
         expressions := loadedExpressions;
         motionMaster := motionMaster object |}.

(** The loading loop from index [i] on, [count] objects to go.  Past the end
    of the array the source writes outside it (undefined behaviour); the
    model reads the record from the stream and drops it. *)
Fixpoint LoadObjects (count i : nat) (objects : list Object)
  : Reader (list Object) :=
  match count with
  | O => ret objects
  | S k =>
      let* object := LoadObject (default Object_zero (objects !! i)) in
      LoadObjects k (S i) (<[i := object]> objects)
  end.

Definition LoadScene (w : World) (path : string) : World :=
  match files w !! path with
  | None => set_log w (Error_FileDoesNotExist path)
  | Some [] => set_log w (Error_FailedToLoadContents path)
  | Some data =>
      let stream := {| buffer := data; size := length data; cursor := 0 |} in
      let (magic, stream) := ReadBytes 4 stream in
      if negb (BytesEqual magic SCENE_MAGIC 4)
      then set_log w (Error_NotASceneFile path)
      else
        let (version, stream) := ReadInt stream in
        if negb (version =? SCENE_VERSION)
        then set_log w (Error_WrongVersion path version)
        else
          let destroyed := Destroy_all (objects w) (numObjects w) in
          let (count, stream) := ReadInt stream in
          let (loaded, stream) :=
            LoadObjects (Z.to_nat count) 0 destroyed stream in
          {| objects := loaded; numObjects := count;
             lastSavedOrLoadedScene := CopyString path SCENE_PATH_SIZE;
             files := files w;
             log := log w ++ [Info_LoadedScene path] |}
  end.

End Persistence.

(** ** The Talking state *)

Inductive GameState :=
| GAMESTATE_PLAYING
| GAMESTATE_TALKING
| GAMESTATE_PAUSED
| GAMESTATE_EDITOR.

(** Modelled from the spec: an entry of the game-state stack of the header
    (not in the sources): an active mode with the frame counter of its
    activation.  The stack is the list of them, top first. *)
Record StackEntry := mkStackEntry { state : GameState; frameNumber : Z }.

(** Modelled from the spec: [PushGameState] of the header (not in the
    sources): the state is activated on top with its frame counter at zero. *)
Definition PushGameState (s : GameState) (stack : list StackEntry)
  : list StackEntry :=
  {| state := s; frameNumber := 0 |} :: stack.

(** Modelled from the spec: [PopGameState] of the header (not in the
    sources): back to the state beneath, which is left as it was. *)
Definition PopGameState (stack : list StackEntry) : list StackEntry :=
  tail stack.

(** Modelled from the spec: [SetFrameNumberInCurrentGameState] of the header
    (not in the sources): the frame counter of the state on top is forced to
    a value. *)
Definition SetFrameNumberInCurrentGameState (n : Z) (stack : list StackEntry)
  : list StackEntry :=
  match stack with
  | [] => []
  | top :: below => {| state := state top; frameNumber := n |} :: below
  end.

(** The frame counter of the state on top. *)
Definition current_frame (stack : list StackEntry) : Z :=
  match stack with
  | [] => 0
  | top :: _ => frameNumber top
  end.

(** Modelled from the spec: [ClampInt(value, lo, hi)] of the header. *)
Definition ClampInt (value lo hi : Z) : Z :=
  if value <? lo then lo else if value >? hi then hi else value.

(** What one frame of input holds for [Talking_Update]. *)
Record TalkingInput := mkTalkingInput
  { pause_wasPressed : bool;
    interact_wasPressed : bool;
    key_left_pressed : bool;
    key_right_pressed : bool }.

(** The globals [Talking_Update] works on; [talkingScript] is the script the
    talking object points to. *)
Record Talking := mkTalking
  { devMode : bool;
    talkingScript : Script;
    paragraphIndex : Z;
    stack : list StackEntry;
    shake : CameraShake }.

Section Talking.

Variable FRAME_TIME : float.

(** [(float)GetTimeInCurrentGameState()], from the frame counter of the
    state on top: a parameter. *)
Variable GetTimeInCurrentGameState : Z -> float.

Definition Talking_Init (g : Talking) (param : Script) : Talking :=
  {| devMode := devMode g;
     talkingScript := {| paragraphs := paragraphs param; commandIndex := 0 |};
     paragraphIndex := 0;
     stack := stack g;
     shake := shake g |}.

Definition set_paragraphIndex (g : Talking) (i : Z) : Talking :=
  {| devMode := devMode g; talkingScript := talkingScript g;
     paragraphIndex := i; stack := stack g; shake := shake g |}.

Definition set_stack (g : Talking) (s : list StackEntry) : Talking :=
  {| devMode := devMode g; talkingScript := talkingScript g;
     paragraphIndex := paragraphIndex g; stack := s; shake := shake g |}.

Definition numParagraphs (g : Talking) : Z :=
  Z.of_nat (length (paragraphs (talkingScript g))).

(** The first half of [Talking_Update]: the clamp of the index and the two
    developer keys. *)
Definition Talking_clamp (g : Talking) : Talking :=
  if paragraphIndex g >=? numParagraphs g
  then set_paragraphIndex g (numParagraphs g - 1)
  else g.

Definition Talking_key_left (input : TalkingInput) (g : Talking) : Talking :=
  if devMode g && key_left_pressed input then
    let g := set_paragraphIndex g
               (ClampInt (paragraphIndex g - 1) 0 (numParagraphs g - 1)) in
    set_stack g (SetFrameNumberInCurrentGameState 0 (stack g))
  else g.

Definition Talking_key_right (input : TalkingInput) (g : Talking) : Talking :=
  if devMode g && key_right_pressed input then
    if paragraphIndex g =? numParagraphs g - 1
    then set_stack g (SetFrameNumberInCurrentGameState 99999 (stack g))
    else
      let g := set_paragraphIndex g
                 (ClampInt (paragraphIndex g + 1) 0 (numParagraphs g - 1)) in
      set_stack g (SetFrameNumberInCurrentGameState 0 (stack g))
  else g.

(** The paragraph [script->paragraphs[paragraphIndex]]; outside the list
    (undefined behaviour in the source, reached only with an empty script)
    the model reads a duration of zero. *)
Definition paragraphDuration (g : Talking) : float :=
  match array_get (paragraphs (talkingScript g)) (paragraphIndex g) with
  | Some paragraph => duration paragraph
  | None => F32.zero
  end.

(** [20 * t < paragraphDuration]: the reveal of the paragraph is still
    running. *)
Definition revealing (g : Talking) : bool :=
  F32.ltb (F32.twenty *f GetTimeInCurrentGameState (current_frame (stack g)))
          (paragraphDuration g).

Definition Talking_finish (prevParagraphIndex : Z) (g : Talking) : Talking :=
  let g :=
    if negb (paragraphIndex g =? prevParagraphIndex)
    then {| devMode := devMode g;
            talkingScript := {| paragraphs := paragraphs (talkingScript g);
                                commandIndex := 0 |};
            paragraphIndex := paragraphIndex g;
            stack := stack g; shake := shake g |}
    else g in
  {| devMode := devMode g; talkingScript := talkingScript g;
     paragraphIndex := paragraphIndex g; stack := stack g;
     shake := UpdateCameraShake FRAME_TIME (shake g) |}.

Definition Talking_Update (input : TalkingInput) (g : Talking) : Talking :=
  if pause_wasPressed input
  then set_stack g (PushGameState GAMESTATE_PAUSED (stack g))
  else
    let prevParagraphIndex := paragraphIndex g in
    let g := Talking_clamp g in
    let g := Talking_key_left input g in
    let g := Talking_key_right input g in
    if interact_wasPressed input then
      if revealing g
      then Talking_finish prevParagraphIndex
             (set_stack g (SetFrameNumberInCurrentGameState 99999 (stack g)))
      else
        let g := set_paragraphIndex g (paragraphIndex g + 1) in
        if paragraphIndex g >=? numParagraphs g
        then set_stack g (PopGameState (stack g))
        else Talking_finish prevParagraphIndex
               (set_stack g (SetFrameNumberInCurrentGameState 0 (stack g)))
    else Talking_finish prevParagraphIndex g.

(** What the interact branch finds: the globals after the clamp and the
    developer keys of the same frame. *)
Definition before_interact (input : TalkingInput) (g : Talking) : Talking :=
  Talking_key_right input (Talking_key_left input (Talking_clamp g)).

End Talking.

(** ** Direction from a vector (the first iteration of the game file) *)

Section DirectionFromVector.

(** [Vector2Atan], [Wrap] and [PI] come from the headers, [roundf] from the
    C library: parameters. *)
Variable Vector2Atan : Vector2 -> float.
Variable Wrap : float -> float -> float -> float.
Variable PI : float.
Variable roundf : float -> float.

(** [(int)f]: truncation toward zero, [INT_MIN] when out of range, as for
    [F32.floor_to_int]. *)
Definition float_to_int (f : float) : Z :=
  match f with
  | S754_zero _ => 0
  | S754_finite s m e =>
      let magnitude := if 0 <=? e then Z.pos m * 2 ^ e else Z.pos m / 2 ^ (- e) in
      let v := cond_Zopp s magnitude in
      if (F32.INT_MIN <=? v) && (v <=? F32.INT_MAX) then v else F32.INT_MIN
  | _ => F32.INT_MIN
  end.

(** The index [DirectionFromVector] computes before its two range tests. *)
Definition raw_index (v : Vector2) : Z :=
  float_to_int
    (roundf (Wrap (Vector2Atan v) F32.zero (F32.of_Z 2 *f PI)
             /f (F32.of_Z 2 *f PI) *f F32.of_Z DIRECTION_ENUM_COUNT)).

Definition DirectionFromVector (v : Vector2) : Direction :=
  let two_pi := F32.of_Z 2 *f PI in
  let angleTaus := Wrap (Vector2Atan v) F32.zero two_pi /f two_pi in
  let floatIndex := roundf (angleTaus *f F32.of_Z DIRECTION_ENUM_COUNT) in
  let index := float_to_int floatIndex in
  let index := if index >=? DIRECTION_ENUM_COUNT then 0 else index in
  let index := if index <? 0 then DIRECTION_ENUM_COUNT - 1 else index in
  index.

End DirectionFromVector.

(** ** Reference instances of the parameters, and sample data *)

(** Modelled from the spec: [operator==] on [Vector2] of the header (not in
    the sources), for "start == end": the component-wise comparison of two
    vectors, with the C comparison of floats. *)
Definition Vector2_eq_ieee (p q : Vector2) : bool :=
  F32.eqb (x p) (x q) && F32.eqb (y p) (y q).

Definition vec (px py : Z) : Vector2 := mkVector2 (F32.of_Z px) (F32.of_Z py).

Definition nan_point : Vector2 := mkVector2 S754_nan F32.zero.

(** One sixtieth of a second. *)
Definition sample_FRAME_TIME : float := Eval cbv in F32.of_Z 1 /f F32.of_Z 60.

Definition sample_motion : MotionMaster :=
  {| currentPoint := vec 3 4; isMoving := true;
     startPoint := vec 3 4; endPoint := vec 30 40;
     motionTime := F32.of_Z 1; arrivalTime := F32.of_Z 5;
     speed := F32.ten |}.

(** ** What the specification says of a collision *)

Section CollisionSpec.

Variable CheckCollisionPointRec : Vector2 -> Rectangle -> bool.
Variable GetImageColor : Image -> Z -> Z -> Color.

(** The object owns a mask, the rectangle of the mask (centred on the
    object's position, as large as the mask) contains the candidate point,
    and the mask is blocked at the point taken relative to the rectangle's
    corner. *)
Definition blocked_by (object : Object) (candidate : Vector2) : Prop :=
  exists mask : Asset Image,
    collisionMap object = Some mask /\
    let map := asset_data mask in
    let left := x (position object) -f F32.half *f F32.of_Z (width map) in
    let top := y (position object) -f F32.half *f F32.of_Z (height map) in
    CheckCollisionPointRec candidate
      (mkRectangle left top (F32.of_Z (width map)) (F32.of_Z (height map)))
    = true /\
    CheckCollisionMap GetImageColor map
      (Vector2Subtract candidate (mkVector2 left top)) = true.

End CollisionSpec.

(** The point-in-rectangle test and the pixel lookup as the graphics library
    has them, for running the collision code on sample data. *)
Definition sample_CheckCollisionPointRec (p : Vector2) (rec : Rectangle) : bool :=
  F32.geb (x p) (rec_x rec) && F32.ltb (x p) (rec_x rec +f rec_width rec)
  && F32.geb (y p) (rec_y rec) && F32.ltb (y p) (rec_y rec +f rec_height rec).

Definition sample_GetImageColor (image : Image) (px py : Z) : Color :=
  default (mkColor 0 0 0 0) (array_get (data image) (py * width image + px)).

Definition black : Color := mkColor 0 0 0 255.
Definition white : Color := mkColor 255 255 255 255.

(** A 2 x 2 mask, blocked on its left column. *)
Definition sample_mask : Image :=
  {| width := 2; height := 2; data := [black; white; black; white] |}.

(** The console's float parser on the few words the samples use. *)
Definition sample_ParseCommandFloatArg (arg : string) : option float :=
  if String.eqb arg "inf" then Some (S754_infinity false)
  else if String.eqb arg "nan" then Some S754_nan
  else if String.eqb arg "1" then Some (F32.of_Z 1)
  else if String.eqb arg "0" then Some F32.zero
  else None.

Definition shake_at_rest : CameraShake :=
  {| cameraTrauma := F32.zero; cameraTraumaFalloff := seven_tenths *f sample_FRAME_TIME |}.

Definition shake_infinite : CameraShake :=
  {| cameraTrauma := S754_infinity false;
     cameraTraumaFalloff := S754_infinity false |}.

(** Seconds in a state from its frame counter, at sixty frames a second. *)
Definition sample_GetTime (frame : Z) : float := F32.of_Z frame *f sample_FRAME_TIME.

(** A script of three paragraphs and the Talking state just pushed over
    Playing with it. *)
Definition sample_script : Script :=
  {| paragraphs := [ {| speaker := None; duration := F32.of_Z 40 |};
                     {| speaker := None; duration := F32.of_Z 10 |};
                     {| speaker := None; duration := F32.of_Z 25 |} ];
     commandIndex := 7 |}.

Definition sample_talking : Talking :=
  {| devMode := false;
     talkingScript := sample_script;
     paragraphIndex := 5;
     stack := [ {| state := GAMESTATE_TALKING; frameNumber := 0 |};
                {| state := GAMESTATE_PLAYING; frameNumber := 321 |} ];
     shake := shake_at_rest |}.

Definition press_interact : TalkingInput :=
  {| pause_wasPressed := false; interact_wasPressed := true;
     key_left_pressed := false; key_right_pressed := false |}.

Definition press_pause_and_interact : TalkingInput :=
  {| pause_wasPressed := true; interact_wasPressed := true;
     key_left_pressed := false; key_right_pressed := false |}.

Definition press_nothing : TalkingInput :=
  {| pause_wasPressed := false; interact_wasPressed := false;
     key_left_pressed := false; key_right_pressed := false |}.

(** ** What the specification says of the z-order *)

Section ZOrderSpec.

Variable MirrorDirectionVertically : Direction -> Direction.
Variable objects : list Object.

(** The sort key of the object a pointer designates. *)
Definition z_key (pointer : nat) : float :=
  sort_key MirrorDirectionVertically (deref objects pointer).

(** A list of pointers in descending key order: every element's key is at
    least the key of every element after it. *)
Definition descending (pointers : list nat) : Prop :=
  StronglySorted (fun p q => F32.leb (z_key q) (z_key p) = true) pointers.

End ZOrderSpec.

(** Flipping a direction across the horizontal axis. *)
Definition sample_MirrorDirectionVertically (d : Direction) : Direction :=
  (DIRECTION_ENUM_COUNT - d) mod DIRECTION_ENUM_COUNT.

(** An object without art, mask, script or expressions. *)
Definition plain_object (n : string) (p : Vector2) (z : float) : Object :=
  {| name := n; position := p; zOffset := z;
     direction := DIRECTION_DOWN;
     sprites := replicate (Z.to_nat DIRECTION_ENUM_COUNT) None;
     animationFps := F32.ten;
     animationTimeAccumulator := F32.zero;
     animationFrame := 0;
     collisionMap := None;
     script := None;
     numExpressions := 0;
     expressions := replicate (Z.to_nat MAX_EXPRESSIONS) Expression_zero;
     motionMaster := MotionMaster_default |}.

Definition set_sprite (o : Object) (dir : Direction) (s : Handle Sprite) : Object :=
  {| name := name o; position := position o; zOffset := zOffset o;
     direction := direction o;
     sprites := <[Z.to_nat dir := s]> (sprites o);
     animationFps := animationFps o;
     animationTimeAccumulator := animationTimeAccumulator o;
     animationFrame := animationFrame o;
     collisionMap := collisionMap o; script := script o;
     numExpressions := numExpressions o; expressions := expressions o;
     motionMaster := motionMaster o |}.

Definition set_collisionMap (o : Object) (m : Handle Image) : Object :=
  {| name := name o; position := position o; zOffset := zOffset o;
     direction := direction o; sprites := sprites o;
     animationFps := animationFps o;
     animationTimeAccumulator := animationTimeAccumulator o;
     animationFrame := animationFrame o;
     collisionMap := m; script := script o;
     numExpressions := numExpressions o; expressions := expressions o;
     motionMaster := motionMaster o |}.

Definition sample_sprite : Handle Sprite :=
  Some {| asset_path := "res/player-down.png";
          asset_data := {| numFrames := 1;
                           frames := [ {| tex_width := 50; tex_height := 90 |} ] |} |}.

(** Three objects: the player with a sprite 90 pixels high (key 405), a
    prop lifted by its z-offset (key 410) and a prop far up the screen (key
    100). *)
Definition sample_scene : list Object :=
  [ set_sprite (plain_object "player" (vec 640 360) F32.zero) DIRECTION_DOWN sample_sprite;
    plain_object "lamp" (vec 660 360) (F32.of_Z 50);
    plain_object "sign" (vec 20 100) F32.zero ].

(** Three objects whose keys are 1, NaN and 2. *)
Definition nan_scene : list Object :=
  [ plain_object "a" (vec 0 1) F32.zero;
    plain_object "b" (mkVector2 F32.zero S754_nan) F32.zero;
    plain_object "c" (vec 0 2) F32.zero ].

(** A wall whose 2 x 2 mask is centred on (10, 10). *)
Definition sample_wall : Object :=
  set_collisionMap (plain_object "wall" (vec 10 10) F32.zero)
    (Some {| asset_path := "res/wall-mask.png"; asset_data := sample_mask |}).

(** ** What the specification says of the scene file *)

(** The fields of an object that the scene file holds, assets by their
    paths. *)
Record SavedObject := mkSavedObject
  { saved_name : string;
    saved_position_x : float;
    saved_position_y : float;
    saved_zOffset : float;
    saved_animationFps : float;
    saved_direction : Direction;
    saved_script : string;
    saved_collisionMap : string;
    saved_sprites : list string;
    saved_expressions : list (string * string) }.

Definition sprite_path (object : Object) (dir : Z) : string :=
  GetAssetPath (default None (array_get (sprites object) dir)).

Definition expression_at (object : Object) (j : Z) : Expression :=
  default Expression_zero (array_get (expressions object) j).

Definition serialized (object : Object) : SavedObject :=
  {| saved_name := name object;
     saved_position_x := x (position object);
     saved_position_y := y (position object);
     saved_zOffset := zOffset object;
     saved_animationFps := animationFps object;
     saved_direction := direction object;
     saved_script := GetAssetPath (script object);
     saved_collisionMap := GetAssetPath (collisionMap object);
     saved_sprites := map (sprite_path object) (seqZ 0 DIRECTION_ENUM_COUNT);
     saved_expressions :=
       map (fun j => (expr_name (expression_at object j),
                      GetAssetPath (portrait (expression_at object j))))
           (seqZ 0 MAX_EXPRESSIONS) |}.

(** The serialized fields of the objects of a scene table, in table order. *)
Definition serialized_scene (objects : list Object) (numObjects : Z)
  : list SavedObject :=
  map serialized (take (Z.to_nat numObjects) objects).

(** The bytes of the file format of the specification, section 6. *)
Definition expression_bytes (expression : Expression) : list byte :=
  cstring_to_bytes (expr_name expression)
  ++ cstring_to_bytes (GetAssetPath (portrait expression)).

Definition object_bytes (object : Object) : list byte :=
  cstring_to_bytes (name object)
  ++ float_to_bytes (x (position object))
  ++ float_to_bytes (y (position object))
  ++ float_to_bytes (zOffset object)
  ++ float_to_bytes (animationFps object)
  ++ int_to_bytes (direction object)
  ++ cstring_to_bytes (GetAssetPath (script object))
  ++ cstring_to_bytes (GetAssetPath (collisionMap object))
  ++ concat (map (fun dir => cstring_to_bytes (sprite_path object dir))
               (seqZ 0 DIRECTION_ENUM_COUNT))
  ++ concat (map (fun j => expression_bytes (expression_at object j))
               (seqZ 0 MAX_EXPRESSIONS)).

Definition scene_bytes (objects : list Object) (numObjects : Z) : list byte :=
  SCENE_MAGIC ++ int_to_bytes SCENE_VERSION ++ int_to_bytes numObjects
  ++ concat (map (fun i => object_bytes (default Object_zero (array_get objects i)))
               (seqZ 0 numObjects)).

(** A scene table the C types can hold: strings are C strings that fit
    their arrays, floats are binary32 values, the direction is one of the
    eight, the arrays have their declared sizes, and the counts are within
    capacity. *)
Definition fits_array (s : string) (array_size : Z) : bool :=
  is_cstring s && (Z.of_nat (String.length s) <? array_size).

Definition wf_expression (expression : Expression) : bool :=
  fits_array (expr_name expression) EXPRESSION_NAME_SIZE
  && is_cstring (GetAssetPath (portrait expression)).

Definition wf_object (object : Object) : bool :=
  fits_array (name object) OBJECT_NAME_SIZE
  && F32.valid (x (position object))
  && F32.valid (y (position object))
  && F32.valid (zOffset object)
  && F32.valid (animationFps object)
  && (0 <=? direction object) && (direction object <? DIRECTION_ENUM_COUNT)
  && is_cstring (GetAssetPath (script object))
  && is_cstring (GetAssetPath (collisionMap object))
  && (Z.of_nat (length (sprites object)) =? DIRECTION_ENUM_COUNT)
  && forallb (fun h => is_cstring (GetAssetPath h)) (sprites object)
  && (0 <=? numExpressions object) && (numExpressions object <=? MAX_EXPRESSIONS)
  && (Z.of_nat (length (expressions object)) =? MAX_EXPRESSIONS)
  && forallb wf_expression (expressions object).

Definition wf_scene (w : World) : bool :=
  (Z.of_nat (length (objects w)) =? MAX_OBJECTS)
  && (0 <=? numObjects w) && (numObjects w <=? MAX_OBJECTS)
  && forallb wf_object (take (Z.to_nat (numObjects w)) (objects w)).

(** A reader consumes exactly [bytes] from the stream and yields a value
    that satisfies [P]. *)
Definition reads {A : Type} (c : Reader A) (bytes : list byte) (P : A -> Prop)
  : Prop :=
  forall (stream : BinaryStream) (rest : list byte),
    remaining stream = bytes ++ rest ->
    exists (v : A) (stream' : BinaryStream),
      c stream = (v, stream') /\ remaining stream' = rest /\ P v.

(** A write stream over a block of [capacity] bytes holds the first
    [capacity] bytes of [written], with its cursor after them. *)
Definition holds (capacity : nat) (stream : BinaryStream) (written : list byte)
  : Prop :=
  size stream = capacity /\
  length (buffer stream) = capacity /\
  cursor stream = Nat.min (length written) capacity /\
  take (cursor stream) (buffer stream) = take capacity written.

(** ** Sample worlds *)

(** An asset cache that knows every path: the empty path is no asset. *)
Definition sample_Acquire {A : Type} (content : A) (path : string) : Handle A :=
  if String.eqb path "" then None
  else Some {| asset_path := path; asset_data := content |}.

Definition sample_AcquireScript : string -> Handle Script :=
  sample_Acquire sample_script.
Definition sample_AcquireCollisionMap : string -> Handle Image :=
  sample_Acquire sample_mask.
Definition sample_AcquireSprite : string -> Handle Sprite :=
  sample_Acquire {| numFrames := 1;
                    frames := [ {| tex_width := 50; tex_height := 90 |} ] |}.
Definition sample_AcquireTexture : string -> Handle Texture :=
  sample_Acquire {| tex_width := 256; tex_height := 256 |}.

Definition always_writable (path : string) : bool := true.

Definition set_expressions (o : Object) (n : Z) (es : list Expression) : Object :=
  {| name := name o; position := position o; zOffset := zOffset o;
     direction := direction o; sprites := sprites o;
     animationFps := animationFps o;
     animationTimeAccumulator := animationTimeAccumulator o;
     animationFrame := animationFrame o;
     collisionMap := collisionMap o; script := script o;
     numExpressions := n; expressions := es;
     motionMaster := motionMaster o |}.

Definition set_script (o : Object) (s : Handle Script) : Object :=
  {| name := name o; position := position o; zOffset := zOffset o;
     direction := direction o; sprites := sprites o;
     animationFps := animationFps o;
     animationTimeAccumulator := animationTimeAccumulator o;
     animationFrame := animationFrame o;
     collisionMap := collisionMap o; script := s;
     numExpressions := numExpressions o; expressions := expressions o;
     motionMaster := motionMaster o |}.

(** A character with a script and two expressions. *)
Definition sample_npc : Object :=
  set_expressions
    (set_script
       (set_sprite (plain_object "A" (vec 660 360) (F32.of_Z (-3)))
          DIRECTION_LEFT (sample_AcquireSprite "res/a-left.png"))
       (sample_AcquireScript "res/a.script"))
    2
    ([ {| expr_name := "neutral";
          portrait := sample_AcquireTexture "res/a-neutral.png" |};
       {| expr_name := "angry";
          portrait := sample_AcquireTexture "res/a-angry.png" |} ]
     ++ replicate 8 Expression_zero).

(** The scenario of the specification: the player, the character "A" and a
    wall, in a table of a hundred slots; on disk, a file that is not a scene
    and a scene file of another version. *)
Definition sample_world : World :=
  {| objects :=
       [ set_sprite (plain_object "player" (vec 640 360) F32.zero)
           DIRECTION_DOWN sample_sprite;
         sample_npc;
         sample_wall ]
       ++ replicate 97 Object_zero;
     numObjects := 3;
     lastSavedOrLoadedScene := "res/start.scene";
     files := {[ "notes.txt" := [104; 101; 108; 108; 111];
                 "old.scene" := [75; 69; 75; 87; 1; 0; 0; 0; 0; 0; 0; 0] ]};
     log := [] |}.

(** A table filled to capacity with characters that have all their art:
    eight sprites and ten expressions each. *)
Definition villager : Object :=
  {| name := "villager"; position := vec 100 200; zOffset := F32.zero;
     direction := DIRECTION_DOWN;
     sprites := replicate 8 (sample_AcquireSprite "res/sprites/villager-walk.png");
     animationFps := F32.ten;
     animationTimeAccumulator := F32.zero;
     animationFrame := 0;
     collisionMap := None;
     script := sample_AcquireScript "res/scripts/villager.script";
     numExpressions := 10;
     expressions :=
       replicate 10
         {| expr_name := "neutral";
            portrait := sample_AcquireTexture "res/portraits/villager-neutral.png" |};
     motionMaster := MotionMaster_default |}.

Definition crowded_world : World :=
  {| objects := replicate 100 villager;
     numObjects := 100;
     lastSavedOrLoadedScene := "";
     files := ∅;
     log := [] |}.

(** What a reader yields and leaves depends on the stream only through the
    bytes that remain in it. *)
Definition natural {A : Type} (c : Reader A) : Prop :=
  forall s1 s2 : BinaryStream,
    remaining s1 = remaining s2 ->
    fst (c s1) = fst (c s2) /\
    remaining (snd (c s1)) = remaining (snd (c s2)).

(** A stream over the given bytes, cursor at their start. *)
Definition stream_of (bytes : list byte) : BinaryStream :=
  {| buffer := bytes; size := length bytes; cursor := 0 |}.

(** ** Proof automation *)

(** Case analysis on the comparisons that [SFcompare] makes. *)
Ltac order_cases :=
  repeat match goal with
    | |- context [Z.compare ?a ?b] => destruct (Z.compare_spec a b)
    | |- context [Pos.compare_cont Eq ?a ?b] =>
        change (Pos.compare_cont Eq a b) with (Pos.compare a b);
        destruct (Pos.compare_spec a b)
    end;
  simpl.

(** Case analysis on the integer tests of a goal. *)
Ltac test_cases :=
  repeat match goal with
         | |- context [?a >=? ?b] => destruct (Z.geb_spec a b)
         | |- context [?a <? ?b] => destruct (Z.ltb_spec a b)
         end.

(** ** Looking objects and portraits up *)

Section Lookup.

(** [StringsEqualNocase] is declared in the header that is not among the
    sources: a parameter. *)
Variable StringsEqualNocase : string -> string -> bool.

(** The loop of [FindObjectByName] over the slots from index [i] on. *)
Fixpoint FindObjectByName_from (i : nat) (slots : list Object) (sought : string)
  : option nat :=
  match slots with
  | [] => None
  | object :: rest =>
      if StringsEqualNocase (name object) sought then Some i
      else FindObjectByName_from (S i) rest sought
  end.

(** The pointer [&objects[i]] is the index [i], NULL is [None].  The loop
    runs over the first [numObjects] slots of the table. *)
Definition FindObjectByName (objects : list Object) (numObjects : Z)
  (sought : string) : option nat :=
  FindObjectByName_from 0 (take (Z.to_nat numObjects) objects) sought.

(** [*expression.portrait]: the texture behind the handle.  The source
    dereferences the pointer whatever it is; a NULL portrait is a fault,
    [None] here. *)
Definition portrait_texture (expression : Expression) : option Texture :=
  asset_data <$> portrait expression.

(** The loop of [GetCharacterPortrait] over the expressions it is given. *)
Fixpoint GetCharacterPortrait_scan (named : list Expression) (sought : string)
  : option Expression :=
  match named with
  | [] => None
  | expression :: rest =>
      if StringsEqualNocase (expr_name expression) sought then Some expression
      else GetCharacterPortrait_scan rest sought
  end.

Definition GetCharacterPortrait (object : Object) (sought : string)
  : option Texture :=
  match GetCharacterPortrait_scan
          (take (Z.to_nat (numExpressions object)) (expressions object)) sought
  with
  | Some expression => portrait_texture expression
  | None =>
      portrait_texture (default Expression_zero (expressions object !! 0%nat))
  end.

End Lookup.

(** ** Feet, distances and outlines *)

Definition Y_SQUISH : float := F32.half.

(** [object->field = value] for the fields the update code assigns. *)
Definition set_position (o : Object) (p : Vector2) : Object :=
  {| name := name o; position := p; zOffset := zOffset o;
     direction := direction o; sprites := sprites o;
     animationFps := animationFps o;
     animationTimeAccumulator := animationTimeAccumulator o;
     animationFrame := animationFrame o;
     collisionMap := collisionMap o; script := script o;
     numExpressions := numExpressions o; expressions := expressions o;
     motionMaster := motionMaster o |}.

Definition set_direction (o : Object) (d : Direction) : Object :=
  {| name := name o; position := position o; zOffset := zOffset o;
     direction := d; sprites := sprites o;
     animationFps := animationFps o;
     animationTimeAccumulator := animationTimeAccumulator o;
     animationFrame := animationFrame o;
     collisionMap := collisionMap o; script := script o;
     numExpressions := numExpressions o; expressions := expressions o;
     motionMaster := motionMaster o |}.

Definition set_animation (o : Object) (accumulator : float) (frame : Z)
  : Object :=
  {| name := name o; position := position o; zOffset := zOffset o;
     direction := direction o; sprites := sprites o;
     animationFps := animationFps o;
     animationTimeAccumulator := accumulator;
     animationFrame := frame;
     collisionMap := collisionMap o; script := script o;
     numExpressions := numExpressions o; expressions := expressions o;
     motionMaster := motionMaster o |}.

Definition set_motionMaster (o : Object) (m : MotionMaster) : Object :=
  {| name := name o; position := position o; zOffset := zOffset o;
     direction := direction o; sprites := sprites o;
     animationFps := animationFps o;
     animationTimeAccumulator := animationTimeAccumulator o;
     animationFrame := animationFrame o;
     collisionMap := collisionMap o; script := script o;
     numExpressions := numExpressions o; expressions := expressions o;
     motionMaster := m |}.

Section Geometry.

Variable MirrorDirectionVertically : Direction -> Direction.
Variable CheckCollisionPointRec : Vector2 -> Rectangle -> bool.

Definition GetFootPositionInWorldSpace (object : Object) : Vector2 :=
  let position := GetFootPositionInScreenSpace MirrorDirectionVertically object in
  mkVector2 (x position) (y position *f Y_SQUISH).

Definition DistanceBetween (a b : Object) : float :=
  let positionA := GetFootPositionInWorldSpace a in
  let positionB := GetFootPositionInWorldSpace b in
  Vector2Distance positionA positionB.

Definition GetOutline (object : Object) : Rectangle :=
  match GetCurrentTexture MirrorDirectionVertically object with
  | None => mkRectangle F32.zero F32.zero F32.zero F32.zero
  | Some texture =>
      mkRectangle
        (x (position object) -f F32.half *f F32.of_Z (tex_width texture))
        (y (position object) -f F32.half *f F32.of_Z (tex_height texture))
        (F32.of_Z (tex_width texture))
        (F32.of_Z (tex_height texture))
  end.

(** The loop over the z-sorted pointers stops at the first object whose
    outline holds the point. *)
Definition FindObjectAtPosition (objects : list Object) (numObjects : Z)
  (point : Vector2) : option nat :=
  find (fun pointer =>
          CheckCollisionPointRec point (GetOutline (deref objects pointer)))
       (GetZSortedObjects MirrorDirectionVertically objects numObjects).

End Geometry.

(** ** The per-frame update of an object *)

(** What a piece of code that can fault or loop comes to: it returns, it
    faults (a NULL pointer dereferenced, an integer division by zero), or it
    is still running when the iteration bound of the model is used up. *)
Inductive Outcome (A : Type) :=
| Done (a : A)
| Crash
| OutOfFuel.
Arguments Done {A} _.
Arguments Crash {A}.
Arguments OutOfFuel {A}.

Definition and_then {A B : Type} (c : Outcome A) (k : A -> Outcome B)
  : Outcome B :=
  match c with
  | Done a => k a
  | Crash => Crash
  | OutOfFuel => OutOfFuel
  end.

(** [int] addition as the machine does it, wrapping around. *)
Definition wrap_int (z : Z) : Z := (z + 2 ^ 31) mod 2 ^ 32 - 2 ^ 31.

(** [a % b] on [int]: the remainder of the division that truncates toward
    zero; a fault for a zero divisor and for [INT_MIN % -1]. *)
Definition int_rem (a b : Z) : option Z :=
  if b =? 0 then None
  else if (a =? F32.INT_MIN) && (b =? -1) then None
  else Some (Z.rem a b).

(** The animation loop
    [while (accumulator > frameTime) { accumulator -= frameTime;
       frame = (frame + 1) % numFrames; }], at most [fuel] iterations. *)
Fixpoint animate (fuel : nat) (animationFrameTime : float) (frameCount : Z)
  (accumulator : float) (frame : Z) : Outcome (float * Z) :=
  if F32.gtb accumulator animationFrameTime then
    match fuel with
    | O => OutOfFuel
    | S fuel =>
        match int_rem (wrap_int (frame + 1)) frameCount with
        | None => Crash
        | Some next =>
            animate fuel animationFrameTime frameCount
              (accumulator -f animationFrameTime) next
        end
    end
  else Done (accumulator, frame).

(** [MotionMaster::GetDirection]. *)
Definition GetDirection (Vector2Normalize : Vector2 -> Vector2)
  (m : MotionMaster) : Vector2 :=
  let subtract := Vector2Subtract (endPoint m) (startPoint m) in
  let subtract := mkVector2 (x subtract) (F32.neg (y subtract)) in
  Vector2Normalize subtract.

Section ObjectUpdate.

Variable FRAME_TIME : float.
Variable Vector2_eq : Vector2 -> Vector2 -> bool.
Variable MirrorDirectionVertically : Direction -> Direction.

(** [Vector2Normalize] belongs to the maths library, and the game file of
    this iteration takes [DirectionFromVector] from the header: parameters. *)
Variable Vector2Normalize : Vector2 -> Vector2.
Variable DirectionFromVector : Vector2 -> Direction.

(** The sprite half of [Update] on an object. *)
Definition Update_sprite (fuel : nat) (object : Object) : Outcome Object :=
  match GetCurrentSprite MirrorDirectionVertically object with
  | Some sprite =>
      let animationFrameTime := F32.of_Z 1 /f animationFps object in
      and_then
        (animate fuel animationFrameTime (numFrames (asset_data sprite))
           (animationTimeAccumulator object +f FRAME_TIME)
           (animationFrame object))
        (fun '(accumulator, frame) =>
           Done (set_animation object accumulator frame))
  | None => Done object
  end.

(** The motion half of [Update] on an object. *)
Definition Update_motion (object : Object) : Object :=
  let object :=
    set_motionMaster object (Update FRAME_TIME (motionMaster object)) in
  if isMoving (motionMaster object) then
    let object := set_position object (currentPoint (motionMaster object)) in
    let dirVector := GetDirection Vector2Normalize (motionMaster object) in
    set_direction object (DirectionFromVector dirVector)
  else object.

(** [Update] on an object; the plain name is the motion controller's. *)
Definition Update_Object (fuel : nat) (object : Object) : Outcome Object :=
  and_then (Update_sprite fuel object) (fun object => Done (Update_motion object)).

(** [MoveToPoint] on an object: the point is relative to where the object
    stands. *)
Definition MoveToPoint_Object (object : Object) (point : Vector2) : Object :=
  let finish := Vector2Add (position object) point in
  set_motionMaster object
    (MoveToPoint Vector2_eq (motionMaster object) (position object) finish).

End ObjectUpdate.

(** ** Console commands *)

Section Commands.

Variable FRAME_TIME : float.
Variable Vector2_eq : Vector2 -> Vector2 -> bool.

(** The argument parsers of the console (not in the sources): parameters,
    [None] when [success] is cleared. *)
Variable ParseCommandFloatArg : string -> option float.
Variable ParseCommandBoolArg : string -> option bool.

(** [player] is [&objects[0]]. *)
Definition HandlePlayerTeleportCommand (args : list string)
  (objects : list Object) : bool * list Object :=
  if (length args <? 2)%nat || (2 <? length args)%nat then (false, objects)
  else
    match ParseCommandFloatArg (default EmptyString (args !! 0%nat)),
          ParseCommandFloatArg (default EmptyString (args !! 1%nat)) with
    | Some px, Some py =>
        (true, <[0%nat := set_position (deref objects 0) (mkVector2 px py)]> objects)
    | _, _ => (false, objects)
    end.

Definition HandleToggleDevModeCommand (args : list string) (devMode : bool)
  : bool * bool :=
  match args with
  | [] => (true, negb devMode)
  | arg :: _ =>
      match ParseCommandBoolArg arg with
      | Some value => (true, value)
      | None => (false, devMode)
      end
  end.

Definition HandleMoveTo (args : list string) (objects : list Object)
  : bool * list Object :=
  if negb (length args =? 2)%nat then (false, objects)
  else
    match ParseCommandFloatArg (default EmptyString (args !! 0%nat)),
          ParseCommandFloatArg (default EmptyString (args !! 1%nat)) with
    | Some px, Some py =>
        (true,
         <[0%nat := MoveToPoint_Object Vector2_eq (deref objects 0)
                      (mkVector2 px py)]> objects)
    | _, _ => (false, objects)
    end.

End Commands.

Section SceneCommands.

Variable AcquireScript : string -> Handle Script.
Variable AcquireCollisionMap : string -> Handle Image.
Variable AcquireSprite : string -> Handle Sprite.
Variable AcquireTexture : string -> Handle Texture.
Variable writable : string -> bool.

(** The path a [save] or [load] command works on: its argument, or the
    scene saved or loaded last. *)
Definition command_path (args : list string) (w : World) : string :=
  match args with
  | [path] => path
  | _ => lastSavedOrLoadedScene w
  end.

Definition HandleSaveCommand (args : list string) (w : World) : bool * World :=
  if (1 <? length args)%nat then (false, w)
  else (true, SaveScene writable w (command_path args w)).

Definition HandleLoadCommand (args : list string) (w : World) : bool * World :=
  if (1 <? length args)%nat then (false, w)
  else
    (true,
     LoadScene AcquireScript AcquireCollisionMap AcquireSprite AcquireTexture
       w (command_path args w)).

End SceneCommands.

(** ** The Playing and Paused states *)

Record InputButton := mkInputButton { wasPressed : bool; isDown : bool }.

Record InputAxis := mkInputAxis { axis_position : Vector2 }.

Record Input := mkInput
  { movement : InputAxis;
    interact : InputButton;
    sprint : InputButton;
    pause : InputButton;
    console : InputButton }.

Record Camera2D := mkCamera2D
  { offset : Vector2; target : Vector2; rotation : float; zoom : float }.

(** The globals [Playing_Update] works on. *)
Record Game := mkGame
  { game_objects : list Object;
    game_numObjects : Z;
    camera : Camera2D;
    cameraShake : CameraShake;
    cameraOffset : Vector2;
    cameraOffsetFactor : float;
    cameraAcceleration : float }.

(** [PushGameState] belongs to the header that is not among the sources:
    what [Playing_Update] yields beside the globals is the call it makes to
    it, if any, with the state and the parameter (an object pointer, or
    NULL) it passes. *)
Record Push := mkPush { pushed : GameState; param : option nat }.

Definition fifty : float := Eval cbv in F32.of_Z 50.
Definition five : float := Eval cbv in F32.of_Z 5.
Definition two_tenths : float := Eval cbv in F32.of_Z 2 /f F32.of_Z 10.
Definition eight_tenths : float := Eval cbv in F32.of_Z 8 /f F32.of_Z 10.
Definition WINDOW_WIDTH : Z := 1280.
Definition WINDOW_HEIGHT : Z := 720.
Definition WINDOW_CENTER_X : float := F32.half *f F32.of_Z WINDOW_WIDTH.
Definition WINDOW_CENTER_Y : float := F32.half *f F32.of_Z WINDOW_HEIGHT.

Section States.

Variable FRAME_TIME : float.
Variable MirrorDirectionVertically : Direction -> Direction.
Variable CheckCollisionPointRec : Vector2 -> Rectangle -> bool.
Variable GetImageColor : Image -> Z -> Z -> Color.

(** The maths helpers of the library and the header ([Vector2_times] is
    the header's [operator*] of a float and a vector), and the developer
    sliders of the immediate-mode GUI (label, value, bounds; the value the
    user leaves): parameters. *)
Variable Vector2Length : Vector2 -> float.
Variable Vector2Normalize : Vector2 -> Vector2.
Variable Vector2Scale : Vector2 -> float -> Vector2.
Variable Vector2Lerp : Vector2 -> Vector2 -> float -> Vector2.
Variable Clamp01 : float -> float.
Variable Remap : float -> float -> float -> float -> float -> float.
Variable Vector2_times : float -> Vector2 -> Vector2.
Variable DirectionFromVector : Vector2 -> Direction.
Variable SliderFloat : string -> float -> float -> float -> float.

(** The test the interact branch makes on an object: it has a script and
    stands less than 50 away from the player. *)
Definition can_talk_to (player object : Object) : bool :=
  match script object with
  | None => false
  | Some _ =>
      F32.ltb (DistanceBetween MirrorDirectionVertically player object) fifty
  end.

(** The loop of the interact branch over the slots from index [i] on: the
    first object that has a script and stands less than 50 away from the
    player. *)
Fixpoint Playing_talk_target (player : Object) (i : nat) (slots : list Object)
  : option nat :=
  match slots with
  | [] => None
  | object :: rest =>
      match script object with
      | None => Playing_talk_target player (S i) rest
      | Some _ =>
          if F32.ltb (DistanceBetween MirrorDirectionVertically player object)
                     fifty
          then Some i
          else Playing_talk_target player (S i) rest
      end
  end.

(** The movement of the player by the stick, which yields the table and the
    player's velocity. *)
Definition Playing_move (input : Input) (g : Game)
  : Outcome (list Object * Vector2) :=
  let moveSpeed := if isDown (sprint input) then F32.ten else five in
  let move := axis_position (movement input) in
  let magnitude := Vector2Length move in
  if F32.gtb magnitude two_tenths then
    let move := Vector2Normalize move in
    let magnitude :=
      Clamp01 (Remap magnitude two_tenths eight_tenths F32.zero (F32.of_Z 1)) in
    let move := mkVector2 (x move *f magnitude) (y move *f (magnitude *f Y_SQUISH)) in
    let dirVector := mkVector2 (x move) (y move *f F32.of_Z (-1)) in
    let player := set_direction (deref (game_objects g) 0) (DirectionFromVector dirVector) in
    let objects := <[0%nat := player]> (game_objects g) in
    let deltaPos := Vector2Scale move moveSpeed in
    match GetCurrentTexture MirrorDirectionVertically player with
    | None => Crash
    | Some texture =>
        let feetPos :=
          mkVector2 (x (position player))
            (y (position player) +f F32.half *f F32.of_Z (tex_height texture)) in
        let newFeetPos :=
          MovePointWithCollisions CheckCollisionPointRec GetImageColor
            objects (game_numObjects g) feetPos deltaPos in
        let player :=
          set_position player
            (Vector2Add (position player) (Vector2Subtract newFeetPos feetPos)) in
        Done (<[0%nat := player]> objects, deltaPos)
    end
  else Done (game_objects g, mkVector2 F32.zero F32.zero).

(** [for (i < numObjects) Update(&objects[i])]. *)
Fixpoint Update_all (fuel : nat) (indices : list nat) (objects : list Object)
  : Outcome (list Object) :=
  match indices with
  | [] => Done objects
  | i :: rest =>
      and_then
        (Update_Object FRAME_TIME MirrorDirectionVertically Vector2Normalize
           DirectionFromVector fuel (deref objects i))
        (fun object => Update_all fuel rest (<[i := object]> objects))
  end.

Definition Playing_Update (fuel : nat) (input : Input) (g : Game)
  : Outcome (Game * option Push) :=
  if wasPressed (console input)
  then Done (g, Some {| pushed := GAMESTATE_EDITOR; param := None |})
  else if wasPressed (pause input)
  then Done (g, Some {| pushed := GAMESTATE_PAUSED; param := None |})
  else
    match
      (if wasPressed (interact input)
       then Playing_talk_target (deref (game_objects g) 0) 0
              (take (Z.to_nat (game_numObjects g)) (game_objects g))
       else None)
    with
    | Some pointer =>
        Done (g, Some {| pushed := GAMESTATE_TALKING; param := Some pointer |})
    | None =>
        and_then (Playing_move input g) (fun '(objects, playerVelocity) =>
        and_then
          (Update_all fuel (seq 0 (Z.to_nat (game_numObjects g))) objects)
          (fun objects =>
        let targetCameraOffset := Vector2_times (cameraOffsetFactor g) playerVelocity in
        let cameraOffset' :=
          Vector2Lerp (cameraOffset g) targetCameraOffset (cameraAcceleration g) in
        let camera' :=
          {| offset := mkVector2 WINDOW_CENTER_X WINDOW_CENTER_Y;
             target := Vector2Add (position (deref objects 0)) cameraOffset';
             rotation := rotation (camera g);
             zoom := F32.of_Z 1 |} in
        let shake' := UpdateCameraShake FRAME_TIME (cameraShake g) in
        Done
          ({| game_objects := objects;
              game_numObjects := game_numObjects g;
              camera := camera';
              cameraShake :=
                {| cameraTrauma :=
                     SliderFloat "trauma" (cameraTrauma shake') F32.zero (F32.of_Z 1);
                   cameraTraumaFalloff := cameraTraumaFalloff shake' |};
              cameraOffset := cameraOffset';
              cameraOffsetFactor :=
                SliderFloat "offset" (cameraOffsetFactor g) F32.ten fifty;
              cameraAcceleration :=
                SliderFloat "acceleration" (cameraAcceleration g) F32.zero
                  two_tenths |},
           None)))
    end.

(** [Paused_Update]: the pause button leaves the state. *)
Definition Paused_Update (input : Input) (stack : list StackEntry)
  : list StackEntry :=
  if wasPressed (pause input) then PopGameState stack else stack.

End States.

(** ** Earlier iterations of the game file *)

Section Earlier.

Variable GetImageColor : Image -> Z -> Z -> Color.

(** [MovePointWithCollisions] of the iteration with one global collision
    map: the overload of [CheckCollisionMap] that takes the coordinates apart
    decides. *)
Definition MovePointWithCollisions_map (collisionMap : Image)
  (position velocity : Vector2) : Vector2 :=
  let newPosition := Vector2Add position velocity in
  if negb (CheckCollisionMap_xy GetImageColor collisionMap
             (x newPosition) (y newPosition))
  then newPosition
  else position.

End Earlier.

(** ** The sprite manager of an earlier iteration *)

(** [STRUCT(Sprite)] of that iteration: a list of textures, NULL until the
    first texture is added. *)
Record TextureList := mkTextureList { textures : option (list Texture) }.

Record SpriteManager := mkSpriteManager
  { _spriteIndex : Z;
    _index : Z;
    _animationTime : float;
    _animationLength : Z;
    _speed : float;
    manager_sprites : option (list TextureList) }.

Section SpriteManager.

Variable FRAME_TIME : float.

(** [SpriteManager::Update].  Reading [sprites[_spriteIndex]] outside the
    list is undefined behaviour in the source: a fault here. *)
Definition SpriteManager_Update (m : SpriteManager) : Outcome SpriteManager :=
  match manager_sprites m with
  | None => Done m
  | Some sprites =>
      match array_get sprites (_spriteIndex m) with
      | None => Crash
      | Some sprite =>
          match textures sprite with
          | None => Done m
          | Some frames =>
              if Z.of_nat (length frames) =? 1 then
                Done {| _spriteIndex := _spriteIndex m;
                        _index := 0;
                        _animationTime := _animationTime m;
                        _animationLength := _animationLength m;
                        _speed := _speed m;
                        manager_sprites := manager_sprites m |}
              else
                let animationLength := Z.of_nat (length frames) in
                match int_rem (float_to_int (_animationTime m)) animationLength with
                | None => Crash
                | Some index =>
                    let animationTime := _animationTime m +f _speed m *f FRAME_TIME in
                    Done {| _spriteIndex := _spriteIndex m;
                            _index := index;
                            _animationTime :=
                              if F32.geb animationTime (F32.of_Z animationLength)
                              then F32.zero else animationTime;
                            _animationLength := animationLength;
                            _speed := _speed m;
                            manager_sprites := manager_sprites m |}
                end
          end
      end
  end.

End SpriteManager.

(** ** Reference instances and sample data for the update code *)

(** A stand-in for [DirectionFromVector] where the direction computed is of
    no account. *)
Definition facing_right (v : Vector2) : Direction := DIRECTION_RIGHT.

(** [Vector2Normalize] as the maths library has it: the vector scaled by
    the inverse of its length, when the length is above zero. *)
Definition sample_Vector2Normalize (v : Vector2) : Vector2 :=
  let length := F32.sqrt (x v *f x v +f y v *f y v) in
  if F32.gtb length F32.zero then
    let ilength := F32.of_Z 1 /f length in
    mkVector2 (x v *f ilength) (y v *f ilength)
  else v.

Definition set_animationFps (o : Object) (fps : float) : Object :=
  {| name := name o; position := position o; zOffset := zOffset o;
     direction := direction o; sprites := sprites o;
     animationFps := fps;
     animationTimeAccumulator := animationTimeAccumulator o;
     animationFrame := animationFrame o;
     collisionMap := collisionMap o; script := script o;
     numExpressions := numExpressions o; expressions := expressions o;
     motionMaster := motionMaster o |}.

(** A walk cycle of four frames. *)
Definition walk_cycle : Handle Sprite :=
  Some {| asset_path := "res/walk";
          asset_data :=
            {| numFrames := 4;
               frames := replicate 4 {| tex_width := 50; tex_height := 90 |} |} |}.

(** A walker at (3, 4), animated at ten frames a second, on its way to
    (30, 40): one second into a motion that takes five. *)
Definition walker : Object :=
  set_motionMaster
    (set_sprite (plain_object "walker" (vec 3 4) F32.zero) DIRECTION_DOWN walk_cycle)
    sample_motion.

(** The walker on the last frame of its way: the next step passes the
    arrival time. *)
Definition arriving_walker : Object :=
  set_motionMaster walker
    (set_motionTime (motionMaster walker) (F32.of_Z 5)).

(** ** What [LoadScene] checks of a file *)

(** The first four bytes are the magic and the four that follow hold the
    current version. *)
Definition scene_header_ok (content : list byte) : bool :=
  bool_decide (take 4 content = SCENE_MAGIC)
  && (bytes_to_int (take 4 (drop 4 content)) =? SCENE_VERSION).

(** A scene file that announces one object and ends there, and the sample
    world with that file on its disk. *)
Definition cut_scene : list byte := [75; 69; 75; 87; 2; 0; 0; 0; 1; 0; 0; 0].

Definition world_with_cut_scene : World :=
  {| objects := objects sample_world;
     numObjects := numObjects sample_world;
     lastSavedOrLoadedScene := lastSavedOrLoadedScene sample_world;
     files := {[ "cut.scene" := cut_scene ]};
     log := [] |}.

(** ** Sample input *)

Definition released : InputButton := {| wasPressed := false; isDown := false |}.
Definition pressed : InputButton := {| wasPressed := true; isDown := true |}.

Definition idle_input : Input :=
  {| movement := {| axis_position := Vector2Zero |};
     interact := released; sprint := released;
     pause := released; console := released |}.

Definition press_pause : Input :=
  {| movement := {| axis_position := Vector2Zero |};
     interact := released; sprint := released;
     pause := pressed; console := released |}.

(** The pause button in what [Talking_Update] reads of the input. *)
Definition talking_pause : TalkingInput :=
  {| pause_wasPressed := true; interact_wasPressed := false;
     key_left_pressed := false; key_right_pressed := false |}.

(** ** Reference instances of the maths helpers, and a sample game *)

Definition sample_Vector2Length (v : Vector2) : float :=
  F32.sqrt (x v *f x v +f y v *f y v).

Definition sample_Vector2Scale (v : Vector2) (scale : float) : Vector2 :=
  mkVector2 (x v *f scale) (y v *f scale).

Definition sample_Vector2_times (scale : float) (v : Vector2) : Vector2 :=
  mkVector2 (scale *f x v) (scale *f y v).

Definition sample_Vector2Lerp (v1 v2 : Vector2) (amount : float) : Vector2 :=
  mkVector2 (Lerp (x v1) (x v2) amount) (Lerp (y v1) (y v2) amount).

Definition sample_Clamp01 (f : float) : float :=
  if F32.ltb f F32.zero then F32.zero
  else if F32.gtb f (F32.of_Z 1) then F32.of_Z 1
  else f.

Definition sample_Remap (value inputStart inputEnd outputStart outputEnd : float)
  : float :=
  (value -f inputStart) /f (inputEnd -f inputStart) *f (outputEnd -f outputStart)
  +f outputStart.

(** Sliders that the user leaves alone. *)
Definition sample_SliderFloat (label : string) (value lo hi : float) : float :=
  value.

(** The sample world as the Playing state has it, camera at rest. *)
Definition sample_game : Game :=
  {| game_objects := objects sample_world;
     game_numObjects := numObjects sample_world;
     camera := {| offset := Vector2Zero; target := Vector2Zero;
                  rotation := F32.zero; zoom := F32.of_Z 1 |};
     cameraShake := shake_at_rest;
     cameraOffset := Vector2Zero;
     cameraOffsetFactor := F32.of_Z 25;
     cameraAcceleration := F32.of_scaled 3 (-7) |}.

Definition press_interact_button : Input :=
  {| movement := {| axis_position := Vector2Zero |};
     interact := pressed; sprint := released;
     pause := released; console := released |}.

(** ** Classes of binary32 numbers *)

(** A number that is neither NaN nor an infinity. *)
Definition is_finite (f : float) : bool :=
  match f with
  | S754_zero _ | S754_finite _ _ _ => true
  | _ => false
  end.

(** The float with the sign [s] and the magnitude of [f]. *)
Definition with_sign (s : bool) (f : float) : float :=
  match f with
  | S754_zero _ => S754_zero s
  | S754_infinity _ => S754_infinity s
  | S754_finite _ m e => S754_finite s m e
  | S754_nan => S754_nan
  end.

(** A manager with one sprite of three frames, a second and a half into
    its animation at one frame a second. *)
Definition sample_manager : SpriteManager :=
  {| _spriteIndex := 0; _index := 0;
     _animationTime := F32.of_scaled 3 (-1);
     _animationLength := 0;
     _speed := F32.of_Z 1;
     manager_sprites :=
       Some [ {| textures :=
                   Some (replicate 3 {| tex_width := 50; tex_height := 90 |}) |} ] |}.

(** ** Rendering *)

(** The two drawing calls of [Render] on an object: the texture and the point
    its centre goes to (the tint is WHITE in both). *)
Inductive DrawCall :=
| DrawTextureCentered (texture : Texture) (centre : Vector2)
| DrawTextureCenteredAndFlippedVertically (texture : Texture) (centre : Vector2).

(** What [Playing_Render] hands to the graphics library: the camera given to
    [BeginMode2D] and the drawing calls in the order they are made. *)
Record Frame := mkFrame { shakyCam : Camera2D; draws : list DrawCall }.

Section Rendering.

Variable MirrorDirectionVertically : Direction -> Direction.

(** [Render] on an object.  The current sprite is the pointer
    [sprites[direction]] exactly when that slot is not NULL, which is what the
    pointer comparison of the source tests. *)
Definition Render (object : Object) : option DrawCall :=
  match GetCurrentSprite MirrorDirectionVertically object with
  | None => None
  | Some sprite =>
      let frame :=
        default (mkTexture 0 0)
          (array_get (frames (asset_data sprite)) (animationFrame object)) in
      match default None (array_get (sprites object) (direction object)) with
      | Some _ => Some (DrawTextureCentered frame (position object))
      | None =>
          Some (DrawTextureCenteredAndFlippedVertically frame (position object))
      end
  end.

(** [Clamp01], [PerlinNoise1], the clock and the two angle constants of raylib
    are not among the sources: parameters ([GetTime] is the clock already
    converted to float). *)
Variable Clamp01 : float -> float.
Variable PerlinNoise1 : Z -> float -> float.
Variable GetTime : float.
Variable DEG2RAD RAD2DEG : float.

Definition MAX_SHAKE_ROTATION : float := five *f DEG2RAD.
Definition MAX_SHAKE_TRANSLATION : float := fifty.

(** The loop of [Playing_Render]: [Render] on [sorted[i]] from the last index
    down to 0. *)
Definition Render_back_to_front (objects : list Object) (sorted : list nat)
  : list DrawCall :=
  omap (fun pointer => Render (deref objects pointer)) (rev sorted).

Definition Playing_Render (g : Game) : Frame :=
  let shake := Clamp01 (cameraTrauma (cameraShake g)) in
  let shake := shake *f shake in
  let shakyTime := F32.of_Z 100 *f GetTime in
  let cam := camera g in
  let cam :=
    {| offset := offset cam; target := target cam;
       rotation := rotation cam
                   +f MAX_SHAKE_ROTATION *f RAD2DEG *f shake
                      *f PerlinNoise1 0 shakyTime;
       zoom := zoom cam |} in
  let cam :=
    {| offset := mkVector2
                   (x (offset cam)
                    +f MAX_SHAKE_TRANSLATION *f shake *f PerlinNoise1 1 shakyTime)
                   (y (offset cam));
       target := target cam; rotation := rotation cam; zoom := zoom cam |} in
  let cam :=
    {| offset := mkVector2
                   (x (offset cam))
                   (y (offset cam)
                    +f MAX_SHAKE_TRANSLATION *f shake *f PerlinNoise1 2 shakyTime);
       target := target cam; rotation := rotation cam; zoom := zoom cam |} in
  {| shakyCam := cam;
     draws := Render_back_to_front (game_objects g)
                (GetZSortedObjects MirrorDirectionVertically
                   (game_objects g) (game_numObjects g)) |}.

End Rendering.

(** Stand-ins for the noise function and the two angle constants: a noise that
    is a quarter everywhere, and the binary32 numbers nearest to pi/180 and
    180/pi. *)
Definition sample_PerlinNoise1 (seed : Z) (time : float) : float :=
  F32.of_scaled 1 (-2).
Definition sample_DEG2RAD : float := Eval cbv in F32.of_scaled 9370166 (-29).
Definition sample_RAD2DEG : float := Eval cbv in F32.of_scaled 15019745 (-18).

(** A scene of two painted objects: the player, and a tree that stands
    further up the screen, behind the player. *)
Definition painted_game : Game :=
  {| game_objects :=
       [ set_sprite (plain_object "player" (vec 640 360) F32.zero)
           DIRECTION_DOWN sample_sprite;
         set_sprite (plain_object "tree" (vec 600 300) F32.zero)
           DIRECTION_DOWN sample_sprite ];
     game_numObjects := 2;
     camera := camera sample_game;
     cameraShake := shake_at_rest;
     cameraOffset := Vector2Zero;
     cameraOffsetFactor := F32.of_Z 25;
     cameraAcceleration := F32.of_scaled 3 (-7) |}.

(** ** The asset cache and a scene *)

(** The cache hands back an asset: acquiring the path the asset is saved
    under gives a handle of that path. *)
Definition hands_back {A : Type} (Acquire : string -> Handle A) (path : string)
  : bool :=
  String.eqb (GetAssetPath (Acquire path)) path.

Section CacheOfScene.

Variable AcquireScript : string -> Handle Script.
Variable AcquireCollisionMap : string -> Handle Image.
Variable AcquireSprite : string -> Handle Sprite.
Variable AcquireTexture : string -> Handle Texture.

(** The cache hands back the script, the collision map, the eight sprites and
    the ten portraits of an object. *)
Definition cache_has_object (object : Object) : bool :=
  hands_back AcquireScript (GetAssetPath (script object))
  && hands_back AcquireCollisionMap (GetAssetPath (collisionMap object))
  && forallb (fun dir => hands_back AcquireSprite (sprite_path object dir))
             (seqZ 0 DIRECTION_ENUM_COUNT)
  && forallb (fun j => hands_back AcquireTexture
                         (GetAssetPath (portrait (expression_at object j))))
             (seqZ 0 MAX_EXPRESSIONS).

(** ... and those of every object of the scene. *)
Definition cache_has_scene (w : World) : bool :=
  forallb cache_has_object (take (Z.to_nat (numObjects w)) (objects w)).

End CacheOfScene.

(** The game started anew on the disk of [w]: an empty table of a hundred
    slots. *)
Definition restarted (w : World) : World :=
  {| objects := replicate (Z.to_nat MAX_OBJECTS) Object_zero;
     numObjects := 0;
     lastSavedOrLoadedScene := "";
     files := files w;
     log := [] |}.

(** ** When the animation loop leaves *)

(** The loop of [Update] on an object leaves after [laps] rounds: the
    accumulated time is above the frame time before each of them and not
    after the last. *)
Fixpoint leaves_after (laps : nat) (animationFrameTime accumulator : float)
  : bool :=
  match laps with
  | O => negb (F32.gtb accumulator animationFrameTime)
  | S laps =>
      F32.gtb accumulator animationFrameTime
      && leaves_after laps animationFrameTime (accumulator -f animationFrameTime)
  end.

(** * Properties *)

(** ** MotionMaster *)

Section MotionMasterFacts.

Variable FRAME_TIME : float.
Variable Vector2_eq : Vector2 -> Vector2 -> bool.

Lemma Update_idle (m : MotionMaster) :
  isMoving m = false -> Update FRAME_TIME m = m.
Proof. intros Hidle. unfold Update. now rewrite Hidle. Qed.

(** One frame of a moving controller, with the two branches spelled out. *)
Lemma Update_moving (m : MotionMaster) :
  isMoving m = true ->
  let elapsed := motionTime m +f FRAME_TIME *f speed m in
  Update FRAME_TIME m =
    if F32.leb elapsed (arrivalTime m) then
      {| currentPoint :=
           mkVector2
             (Lerp (x (startPoint m)) (x (endPoint m)) (elapsed /f arrivalTime m))
             (Lerp (y (startPoint m)) (y (endPoint m)) (elapsed /f arrivalTime m));
         isMoving := true;
         startPoint := startPoint m;
         endPoint := endPoint m;
         motionTime := elapsed;
         arrivalTime := arrivalTime m;
         speed := speed m |}
    else
      {| currentPoint := endPoint m;
         isMoving := false;
         startPoint := Vector2Zero;
         endPoint := Vector2Zero;
         motionTime := F32.zero;
         arrivalTime := F32.zero;
         speed := F32.ten |}.
Proof.
  intros Hmoving elapsed. unfold Update. rewrite Hmoving. simpl.
  fold elapsed. destruct (F32.leb elapsed (arrivalTime m)).
  - unfold set_currentPoint, set_motionTime. simpl. now rewrite Hmoving.
  - reflexivity.
Qed.

(** While the controller is still moving, no frame has touched the segment,
    the arrival time or the speed the motion was set up with. *)
Lemma Update_frames_keeps_motion (m : MotionMaster) (n : nat) :
  isMoving (Update_frames FRAME_TIME n m) = true ->
  isMoving m = true /\
  startPoint (Update_frames FRAME_TIME n m) = startPoint m /\
  endPoint (Update_frames FRAME_TIME n m) = endPoint m /\
  arrivalTime (Update_frames FRAME_TIME n m) = arrivalTime m /\
  speed (Update_frames FRAME_TIME n m) = speed m.
Proof.
  induction n as [|n IH]; simpl.
  - intros Hm. repeat split; assumption.
  - destruct (isMoving (Update_frames FRAME_TIME n m)) eqn:Hprev.
    + rewrite (Update_moving _ Hprev).
      destruct (F32.leb _ _); simpl; [|discriminate].
      intros _. apply IH. reflexivity.
    + rewrite (Update_idle _ Hprev), Hprev. discriminate.
Qed.

(** C7: after [MoveToPoint(p, q)] with [p != q] the controller is moving
    from [p] to [q] with arrival time distance / speed.  On every later frame
    on which it is still moving, [Update] adds [FRAME_TIME * speed] to the
    elapsed time; if the sum is at most the arrival time it is stored and the
    current point becomes the interpolation of [p] and [q] by elapsed /
    arrival, and otherwise the current point becomes [q] exactly, the moving
    flag is cleared and start, end, elapsed time, arrival time and speed go
    back to their defaults (speed 10).  An idle controller is left alone. *)
Theorem Update_after_MoveToPoint (m : MotionMaster) (p q : Vector2) :
  Vector2_eq p q = false ->
  let m0 := MoveToPoint Vector2_eq m p q in
  (isMoving m0 = true /\ startPoint m0 = p /\ endPoint m0 = q /\
   arrivalTime m0 = Vector2Distance p q /f speed m /\
   speed MotionMaster_default = F32.ten) /\
  forall n : nat,
    let s := Update_frames FRAME_TIME n m0 in
    (isMoving s = false -> Update FRAME_TIME s = s) /\
    (isMoving s = true ->
     let elapsed := motionTime s +f FRAME_TIME *f speed s in
     arrivalTime s = Vector2Distance p q /f speed m /\
     Update FRAME_TIME s =
       if F32.leb elapsed (arrivalTime s) then
         {| currentPoint :=
              mkVector2 (Lerp (x p) (x q) (elapsed /f arrivalTime s))
                        (Lerp (y p) (y q) (elapsed /f arrivalTime s));
            isMoving := true;
            startPoint := p;
            endPoint := q;
            motionTime := elapsed;
            arrivalTime := arrivalTime s;
            speed := speed s |}
       else
         {| currentPoint := q;
            isMoving := false;
            startPoint := Vector2Zero;
            endPoint := Vector2Zero;
            motionTime := motionTime MotionMaster_default;
            arrivalTime := arrivalTime MotionMaster_default;
            speed := speed MotionMaster_default |}).
Proof.
  intros Hne m0.
  assert (Hm0 : m0 =
    {| currentPoint := currentPoint m; isMoving := true;
       startPoint := p; endPoint := q; motionTime := motionTime m;
       arrivalTime := Vector2Distance p q /f speed m; speed := speed m |}).
  { unfold m0, MoveToPoint. now rewrite Hne. }
  split.
  - rewrite Hm0. simpl. repeat split; reflexivity.
  - intros n s. split.
    + apply Update_idle.
    + intros Hmoving elapsed.
      destruct (Update_frames_keeps_motion m0 n Hmoving)
        as (_ & Hstart & Hend & Harrival & _).
      fold s in Hstart, Hend, Harrival.
      assert (Hp : startPoint s = p) by (rewrite Hstart, Hm0; reflexivity).
      assert (Hq : endPoint s = q) by (rewrite Hend, Hm0; reflexivity).
      split.
      * rewrite Harrival, Hm0. reflexivity.
      * rewrite (Update_moving s Hmoving). fold elapsed.
        rewrite Hp, Hq. reflexivity.
Qed.

(** C8, amended: when the point handed to [MoveToPoint] as start and as end
    compares equal to itself under [operator==] (as every point without a
    NaN coordinate does), no field of the controller changes: start point,
    end point, arrival time, elapsed time, speed, current point and the
    moving flag stay as they were. *)
Theorem MoveToPoint_same_point (m : MotionMaster) (p : Vector2) :
  Vector2_eq p p = true ->
  MoveToPoint Vector2_eq m p p = m.
Proof. intros Hsame. unfold MoveToPoint. now rewrite Hsame. Qed.

End MotionMasterFacts.

Lemma Update_after_MoveToPoint_witness :
  Vector2_eq_ieee (vec 3 4) (vec 30 40) = false /\
  isMoving (MoveToPoint Vector2_eq_ieee MotionMaster_default (vec 3 4) (vec 30 40))
  = true.
Proof.
  split; [reflexivity|].
  exact (proj1 (proj1 (Update_after_MoveToPoint sample_FRAME_TIME
                         Vector2_eq_ieee MotionMaster_default
                         (vec 3 4) (vec 30 40) eq_refl))).
Defined.

Lemma MoveToPoint_same_point_witness :
  Vector2_eq_ieee (vec 3 4) (vec 3 4) = true /\
  MoveToPoint Vector2_eq_ieee sample_motion (vec 3 4) (vec 3 4) = sample_motion.
Proof.
  split; [reflexivity|].
  apply (MoveToPoint_same_point Vector2_eq_ieee sample_motion (vec 3 4)).
  reflexivity.
Defined.

(** C8 as stated fails: under the component-wise IEEE comparison a point
    that carries a NaN is not equal to itself, so [MoveToPoint] with that
    point as start and as end does not return early: it stores the points,
    an arrival time, and sets the moving flag. *)
Lemma MoveToPoint_nan_point :
  Vector2_eq_ieee nan_point nan_point = false /\
  isMoving MotionMaster_default = false /\
  isMoving (MoveToPoint Vector2_eq_ieee MotionMaster_default nan_point nan_point)
  = true /\
  MoveToPoint Vector2_eq_ieee MotionMaster_default nan_point nan_point
  <> MotionMaster_default.
Proof.
  repeat split; try reflexivity.
  intros H. apply (f_equal isMoving) in H. discriminate H.
Qed.

(** A run of the controller: 3-4-5 triangle scaled by nine, speed 10, sixty
    frames a second.  The distance is 45, the arrival time 4.5, each frame
    adds 1/6: the 27th frame is the last interpolated one and the 28th puts
    the controller on the end point and resets it. *)
Example Update_run :
  let m0 := MoveToPoint Vector2_eq_ieee MotionMaster_default (vec 3 4) (vec 30 40) in
  isMoving (Update_frames sample_FRAME_TIME 27 m0) = true /\
  Update_frames sample_FRAME_TIME 28 m0 =
    {| currentPoint := vec 30 40; isMoving := false;
       startPoint := Vector2Zero; endPoint := Vector2Zero;
       motionTime := F32.zero; arrivalTime := F32.zero; speed := F32.ten |}.
Proof. vm_compute. split; reflexivity. Qed.

(** ** Collision *)

Lemma floor_to_int_floor (f : float) (z : Z) :
  F32.floor f = Some z -> F32.INT_MIN <= z <= F32.INT_MAX ->
  F32.floor_to_int f = z.
Proof.
  intros Hfloor [Hlo Hhi]. unfold F32.floor_to_int. rewrite Hfloor.
  destruct (Z.leb_spec F32.INT_MIN z); [|lia].
  destruct (Z.leb_spec z F32.INT_MAX); [|lia].
  reflexivity.
Qed.

(** Whatever the float, a non-negative [(int)floorf(f)] is its floor. *)
Lemma floor_to_int_nonneg (f : float) :
  0 <= F32.floor_to_int f -> F32.floor f = Some (F32.floor_to_int f).
Proof.
  unfold F32.floor_to_int.
  destruct (F32.floor f) as [z|]; [|unfold F32.INT_MIN; lia].
  destruct ((F32.INT_MIN <=? z) && (z <=? F32.INT_MAX));
    [reflexivity | unfold F32.INT_MIN; lia].
Qed.

Section CollisionFacts.

Variable CheckCollisionPointRec : Vector2 -> Rectangle -> bool.
Variable GetImageColor : Image -> Z -> Z -> Color.

(** C4: [CheckCollisionMap] answers "blocked" exactly when both coordinates
    of the point have an integer floor, the floors lie inside the mask, and
    the red channel of the pixel there is below 128; a point whose floored
    coordinates fall outside the mask is not blocked. *)
Theorem CheckCollisionMap_blocked_iff (map : Image) (point : Vector2) :
  F32.in_int (width map) -> F32.in_int (height map) ->
  (CheckCollisionMap GetImageColor map point = true <->
   exists xi yi : Z,
     F32.floor (x point) = Some xi /\ F32.floor (y point) = Some yi /\
     0 <= xi < width map /\ 0 <= yi < height map /\
     r (GetImageColor map xi yi) < 128) /\
  (forall xi yi : Z,
     F32.floor (x point) = Some xi -> F32.floor (y point) = Some yi ->
     ~ (0 <= xi < width map /\ 0 <= yi < height map) ->
     CheckCollisionMap GetImageColor map point = false).
Proof.
  intros [_ Hw] [_ Hh].
  assert (Hiff :
    CheckCollisionMap GetImageColor map point = true <->
    exists xi yi : Z,
      F32.floor (x point) = Some xi /\ F32.floor (y point) = Some yi /\
      0 <= xi < width map /\ 0 <= yi < height map /\
      r (GetImageColor map xi yi) < 128).
  { unfold CheckCollisionMap. split.
    - destruct (Z.ltb_spec (F32.floor_to_int (x point)) 0); [discriminate|].
      destruct (Z.geb_spec (F32.floor_to_int (x point)) (width map));
        [discriminate|].
      destruct (Z.ltb_spec (F32.floor_to_int (y point)) 0); [discriminate|].
      destruct (Z.geb_spec (F32.floor_to_int (y point)) (height map));
        [discriminate|].
      intros Hred. apply Z.ltb_lt in Hred.
      exists (F32.floor_to_int (x point)), (F32.floor_to_int (y point)).
      repeat split; auto using floor_to_int_floor, floor_to_int_nonneg; lia.
    - intros (xi & yi & Hx & Hy & Hxi & Hyi & Hred).
      rewrite (floor_to_int_floor _ _ Hx), (floor_to_int_floor _ _ Hy)
        by (unfold F32.INT_MIN; lia).
      destruct (Z.ltb_spec xi 0); [lia|].
      destruct (Z.geb_spec xi (width map)); [lia|].
      destruct (Z.ltb_spec yi 0); [lia|].
      destruct (Z.geb_spec yi (height map)); [lia|].
      now apply Z.ltb_lt. }
  split; [exact Hiff|].
  intros xi yi Hx Hy Hout.
  destruct (CheckCollisionMap GetImageColor map point) eqn:Hc; [|reflexivity].
  exfalso. apply Hout.
  destruct (proj1 Hiff eq_refl) as (xi' & yi' & Hx' & Hy' & Hxi & Hyi & _).
  rewrite Hx in Hx'. rewrite Hy in Hy'.
  injection Hx' as <-. injection Hy' as <-. split; assumption.
Qed.

(** The body of the loop rejects a move exactly when the specification says
    the object blocks the candidate point. *)
Lemma rejects_blocked_by (object : Object) (candidate : Vector2) :
  rejects CheckCollisionPointRec GetImageColor object candidate = true <->
  blocked_by CheckCollisionPointRec GetImageColor object candidate.
Proof.
  unfold rejects, blocked_by, collision_rectangle. split.
  - destruct (collisionMap object) as [mask|]; [|discriminate].
    simpl. intros H. apply andb_true_iff in H. exists mask. auto.
  - intros (mask & -> & Hrec & Hmap). simpl in *. now rewrite Hrec, Hmap.
Qed.

Lemma scan_result (objs : list Object) (position candidate : Vector2) :
  MovePointWithCollisions_scan CheckCollisionPointRec GetImageColor
    objs position candidate
  = if existsb (fun o => rejects CheckCollisionPointRec GetImageColor o candidate) objs
    then position else candidate.
Proof.
  induction objs as [|o objs IH]; simpl; [reflexivity|].
  destruct (rejects _ _ o candidate); simpl; [reflexivity | exact IH].
Qed.

Lemma scan_stops (before after : list Object) (o : Object)
  (position candidate : Vector2) :
  rejects CheckCollisionPointRec GetImageColor o candidate = true ->
  MovePointWithCollisions_scan CheckCollisionPointRec GetImageColor
    (before ++ o :: after) position candidate = position.
Proof.
  intros Hrej. induction before as [|o' before IH]; simpl.
  - now rewrite Hrej.
  - destruct (rejects _ _ o' candidate); [reflexivity | exact IH].
Qed.


End CollisionFacts.

Lemma CheckCollisionMap_blocked_iff_witness :
  (F32.in_int (width sample_mask) /\ F32.in_int (height sample_mask)) /\
  (CheckCollisionMap sample_GetImageColor sample_mask
     (mkVector2 F32.half (F32.of_Z 1)) = true <->
   exists xi yi : Z,
     F32.floor F32.half = Some xi /\ F32.floor (F32.of_Z 1) = Some yi /\
     0 <= xi < 2 /\ 0 <= yi < 2 /\
     r (sample_GetImageColor sample_mask xi yi) < 128).
Proof.
  assert (Hw : F32.in_int (width sample_mask)) by (vm_compute; split; discriminate).
  assert (Hh : F32.in_int (height sample_mask)) by (vm_compute; split; discriminate).
  split; [split; assumption|].
  exact (proj1 (CheckCollisionMap_blocked_iff sample_GetImageColor sample_mask
                  (mkVector2 F32.half (F32.of_Z 1)) Hw Hh)).
Defined.

(** The sample mask at work: the left column blocks, the right one does not,
    and a point off the mask does not either; the older overload answers
    "blocked" off the mask. *)
Example CheckCollisionMap_samples :
  CheckCollisionMap sample_GetImageColor sample_mask (mkVector2 F32.half (F32.of_Z 1)) = true /\
  CheckCollisionMap sample_GetImageColor sample_mask (vec 1 1) = false /\
  CheckCollisionMap sample_GetImageColor sample_mask (vec (-1) 0) = false /\
  CheckCollisionMap sample_GetImageColor sample_mask (vec 0 2) = false /\
  CheckCollisionMap sample_GetImageColor sample_mask (mkVector2 S754_nan F32.zero) = false /\
  CheckCollisionMap_xy sample_GetImageColor sample_mask (F32.of_Z (-1)) F32.zero = true.
Proof. vm_compute. repeat split; reflexivity. Qed.

(** The sample wall, whose mask covers [9, 11) x [9, 11) and blocks on its
    left half: a step that ends at (9.5, 10) is rejected, a step that ends
    at (10.5, 10) or outside the rectangle is taken, and a table whose
    count leaves the wall out does not block. *)
Example MovePointWithCollisions_samples :
  let start := mkVector2 (F32.of_scaled 17 (-1)) (F32.of_Z 10) in
  let move := MovePointWithCollisions sample_CheckCollisionPointRec
                sample_GetImageColor in
  move [sample_wall] 1 start (vec 1 0) = start /\
  move [sample_wall] 1 start (vec 2 0)
  = mkVector2 (F32.of_scaled 21 (-1)) (F32.of_Z 10) /\
  move [sample_wall] 1 start (vec 0 5)
  = mkVector2 (F32.of_scaled 17 (-1)) (F32.of_Z 15) /\
  move [sample_wall] 0 start (vec 1 0)
  = mkVector2 (F32.of_scaled 19 (-1)) (F32.of_Z 10) /\
  move [plain_object "lamp" (vec 9 10) F32.zero; sample_wall] 2 start (vec 1 0)
  = start.
Proof. vm_compute. repeat split; reflexivity. Qed.

(** ** The order of binary32 numbers *)

Lemma leb_trans (a b c : float) :
  F32.leb a b = true -> F32.leb b c = true -> F32.leb a c = true.
Proof.
  unfold F32.leb, SFleb.
  destruct a as [sa|sa| |sa ma ea], b as [sb|sb| |sb mb eb],
           c as [sc|sc| |sc mc ec];
    try destruct sa; try destruct sb; try destruct sc;
    simpl; try congruence;
    order_cases; try congruence; lia.
Qed.

Lemma ltb_false_leb (a b : float) :
  F32.is_nan a = false -> F32.is_nan b = false ->
  F32.ltb a b = false -> F32.leb b a = true.
Proof.
  unfold F32.leb, F32.ltb, SFleb, SFltb.
  destruct a as [sa|sa| |sa ma ea], b as [sb|sb| |sb mb eb];
    try destruct sa; try destruct sb;
    simpl; try congruence;
    order_cases; try congruence; lia.
Qed.

Lemma ltb_gtb_false (a b : float) :
  F32.ltb a b = true -> F32.gtb a b = false.
Proof.
  unfold F32.gtb, F32.ltb, SFltb.
  destruct a as [sa|sa| |sa ma ea], b as [sb|sb| |sb mb eb];
    try destruct sa; try destruct sb;
    simpl; try congruence;
    order_cases; try congruence; lia.
Qed.

(** ** Sort *)

Section SortFacts.

Context {A : Type}.
Variable compare : A -> A -> Z.

Lemma Sort_insert_Permutation (e : A) (l : list A) :
  Permutation (Sort_insert compare e l) (e :: l).
Proof.
  induction l as [|h t IH]; simpl.
  - apply Permutation_refl.
  - destruct (compare e h <=? 0).
    + apply Permutation_refl.
    + rewrite IH. apply perm_swap.
Qed.

Lemma Sort_Permutation (l : list A) : Permutation (Sort compare l) l.
Proof.
  induction l as [|e l IH]; simpl.
  - apply Permutation_refl.
  - fold (Sort compare l). rewrite Sort_insert_Permutation.
    now apply perm_skip.
Qed.

(** The comparator is a C comparator of a key: it answers at most zero
    exactly when its left key is not below its right key. *)
Variable key : A -> float.
Hypothesis compare_key :
  forall a b : A, (compare a b <=? 0) = negb (F32.ltb (key a) (key b)).

Local Abbreviation below := (fun a b : A => F32.leb (key b) (key a) = true).
Local Abbreviation number := (fun a : A => F32.is_nan (key a) = false).

Lemma Sort_insert_sorted (e : A) (l : list A) :
  number e -> Forall number l ->
  StronglySorted below l -> StronglySorted below (Sort_insert compare e l).
Proof.
  intros He Hl Hsorted. induction Hsorted as [|h t Ht IH Hh]; simpl.
  - constructor; constructor.
  - apply Forall_cons_iff in Hl as [Hnum_h Hnum_t].
    rewrite compare_key. destruct (F32.ltb (key e) (key h)) eqn:Hlt; simpl.
    + constructor; [now apply IH|].
      assert (Heh : below h e).
      { cbv beta. apply ltb_false_leb; auto.
        now apply ltb_gtb_false in Hlt. }
      rewrite Sort_insert_Permutation. constructor; assumption.
    + assert (Hhe : below e h) by (apply ltb_false_leb; auto).
      constructor; [now constructor|].
      constructor; [exact Hhe|].
      eapply List.Forall_impl; [|exact Hh].
      intros c Hc. cbv beta in *. eapply leb_trans; eassumption.
Qed.

Lemma Sort_sorted (l : list A) :
  Forall number l -> StronglySorted below (Sort compare l).
Proof.
  induction l as [|e l IH]; simpl; intros Hl.
  - constructor.
  - apply Forall_cons_iff in Hl as [He Hl]. fold (Sort compare l).
    apply Sort_insert_sorted; auto.
    rewrite Sort_Permutation. exact Hl.
Qed.

End SortFacts.

(** ** GetZSortedObjects *)

Section ZSortFacts.

Variable MirrorDirectionVertically : Direction -> Direction.

(** The comparator handed to [Sort] is a comparator of the sort key. *)
Lemma compare_z_key (l r : Object) :
  (compare_z MirrorDirectionVertically l r <=? 0)
  = negb (F32.ltb (sort_key MirrorDirectionVertically l)
                  (sort_key MirrorDirectionVertically r)).
Proof.
  unfold compare_z.
  destruct (F32.ltb (sort_key MirrorDirectionVertically l)
                    (sort_key MirrorDirectionVertically r)) eqn:Hlt.
  - now rewrite (ltb_gtb_false _ _ Hlt).
  - destruct (F32.gtb _ _); reflexivity.
Qed.

(** Every pointer into the scene table is in the result once, whatever the
    keys are. *)
Lemma GetZSortedObjects_Permutation (objects : list Object) (numObjects : Z) :
  Permutation (GetZSortedObjects MirrorDirectionVertically objects numObjects)
              (seq 0 (Z.to_nat numObjects)).
Proof. apply Sort_Permutation. Qed.

(** C5, amended: for every scene table none of whose sort keys
    (foot-position-y + zOffset) is NaN, [GetZSortedObjects] returns a
    permutation of the table, every object exactly once, in descending order
    of the sort key; objects with equal keys come in either order. *)
Theorem GetZSortedObjects_descending (objects : list Object) (numObjects : Z) :
  (forall pointer : nat,
     (pointer < Z.to_nat numObjects)%nat ->
     F32.is_nan (z_key MirrorDirectionVertically objects pointer) = false) ->
  let sorted := GetZSortedObjects MirrorDirectionVertically objects numObjects in
  Permutation sorted (seq 0 (Z.to_nat numObjects)) /\
  NoDup sorted /\
  (forall pointer : nat,
     In pointer sorted <-> (pointer < Z.to_nat numObjects)%nat) /\
  descending MirrorDirectionVertically objects sorted.
Proof.
  intros Hkeys sorted.
  pose proof (GetZSortedObjects_Permutation objects numObjects) as Hperm.
  fold sorted in Hperm.
  split; [exact Hperm|]. split; [|split].
  - rewrite Hperm. apply NoDup_seq.
  - intros pointer. rewrite Hperm, in_seq. lia.
  - unfold descending, sorted, GetZSortedObjects.
    apply (Sort_sorted _ (z_key MirrorDirectionVertically objects)).
    + intros p q. apply compare_z_key.
    + apply Forall_forall. intros p Hp.
      apply list_elem_of_In, in_seq in Hp. apply Hkeys. lia.
Qed.

End ZSortFacts.

Lemma GetZSortedObjects_descending_witness :
  (forall pointer : nat,
     (pointer < Z.to_nat 3)%nat ->
     F32.is_nan (z_key sample_MirrorDirectionVertically sample_scene pointer)
     = false) /\
  descending sample_MirrorDirectionVertically sample_scene
    (GetZSortedObjects sample_MirrorDirectionVertically sample_scene 3).
Proof.
  assert (Hkeys : forall pointer : nat,
            (pointer < Z.to_nat 3)%nat ->
            F32.is_nan (z_key sample_MirrorDirectionVertically sample_scene pointer)
            = false).
  { intros [|[|[|p]]] Hp; reflexivity. }
  split; [exact Hkeys|].
  exact (proj2 (proj2 (proj2
           (GetZSortedObjects_descending sample_MirrorDirectionVertically
              sample_scene 3 Hkeys)))).
Defined.

(** The sample scene: the lamp (key 410) before the player (key 405) before
    the sign (key 100). *)
Example GetZSortedObjects_sample :
  GetZSortedObjects sample_MirrorDirectionVertically sample_scene 3
  = [1; 0; 2]%nat /\
  map (z_key sample_MirrorDirectionVertically sample_scene) [1; 0; 2]%nat
  = [F32.of_Z 410; F32.of_Z 405; F32.of_Z 100].
Proof. vm_compute. split; reflexivity. Qed.

(** C5 as stated fails: in a scene whose keys are 1, NaN and 2 every
    comparison with the NaN key answers "equal", the sort leaves the table
    as it is, and the key 1 comes before the key 2. *)
Lemma GetZSortedObjects_nan_key :
  GetZSortedObjects sample_MirrorDirectionVertically nan_scene 3
  = [0; 1; 2]%nat /\
  ~ descending sample_MirrorDirectionVertically nan_scene
      (GetZSortedObjects sample_MirrorDirectionVertically nan_scene 3).
Proof.
  split; [vm_compute; reflexivity|].
  change (GetZSortedObjects sample_MirrorDirectionVertically nan_scene 3)
    with [0; 1; 2]%nat.
  intros Hsorted. apply StronglySorted_inv in Hsorted as [_ Hhead].
  apply Forall_cons_iff in Hhead as [Hnan _].
  vm_compute in Hnan. discriminate.
Qed.

(** Whatever the sort does, a table with a NaN key has no descending
    arrangement: no arrangement of two pointers one of which has a NaN key
    is in descending order. *)
Lemma nan_key_never_descending (l : list nat) :
  Permutation l [0; 1]%nat ->
  ~ descending sample_MirrorDirectionVertically nan_scene l.
Proof.
  intros Hperm Hsorted.
  assert (Hl : l = [0; 1]%nat \/ l = [1; 0]%nat).
  { symmetry in Hperm. now apply Permutation_length_2_inv in Hperm. }
  destruct Hl as [-> | ->];
    apply StronglySorted_inv in Hsorted as [_ Hhead];
    apply Forall_cons_iff in Hhead as [Hnan _];
    vm_compute in Hnan; discriminate.
Qed.

(** ** Camera shake *)

(** A float that is not below or equal to zero, and is a number, is above
    zero. *)
Lemma leb_zero_total (f : float) :
  F32.is_nan f = false -> F32.leb f F32.zero = false ->
  F32.leb F32.zero f = true.
Proof.
  destruct f as [s|s| |s m e]; try destruct s;
    unfold F32.is_nan, F32.leb, F32.zero, SFleb; simpl; congruence.
Qed.

Section CameraFacts.

Variable FRAME_TIME : float.
Variable ParseCommandFloatArg : string -> option float.

(** One call, with its two branches spelled out. *)
Lemma UpdateCameraShake_cases (c : CameraShake) :
  let decayed := cameraTrauma c -f cameraTraumaFalloff c in
  UpdateCameraShake FRAME_TIME c =
    if F32.leb decayed F32.zero
    then {| cameraTrauma := F32.zero;
            cameraTraumaFalloff := DEFAULT_CAMERA_SHAKE_FALLOFF FRAME_TIME |}
    else {| cameraTrauma := decayed;
            cameraTraumaFalloff := cameraTraumaFalloff c |}.
Proof. reflexivity. Qed.

(** C10, amended: when trauma minus falloff is a number (not NaN), the
    trauma after [UpdateCameraShake] is at least zero.  The call takes the
    falloff rate off the trauma; when the difference is zero or below, the
    trauma becomes exactly zero and the falloff rate its default, and
    otherwise the difference is stored and the falloff rate (a custom one set
    by the [shake] command included) is kept. *)
Theorem UpdateCameraShake_nonnegative (c : CameraShake) :
  F32.is_nan (cameraTrauma c -f cameraTraumaFalloff c) = false ->
  let decayed := cameraTrauma c -f cameraTraumaFalloff c in
  let c' := UpdateCameraShake FRAME_TIME c in
  F32.leb F32.zero (cameraTrauma c') = true /\
  (F32.leb decayed F32.zero = true ->
   cameraTrauma c' = F32.zero /\
   cameraTraumaFalloff c' = DEFAULT_CAMERA_SHAKE_FALLOFF FRAME_TIME) /\
  (F32.leb decayed F32.zero = false ->
   cameraTrauma c' = decayed /\
   cameraTraumaFalloff c' = cameraTraumaFalloff c).
Proof.
  intros Hnum decayed c'. unfold c'. rewrite UpdateCameraShake_cases.
  fold decayed. destruct (F32.leb decayed F32.zero) eqn:Hle; simpl.
  - repeat split; intros; try reflexivity; discriminate.
  - repeat split; intros; try reflexivity; try discriminate.
    now apply leb_zero_total.
Qed.

(** The [shake] command with two well-formed arguments adds the first to the
    trauma and installs the second as the falloff rate. *)
Lemma HandleCameraShakeCommand_sets_falloff
  (c : CameraShake) (arg1 arg2 : string) (trauma falloff : float) :
  ParseCommandFloatArg arg1 = Some trauma ->
  ParseCommandFloatArg arg2 = Some falloff ->
  HandleCameraShakeCommand FRAME_TIME ParseCommandFloatArg [arg1; arg2] c
  = (true, {| cameraTrauma := cameraTrauma c +f trauma;
              cameraTraumaFalloff := falloff |}).
Proof.
  intros H1 H2. unfold HandleCameraShakeCommand. simpl. now rewrite H1, H2.
Qed.

(** Over any number of frames the falloff rate is the one the run started
    with or the default, and it is the default from the first frame on which
    the trauma is brought to zero until the next [shake] command. *)
Lemma UpdateCameraShake_frames_falloff (c : CameraShake) (n : nat) :
  cameraTraumaFalloff (UpdateCameraShake_frames FRAME_TIME n c)
    = cameraTraumaFalloff c \/
  cameraTraumaFalloff (UpdateCameraShake_frames FRAME_TIME n c)
    = DEFAULT_CAMERA_SHAKE_FALLOFF FRAME_TIME.
Proof.
  induction n as [|n IH]; simpl; [now left|].
  rewrite UpdateCameraShake_cases.
  destruct (F32.leb _ F32.zero); simpl; [now right | exact IH].
Qed.

End CameraFacts.

Lemma UpdateCameraShake_nonnegative_witness :
  F32.is_nan (F32.half -f seven_tenths) = false /\
  F32.leb F32.zero
    (cameraTrauma
       (UpdateCameraShake sample_FRAME_TIME
          {| cameraTrauma := F32.half; cameraTraumaFalloff := seven_tenths |}))
  = true.
Proof.
  split; [reflexivity|].
  exact (proj1 (UpdateCameraShake_nonnegative sample_FRAME_TIME
                  {| cameraTrauma := F32.half;
                     cameraTraumaFalloff := seven_tenths |} eq_refl)).
Defined.

(** C10 as stated fails: with trauma and falloff both at plus infinity (what
    the command [shake inf inf] leaves behind) the difference is NaN, the
    test [cameraTrauma <= 0] is false, and the trauma stays NaN, which is
    not at least zero. *)
Lemma UpdateCameraShake_nan_trauma :
  fst (HandleCameraShakeCommand sample_FRAME_TIME sample_ParseCommandFloatArg
         ["inf"; "inf"]%string shake_at_rest) = true /\
  snd (HandleCameraShakeCommand sample_FRAME_TIME sample_ParseCommandFloatArg
         ["inf"; "inf"]%string shake_at_rest) = shake_infinite /\
  cameraTrauma (UpdateCameraShake sample_FRAME_TIME shake_infinite) = S754_nan /\
  ~ (F32.leb F32.zero
       (cameraTrauma (UpdateCameraShake sample_FRAME_TIME shake_infinite))
     = true).
Proof. vm_compute. repeat split; try reflexivity. discriminate. Qed.

(** Default shake at sixty frames a second: trauma 0.5 decays to exactly
    zero on the 43rd frame. *)
Example UpdateCameraShake_run :
  let c0 := {| cameraTrauma := DEFAULT_CAMERA_SHAKE_TRAUMA;
               cameraTraumaFalloff := DEFAULT_CAMERA_SHAKE_FALLOFF sample_FRAME_TIME |} in
  F32.ltb F32.zero (cameraTrauma (UpdateCameraShake_frames sample_FRAME_TIME 42 c0)) = true /\
  cameraTrauma (UpdateCameraShake_frames sample_FRAME_TIME 43 c0) = F32.zero.
Proof. vm_compute. split; reflexivity. Qed.

(** ** The Talking state *)

Section TalkingFacts.

Variable FRAME_TIME : float.
Variable GetTimeInCurrentGameState : Z -> float.

Lemma SetFrameNumber_tail (n : Z) (s : list StackEntry) :
  tail (SetFrameNumberInCurrentGameState n s) = tail s.
Proof. destruct s; reflexivity. Qed.

Lemma SetFrameNumber_length (n : Z) (s : list StackEntry) :
  length (SetFrameNumberInCurrentGameState n s) = length s.
Proof. destruct s; reflexivity. Qed.

(** The clamp and the developer keys leave the script alone and touch at
    most the frame counter of the state on top. *)
Lemma before_interact_frame (input : TalkingInput) (g : Talking) :
  let g1 := before_interact input g in
  numParagraphs g1 = numParagraphs g /\
  tail (stack g1) = tail (stack g) /\
  length (stack g1) = length (stack g).
Proof.
  unfold before_interact, Talking_key_right, Talking_key_left, Talking_clamp.
  destruct (paragraphIndex g >=? numParagraphs g);
    destruct (devMode g); simpl;
    destruct (key_left_pressed input); simpl;
    destruct (key_right_pressed input); simpl;
    repeat match goal with |- context [if ?c then _ else _] => destruct c end;
    simpl; rewrite ?SetFrameNumber_tail, ?SetFrameNumber_length;
    repeat split; reflexivity.
Qed.

(** Without a developer key and with the index inside the script, the
    interact branch finds the globals as the frame began. *)
Lemma before_interact_plain (input : TalkingInput) (g : Talking) :
  paragraphIndex g < numParagraphs g ->
  devMode g && (key_left_pressed input || key_right_pressed input) = false ->
  before_interact input g = g.
Proof.
  intros Hin Hkeys.
  unfold before_interact, Talking_key_right, Talking_key_left, Talking_clamp.
  destruct (Z.geb_spec (paragraphIndex g) (numParagraphs g)); [lia|].
  cbv iota. destruct (devMode g) eqn:Hdev; simpl in Hkeys.
  - apply orb_false_iff in Hkeys as [-> ->]. simpl. now rewrite Hdev.
  - simpl. now rewrite Hdev.
Qed.

Lemma Talking_finish_stack (prev : Z) (g : Talking) :
  stack (Talking_finish FRAME_TIME prev g) = stack g /\
  paragraphIndex (Talking_finish FRAME_TIME prev g) = paragraphIndex g.
Proof.
  unfold Talking_finish.
  destruct (negb (paragraphIndex g =? prev)); split; reflexivity.
Qed.

(** The stack after one frame, case by case. *)
Lemma Talking_Update_stack (input : TalkingInput) (g : Talking) :
  let g1 := before_interact input g in
  let g' := Talking_Update FRAME_TIME GetTimeInCurrentGameState input g in
  if pause_wasPressed input then
    stack g' = PushGameState GAMESTATE_PAUSED (stack g) /\
    paragraphIndex g' = paragraphIndex g
  else if negb (interact_wasPressed input) then
    stack g' = stack g1 /\ paragraphIndex g' = paragraphIndex g1
  else if revealing GetTimeInCurrentGameState g1 then
    stack g' = SetFrameNumberInCurrentGameState 99999 (stack g1) /\
    paragraphIndex g' = paragraphIndex g1
  else if paragraphIndex g1 + 1 >=? numParagraphs g then
    stack g' = PopGameState (stack g1) /\
    paragraphIndex g' = paragraphIndex g1 + 1
  else
    stack g' = SetFrameNumberInCurrentGameState 0 (stack g1) /\
    paragraphIndex g' = paragraphIndex g1 + 1.
Proof.
  intros g1 g'. unfold g', Talking_Update.
  destruct (pause_wasPressed input); [split; reflexivity|].
  fold (before_interact input g). fold g1.
  destruct (interact_wasPressed input); cbn [negb].
  - destruct (revealing GetTimeInCurrentGameState g1).
    + destruct (Talking_finish_stack (paragraphIndex g)
                  (set_stack g1 (SetFrameNumberInCurrentGameState 99999 (stack g1))))
        as [-> ->]. split; reflexivity.
    + change (numParagraphs (set_paragraphIndex g1 (paragraphIndex g1 + 1)))
        with (numParagraphs g1).
      assert (Hn : numParagraphs g1 = numParagraphs g)
        by apply before_interact_frame.
      rewrite Hn.
      change (paragraphIndex (set_paragraphIndex g1 (paragraphIndex g1 + 1)))
        with (paragraphIndex g1 + 1).
      change (stack (set_paragraphIndex g1 (paragraphIndex g1 + 1)))
        with (stack g1).
      destruct (paragraphIndex g1 + 1 >=? numParagraphs g).
      * split; reflexivity.
      * match goal with |- stack (Talking_finish _ ?p ?h) = _ /\ _ =>
          destruct (Talking_finish_stack p h) as [-> ->] end.
        split; reflexivity.
  - destruct (Talking_finish_stack (paragraphIndex g) g1) as [-> ->].
    split; reflexivity.
Qed.

(** C9, amended: activation puts the paragraph index at 0.  In a frame of
    the Talking state in which pause was not pressed, an interact press
    after the reveal of the current paragraph is complete adds one to the
    paragraph index, and the state pops itself, returning to the stack
    beneath it, exactly when that incremented index reaches or exceeds the
    paragraph count of the script; no frame pops the state otherwise. *)
Theorem Talking_Update_pops
  (input : TalkingInput) (g : Talking) (top : StackEntry)
  (below : list StackEntry) (param : Script) :
  stack g = top :: below ->
  let g1 := before_interact input g in
  let g' := Talking_Update FRAME_TIME GetTimeInCurrentGameState input g in
  paragraphIndex (Talking_Init g param) = 0 /\
  (pause_wasPressed input = false ->
   interact_wasPressed input = true ->
   revealing GetTimeInCurrentGameState g1 = false ->
   paragraphIndex g' = paragraphIndex g1 + 1 /\
   (stack g' = below <-> paragraphIndex g1 + 1 >= numParagraphs g)) /\
  (stack g' = below ->
   pause_wasPressed input = false /\
   interact_wasPressed input = true /\
   revealing GetTimeInCurrentGameState g1 = false /\
   paragraphIndex g1 + 1 >= numParagraphs g).
Proof.
  intros Hstack g1 g'.
  pose proof (Talking_Update_stack input g) as Hcases.
  cbv zeta in Hcases. fold g1 in Hcases. fold g' in Hcases.
  destruct (before_interact_frame input g) as (_ & Htail & Hlen).
  fold g1 in Htail, Hlen. rewrite Hstack in Htail, Hlen. simpl in Htail, Hlen.
  assert (Hneq : forall s : list StackEntry,
            (length below < length s)%nat -> s <> below).
  { intros s Hs ->. lia. }
  clearbody g1 g'.
  split; [reflexivity|]. split.
  - intros Hpause Hinteract Hrevealed.
    rewrite Hpause, Hinteract, Hrevealed in Hcases. simpl in Hcases.
    destruct (Z.geb_spec (paragraphIndex g1 + 1) (numParagraphs g))
      as [Hge|Hlt]; destruct Hcases as [Hs Hi].
    + split; [exact Hi|]. split; [lia|]. intros _.
      rewrite Hs. exact Htail.
    + split; [exact Hi|]. split; [|intros ?; exfalso; lia]. intros Hpop. exfalso.
      apply (Hneq (stack g')); [|exact Hpop].
      rewrite Hs, SetFrameNumber_length. lia.
  - intros Hpop.
    destruct (pause_wasPressed input).
    { destruct Hcases as [Hs _]. exfalso. apply (Hneq (stack g')); auto.
      rewrite Hs, Hstack. simpl. lia. }
    destruct (interact_wasPressed input); simpl in Hcases.
    2:{ destruct Hcases as [Hs _]. exfalso. apply (Hneq (stack g')); auto.
        rewrite Hs. lia. }
    destruct (revealing GetTimeInCurrentGameState g1).
    { destruct Hcases as [Hs _]. exfalso. apply (Hneq (stack g')); auto.
      rewrite Hs, SetFrameNumber_length. lia. }
    destruct (Z.geb_spec (paragraphIndex g1 + 1) (numParagraphs g)).
    + repeat split; auto. lia.
    + destruct Hcases as [Hs _]. exfalso. apply (Hneq (stack g')); auto.
      rewrite Hs, SetFrameNumber_length. lia.
Qed.

End TalkingFacts.

Lemma Talking_Update_pops_witness :
  stack (Talking_Init sample_talking sample_script)
  = {| state := GAMESTATE_TALKING; frameNumber := 0 |}
    :: [ {| state := GAMESTATE_PLAYING; frameNumber := 321 |} ] /\
  paragraphIndex (Talking_Init (Talking_Init sample_talking sample_script) sample_script) = 0.
Proof.
  split; [reflexivity|].
  exact (proj1 (Talking_Update_pops sample_FRAME_TIME sample_GetTime
                  press_interact (Talking_Init sample_talking sample_script)
                  _ _ sample_script eq_refl)).
Defined.

(** C9 as stated fails: with pause and interact pressed in the same frame,
    after the reveal of the paragraph is complete, the frame pushes Paused
    and the paragraph index stays where it was. *)
Lemma Talking_Update_pause_wins :
  let g := set_stack (Talking_Init sample_talking sample_script)
             [ {| state := GAMESTATE_TALKING; frameNumber := 600 |};
               {| state := GAMESTATE_PLAYING; frameNumber := 321 |} ] in
  let g' := Talking_Update sample_FRAME_TIME sample_GetTime
              press_pause_and_interact g in
  interact_wasPressed press_pause_and_interact = true /\
  revealing sample_GetTime (before_interact press_pause_and_interact g) = false /\
  paragraphIndex g = 0 /\
  paragraphIndex g' = 0 /\
  ~ (paragraphIndex g' = paragraphIndex g + 1) /\
  stack g' = {| state := GAMESTATE_PAUSED; frameNumber := 0 |} :: stack g.
Proof. vm_compute. repeat split; try reflexivity. discriminate. Qed.

(** The dialogue of the sample script, one interact press every ten seconds
    (600 frames, every reveal long complete): the index goes 0, 1, 2 and the
    third press pops back to Playing, which is as it was left. *)
Example Talking_run :
  let wait (g : Talking) :=
    set_stack g (SetFrameNumberInCurrentGameState 600 (stack g)) in
  let press := Talking_Update sample_FRAME_TIME sample_GetTime press_interact in
  let g0 := Talking_Init sample_talking sample_script in
  let g1 := press (wait g0) in
  let g2 := press (wait g1) in
  let g3 := press (wait g2) in
  paragraphIndex g0 = 0 /\
  (paragraphIndex g1 = 1 /\ length (stack g1) = 2%nat) /\
  (paragraphIndex g2 = 2 /\ length (stack g2) = 2%nat) /\
  (paragraphIndex g3 = 3 /\
   stack g3 = [ {| state := GAMESTATE_PLAYING; frameNumber := 321 |} ]).
Proof. vm_compute. repeat split; reflexivity. Qed.

(** ** Direction from a vector *)

Section DirectionFacts.

Variable Vector2Atan : Vector2 -> float.
Variable Wrap : float -> float -> float -> float.
Variable PI : float.
Variable roundf : float -> float.

Local Abbreviation index_of v := (raw_index Vector2Atan Wrap PI roundf v).

(** Whatever the angle functions and the rounding answer, the result is one
    of the eight directions. *)
Lemma DirectionFromVector_range (v : Vector2) :
  0 <= DirectionFromVector Vector2Atan Wrap PI roundf v < DIRECTION_ENUM_COUNT.
Proof.
  unfold DirectionFromVector, DIRECTION_ENUM_COUNT.
  test_cases; lia.
Qed.

(** The two range tests agree with a reduction modulo 8 on the indices 0 to
    8, which are the ones a wrapped angle gives; an index of 9 or more goes
    to 0 and a negative one to 7. *)
Lemma DirectionFromVector_wraps (v : Vector2) :
  (0 <= index_of v <= 8 ->
   DirectionFromVector Vector2Atan Wrap PI roundf v = index_of v mod 8) /\
  (8 <= index_of v ->
   DirectionFromVector Vector2Atan Wrap PI roundf v = DIRECTION_RIGHT) /\
  (index_of v < 0 ->
   DirectionFromVector Vector2Atan Wrap PI roundf v = DIRECTION_DOWN_RIGHT).
Proof.
  unfold DirectionFromVector. cbv zeta.
  fold (index_of v). generalize (index_of v). intros index.
  unfold DIRECTION_ENUM_COUNT, DIRECTION_RIGHT, DIRECTION_DOWN_RIGHT.
  repeat split; intros Hindex; test_cases;
    first [ lia
          | assert (index = 8) as -> by lia; reflexivity
          | rewrite Z.mod_small by lia; lia ].
Qed.

End DirectionFacts.

(** ** Encodings *)

Lemma bytes_to_uint_to_bytes (v : Z) :
  0 <= v < 2 ^ 32 -> bytes_to_uint (uint_to_bytes v) = v.
Proof.
  intros Hv. unfold bytes_to_uint, uint_to_bytes. simpl.
  change (2 ^ 32) with 4294967296 in Hv.
  Z.div_mod_to_equations. lia.
Qed.

Lemma bytes_to_int_to_bytes (v : Z) :
  - 2 ^ 31 <= v < 2 ^ 31 -> bytes_to_int (int_to_bytes v) = v.
Proof.
  intros Hv. unfold bytes_to_int, int_to_bytes.
  rewrite bytes_to_uint_to_bytes by (apply Z.mod_pos_bound; reflexivity).
  change (2 ^ 31) with 2147483648 in *. change (2 ^ 32) with 4294967296.
  destruct (Z.ltb_spec (v mod 4294967296) 2147483648);
    Z.div_mod_to_equations; lia.
Qed.

Lemma uint_to_bytes_length (v : Z) : length (uint_to_bytes v) = 4%nat.
Proof. reflexivity. Qed.

Lemma digits2_pos_bounds (m : positive) :
  2 ^ (Z.pos (digits2_pos m) - 1) <= Z.pos m < 2 ^ Z.pos (digits2_pos m).
Proof.
  induction m as [m IH|m IH|]; simpl digits2_pos;
    [change (Z.pos m~1) with (2 * Z.pos m + 1)
    |change (Z.pos m~0) with (2 * Z.pos m)
    |simpl; lia];
    rewrite Pos2Z.inj_succ;
    set (d := Z.pos (digits2_pos m)) in *;
    assert (Hd : 0 < d) by (unfold d; lia);
    replace (Z.succ d - 1) with d by lia;
    rewrite Z.pow_succ_r by lia;
    assert (Hpow : 2 ^ d = 2 * 2 ^ (d - 1))
      by (rewrite <- Z.pow_succ_r by lia; f_equal; lia);
    lia.
Qed.

(** What validity says of a finite binary32 number: at most 24 digits, an
    exponent between -149 and 104, and 24 digits unless the exponent is the
    least one. *)
Lemma valid_finite (s : bool) (m : positive) (e : Z) :
  F32.valid (S754_finite s m e) = true ->
  -149 <= e <= 104 /\ Z.pos m < 2 ^ 24 /\ (-149 < e -> 2 ^ 23 <= Z.pos m).
Proof.
  unfold F32.valid, valid_binary, bounded, canonical_mantissa, fexp, emin,
    F32.prec, F32.emax.
  intros H. apply andb_true_iff in H as [Hcanon Hmax].
  apply Z.eqb_eq in Hcanon. apply Z.leb_le in Hmax.
  pose proof (digits2_pos_bounds m) as [Hlo Hhi].
  set (d := Z.pos (digits2_pos m)) in *.
  assert (Hd : 0 < d) by (unfold d; lia).
  assert (Hd24 : d <= 24) by lia.
  repeat split; try lia.
  - eapply Z.lt_le_trans; [exact Hhi|].
    apply Z.pow_le_mono_r; lia.
  - intros He. assert (d = 24) as Heq by lia.
    rewrite Heq in Hlo. exact Hlo.
Qed.

Lemma bits_to_float_to_bits (f : float) :
  F32.valid f = true -> bits_to_float (float_to_bits f) = f.
Proof.
  destruct f as [s|s| |s m e]; intros Hvalid.
  - destruct s; reflexivity.
  - destruct s; reflexivity.
  - reflexivity.
  - apply valid_finite in Hvalid as (He & Hm & Hnormal).
    change (2 ^ 24) with 16777216 in Hm.
    change (2 ^ 23) with 8388608 in Hnormal.
    unfold bits_to_float, float_to_bits, sign_bit.
    change (2 ^ 31) with 2147483648. change (2 ^ 23) with 8388608.
    set (bits := (if s then 2147483648 else 0) + (e + 149) * 8388608 + Z.pos m).
    assert (Hsign : (2147483648 <=? bits) = s).
    { unfold bits. destruct s.
      - apply Z.leb_le. lia.
      - apply Z.leb_gt. lia. }
    rewrite Hsign.
    destruct (Z.lt_ge_cases (Z.pos m) 8388608) as [Hsub|Hnorm].
    + assert (e = -149) as -> by lia.
      assert (Hbiased : (bits / 8388608) mod 256 = 0).
      { unfold bits. destruct s; Z.div_mod_to_equations; lia. }
      assert (Hfraction : bits mod 8388608 = Z.pos m).
      { unfold bits. destruct s; Z.div_mod_to_equations; lia. }
      rewrite Hbiased, Hfraction. simpl. reflexivity.
    + assert (Hbiased : (bits / 8388608) mod 256 = e + 150).
      { unfold bits. destruct s; Z.div_mod_to_equations; lia. }
      assert (Hfraction : bits mod 8388608 = Z.pos m - 8388608).
      { unfold bits. destruct s; Z.div_mod_to_equations; lia. }
      rewrite Hbiased, Hfraction.
      destruct (Z.eqb_spec (e + 150) 0); [lia|].
      destruct (Z.eqb_spec (e + 150) 255); [lia|].
      replace (Z.pos m - 8388608 + 8388608) with (Z.pos m) by lia.
      replace (e + 150 - 150) with e by lia.
      reflexivity.
Qed.

Lemma float_to_bits_range (f : float) :
  F32.valid f = true -> 0 <= float_to_bits f < 2 ^ 32.
Proof.
  destruct f as [s|s| |s m e]; intros Hvalid.
  - destruct s; simpl; lia.
  - destruct s; simpl; lia.
  - simpl; lia.
  - apply valid_finite in Hvalid as (He & Hm & _).
    change (2 ^ 24) with 16777216 in Hm.
    unfold float_to_bits, sign_bit.
    change (2 ^ 31) with 2147483648. change (2 ^ 23) with 8388608.
    change (2 ^ 32) with 4294967296.
    destruct s; lia.
Qed.

Lemma bytes_to_float_to_bytes (f : float) :
  F32.valid f = true -> bytes_to_float (float_to_bytes f) = f.
Proof.
  intros Hvalid. unfold bytes_to_float, float_to_bytes.
  rewrite bytes_to_uint_to_bytes by now apply float_to_bits_range.
  now apply bits_to_float_to_bits.
Qed.

Lemma bytes_to_string_to_bytes (s : string) :
  bytes_to_string (string_to_bytes s) = s.
Proof.
  unfold bytes_to_string, string_to_bytes.
  rewrite List.map_map.
  rewrite (List.map_ext _ (fun c => c)).
  - rewrite List.map_id. apply string_of_list_ascii_of_string.
  - intros c. rewrite N2Z.id. apply ascii_N_embedding.
Qed.

Lemma string_to_bytes_length (s : string) :
  length (string_to_bytes s) = String.length s.
Proof.
  unfold string_to_bytes. rewrite length_map.
  induction s as [|c s IH]; simpl; [reflexivity | now rewrite IH].
Qed.

Lemma until_zero_cstring (bs rest : list byte) :
  forallb (fun c => negb (c =? 0)) bs = true ->
  until_zero (bs ++ 0 :: rest) = bs.
Proof.
  induction bs as [|c bs IH]; simpl; [reflexivity|].
  intros H. apply andb_true_iff in H as [Hc Hbs].
  apply negb_true_iff in Hc. rewrite Hc. now rewrite IH.
Qed.

Lemma CopyString_fits (s : string) (n : Z) :
  Z.of_nat (String.length s) < n -> CopyString s n = s.
Proof.
  intros Hfit. unfold CopyString.
  rewrite take_ge by (rewrite string_to_bytes_length; lia).
  apply bytes_to_string_to_bytes.
Qed.

(** ** Streams *)

Lemma remaining_advance (stream : BinaryStream) (n : nat) :
  remaining (advance stream n) = drop n (remaining stream).
Proof.
  unfold remaining at 1, advance. simpl.
  fold (remaining stream).
  rewrite <- drop_drop. fold (remaining stream).
  destruct (Nat.le_gt_cases n (length (remaining stream))) as [Hle|Hgt].
  - now rewrite Nat.min_l.
  - rewrite Nat.min_r by lia. rewrite !drop_ge; [reflexivity|lia|lia].
Qed.

Lemma reads_ret {A : Type} (v : A) (P : A -> Prop) :
  P v -> reads (ret v) [] P.
Proof. intros Hv stream rest Hrem. exists v, stream. auto. Qed.

Lemma reads_bind {A B : Type} (c : Reader A) (k : A -> Reader B)
  (bytes1 bytes2 : list byte) (P : A -> Prop) (Q : B -> Prop) :
  reads c bytes1 P ->
  (forall v : A, P v -> reads (k v) bytes2 Q) ->
  reads (bind c k) (bytes1 ++ bytes2) Q.
Proof.
  intros Hc Hk stream rest Hrem. rewrite <- app_assoc in Hrem.
  destruct (Hc stream _ Hrem) as (v & stream1 & Hrun1 & Hrem1 & Hv).
  destruct (Hk v Hv stream1 rest Hrem1) as (r & stream2 & Hrun2 & Hrem2 & Hr).
  exists r, stream2. unfold bind. rewrite Hrun1. auto.
Qed.

Lemma reads_weaken {A : Type} (c : Reader A) (bytes : list byte)
  (P Q : A -> Prop) :
  reads c bytes P -> (forall v : A, P v -> Q v) -> reads c bytes Q.
Proof.
  intros Hc HPQ stream rest Hrem.
  destruct (Hc stream rest Hrem) as (v & stream' & ? & ? & ?).
  exists v, stream'. auto.
Qed.

Lemma reads_ReadBytes (bytes : list byte) :
  reads (ReadBytes (length bytes)) bytes (eq bytes).
Proof.
  intros stream rest Hrem. exists bytes, (advance stream (length bytes)).
  unfold ReadBytes. rewrite remaining_advance, Hrem.
  rewrite take_app_length, drop_app_length. auto.
Qed.

Lemma reads_ReadInt (v : Z) :
  - 2 ^ 31 <= v < 2 ^ 31 -> reads ReadInt (int_to_bytes v) (eq v).
Proof.
  intros Hv. unfold ReadInt.
  rewrite <- (app_nil_r (int_to_bytes v)).
  eapply reads_bind; [apply (reads_ReadBytes (int_to_bytes v))|].
  intros bytes <-. apply reads_ret. symmetry. now apply bytes_to_int_to_bytes.
Qed.

Lemma reads_ReadFloat (f : float) :
  F32.valid f = true -> reads ReadFloat (float_to_bytes f) (eq f).
Proof.
  intros Hf. unfold ReadFloat.
  rewrite <- (app_nil_r (float_to_bytes f)).
  eapply reads_bind; [apply (reads_ReadBytes (float_to_bytes f))|].
  intros bytes <-. apply reads_ret. symmetry. now apply bytes_to_float_to_bytes.
Qed.

Lemma reads_ReadString (s : string) :
  is_cstring s = true -> reads ReadString (cstring_to_bytes s) (eq s).
Proof.
  intros Hs stream rest Hrem. unfold cstring_to_bytes in Hrem.
  rewrite <- app_assoc in Hrem. simpl in Hrem.
  exists s, (advance stream (length (string_to_bytes s) + 1)).
  unfold ReadString. rewrite remaining_advance, Hrem.
  rewrite (until_zero_cstring _ _ Hs), bytes_to_string_to_bytes.
  split; [reflexivity|]. split; [|reflexivity].
  replace (length (string_to_bytes s) + 1)%nat
      with (length (string_to_bytes s ++ [0])) by (rewrite length_app; reflexivity).
    change (string_to_bytes s ++ 0 :: rest)
      with (string_to_bytes s ++ [0] ++ rest).
  rewrite app_assoc. apply drop_app_length.
Qed.

(** Reading an array element by element. *)
Lemma reads_read_array {A I : Type} (c : Reader A) (encode : I -> list byte)
  (P : I -> A -> Prop) (items : list I) :
  (forall i : I, In i items -> reads c (encode i) (P i)) ->
  reads (read_array (length items) c) (concat (map encode items))
        (fun values => Forall2 P items values).
Proof.
  induction items as [|i items IH]; intros Hc; simpl.
  - apply reads_ret. constructor.
  - eapply reads_bind; [apply Hc; now left|].
    intros v Hv.
    rewrite <- (app_nil_r (concat (map encode items))).
    eapply reads_bind; [apply IH; intros; apply Hc; now right|].
    intros values Hvalues. apply reads_ret. now constructor.
Qed.

(** Writing *)

Section Writing.

Variable capacity : nat.

Lemma WriteBytes_holds (stream : BinaryStream) (written bytes : list byte) :
  holds capacity stream written ->
  holds capacity (WriteBytes stream bytes) (written ++ bytes).
Proof.
  intros (Hsize & Hlength & Hcursor & Hprefix). unfold holds, WriteBytes.
  cbn [buffer size cursor]. rewrite Hsize.
  set (c := cursor stream) in *.
  assert (Hc : (c <= capacity)%nat) by lia.
  assert (Htake : length (take c (buffer stream)) = c)
    by (rewrite length_take; lia).
  assert (Hwritten : (length (take (capacity - c) bytes) <= capacity - c)%nat)
    by (rewrite length_take; lia).
  split; [reflexivity|]. split; [|split].
  - rewrite !length_app, Htake, length_drop. lia.
  - rewrite length_app, length_take. lia.
  - rewrite app_assoc.
    rewrite take_app_le by (rewrite length_app, Htake; lia).
    rewrite take_ge by (rewrite length_app, Htake; lia).
    rewrite Hprefix, take_app. f_equal.
    destruct (Nat.le_gt_cases (length written) capacity) as [Hle|Hgt].
    + rewrite Hcursor, Nat.min_l by exact Hle. reflexivity.
    + assert (c = capacity) as -> by lia.
      replace (capacity - capacity)%nat with 0%nat by lia.
      replace (capacity - length written)%nat with 0%nat by lia. reflexivity.
Qed.

Lemma fold_left_holds {I : Type} (step : BinaryStream -> I -> BinaryStream)
  (encode : I -> list byte) :
  (forall stream written i,
     holds capacity stream written ->
     holds capacity (step stream i) (written ++ encode i)) ->
  forall (items : list I) (stream : BinaryStream) (written : list byte),
    holds capacity stream written ->
    holds capacity (fold_left step items stream)
      (written ++ concat (map encode items)).
Proof.
  intros Hstep items. induction items as [|i items IH]; simpl; intros stream written H.
  - now rewrite app_nil_r.
  - rewrite app_assoc. apply IH, Hstep, H.
Qed.

(** ** Saving *)

Lemma WriteString_holds (stream : BinaryStream) (written : list byte) (s : string) :
  holds capacity stream written ->
  holds capacity (WriteString stream s) (written ++ cstring_to_bytes s).
Proof. apply WriteBytes_holds. Qed.

Lemma WriteFloat_holds (stream : BinaryStream) (written : list byte) (f : float) :
  holds capacity stream written ->
  holds capacity (WriteFloat stream f) (written ++ float_to_bytes f).
Proof. apply WriteBytes_holds. Qed.

Lemma WriteInt_holds (stream : BinaryStream) (written : list byte) (v : Z) :
  holds capacity stream written ->
  holds capacity (WriteInt stream v) (written ++ int_to_bytes v).
Proof. apply WriteBytes_holds. Qed.

Lemma SaveExpression_holds (stream : BinaryStream) (written : list byte)
  (expression : Expression) :
  holds capacity stream written ->
  holds capacity (SaveExpression stream expression) (written ++ expression_bytes expression).
Proof.
  intros H. unfold SaveExpression, expression_bytes. rewrite app_assoc.
  now apply WriteString_holds, WriteString_holds.
Qed.

Lemma SaveObject_holds (stream : BinaryStream) (written : list byte)
  (object : Object) :
  holds capacity stream written ->
  holds capacity (SaveObject stream object) (written ++ object_bytes object).
Proof.
  intros H. unfold SaveObject, object_bytes.
  rewrite !app_assoc.
  apply (fold_left_holds
           (fun stream j =>
              SaveExpression stream
                (default Expression_zero (array_get (expressions object) j)))
           (fun j => expression_bytes (expression_at object j))).
  { intros. now apply SaveExpression_holds. }
  apply (fold_left_holds
           (fun stream dir =>
              WriteString stream
                (GetAssetPath (default None (array_get (sprites object) dir))))
           (fun dir => cstring_to_bytes (sprite_path object dir))).
  { intros. now apply WriteString_holds. }
  apply WriteString_holds, WriteString_holds, WriteInt_holds,
    WriteFloat_holds, WriteFloat_holds, WriteFloat_holds, WriteFloat_holds,
    WriteString_holds, H.
Qed.

End Writing.

Lemma holds_initial :
  holds maxBytes
    {| buffer := replicate maxBytes 0; size := maxBytes; cursor := 0 |} [].
Proof.
  unfold holds. cbn [buffer size cursor].
  rewrite length_replicate. split; [reflexivity|]. split; [reflexivity|].
  split; [reflexivity|]. now rewrite take_0, take_nil.
Qed.

Section PersistenceFacts.

Variable AcquireScript : string -> Handle Script.
Variable AcquireCollisionMap : string -> Handle Image.
Variable AcquireSprite : string -> Handle Sprite.
Variable AcquireTexture : string -> Handle Texture.
Variable writable : string -> bool.

(** The file [SaveScene] leaves on disk is the serialization of the scene
    table cut to the size of the save buffer. *)
Lemma SaveScene_file (w : World) (path : string) :
  writable path = true ->
  SaveScene writable w path =
    {| objects := objects w; numObjects := numObjects w;
       lastSavedOrLoadedScene := CopyString path SCENE_PATH_SIZE;
       files := <[path := take maxBytes (scene_bytes (objects w) (numObjects w))]>
                  (files w);
       log := log w ++ [Info_SavedScene path] |}.
Proof.
  intros Hwritable. unfold SaveScene, SaveFileData. rewrite Hwritable.
  match goal with
  | |- context [take (cursor ?s) (buffer ?s)] =>
      assert (Hholds : holds maxBytes s
                         (scene_bytes (objects w) (numObjects w)))
  end.
  { unfold scene_bytes. rewrite !app_assoc.
    apply (fold_left_holds maxBytes
             (fun stream i =>
                SaveObject stream (default Object_zero (array_get (objects w) i)))
             (fun i => object_bytes (default Object_zero (array_get (objects w) i)))).
    { intros. now apply SaveObject_holds. }
    apply WriteInt_holds, WriteInt_holds.
    apply (WriteBytes_holds maxBytes _ [] SCENE_MAGIC), holds_initial. }
  destruct Hholds as (_ & _ & _ & Hprefix). rewrite Hprefix.
  reflexivity.
Qed.

End PersistenceFacts.

(** ** Arrays held as lists *)

Lemma array_get_of_nat {A : Type} (l : list A) (i : nat) :
  array_get l (Z.of_nat i + 0) = l !! i.
Proof.
  unfold array_get. destruct (Z.ltb_spec (Z.of_nat i + 0) 0); [lia|].
  f_equal. lia.
Qed.

Lemma map_fmap {A B : Type} (f : A -> B) (l : list A) : map f l = f <$> l.
Proof. reflexivity. Qed.

Lemma map_array_get {A B : Type} (f : A -> B) (d : A) (l : list A) (n : Z) :
  n = Z.of_nat (length l) ->
  map (fun i => f (default d (array_get l i))) (seqZ 0 n) = map f l.
Proof.
  intros ->. unfold seqZ. rewrite Nat2Z.id, !map_fmap.
  apply list_eq. intros i.
  rewrite !list_lookup_fmap.
  destruct (decide (i < length l)%nat) as [Hi|Hi].
  - rewrite lookup_seq_lt by exact Hi. simpl.
    rewrite array_get_of_nat.
    destruct (lookup_lt_is_Some_2 l i Hi) as [v Hv]. now rewrite Hv.
  - rewrite lookup_seq_ge by lia. rewrite lookup_ge_None_2 by lia. reflexivity.
Qed.

Lemma take_as_map {A : Type} (d : A) (l : list A) (n : Z) :
  0 <= n <= Z.of_nat (length l) ->
  map (fun i => default d (array_get l i)) (seqZ 0 n) = take (Z.to_nat n) l.
Proof.
  intros Hn.
  rewrite <- (map_id (take (Z.to_nat n) l)).
  rewrite <- (map_array_get (fun v => v) d (take (Z.to_nat n) l) n)
    by (rewrite length_take; lia).
  apply map_ext_in. intros i Hi. unfold seqZ in Hi.
  rewrite <- map_fmap in Hi. apply in_map_iff in Hi as (j & <- & Hj).
  apply in_seq in Hj. unfold array_get.
  destruct (Z.ltb_spec (Z.of_nat j + 0) 0); [lia|].
  rewrite lookup_take_lt by lia. reflexivity.
Qed.

Lemma Forall2_map_eq {I A B : Type} (g : A -> B) (h : I -> B)
  (items : list I) (values : list A) :
  Forall2 (fun i v => g v = h i) items values -> map g values = map h items.
Proof. induction 1; simpl; congruence. Qed.

Lemma Destroy_all_length (objs : list Object) (n : Z) :
  length (Destroy_all objs n) = length objs.
Proof.
  unfold Destroy_all. generalize (seq 0 (Z.to_nat n)). intros indices.
  revert objs. induction indices as [|i indices IH]; simpl; intros objs.
  - reflexivity.
  - now rewrite IH, length_insert.
Qed.

(** ** Loading *)

Lemma fits_array_spec (s : string) (n : Z) :
  fits_array s n = true ->
  is_cstring s = true /\ Z.of_nat (String.length s) < n.
Proof.
  unfold fits_array. intros H. apply andb_true_iff in H as [Hc Hlen].
  split; [exact Hc | now apply Z.ltb_lt].
Qed.

Lemma wf_expression_at (object : Object) (j : Z) :
  forallb wf_expression (expressions object) = true ->
  wf_expression (expression_at object j) = true.
Proof.
  intros Hall. unfold expression_at, array_get.
  destruct (j <? 0); [reflexivity|].
  destruct (expressions object !! Z.to_nat j) as [e|] eqn:He; [|reflexivity].
  simpl. rewrite forallb_forall in Hall. apply Hall.
  apply list_elem_of_In. eapply list_elem_of_lookup_2. exact He.
Qed.

Lemma is_cstring_sprite_path (object : Object) (dir : Z) :
  forallb (fun h => is_cstring (GetAssetPath h)) (sprites object) = true ->
  is_cstring (sprite_path object dir) = true.
Proof.
  intros Hall. unfold sprite_path, array_get.
  destruct (dir <? 0); [reflexivity|].
  destruct (sprites object !! Z.to_nat dir) as [h|] eqn:Hh; [|reflexivity].
  simpl. rewrite forallb_forall in Hall. apply (Hall h).
  apply list_elem_of_In. eapply list_elem_of_lookup_2. exact Hh.
Qed.

Section LoadingFacts.

Variable AcquireScript : string -> Handle Script.
Variable AcquireCollisionMap : string -> Handle Image.
Variable AcquireSprite : string -> Handle Sprite.
Variable AcquireTexture : string -> Handle Texture.

Local Abbreviation cache_has_object' :=
  (cache_has_object AcquireScript AcquireCollisionMap AcquireSprite
     AcquireTexture).

Lemma reads_LoadExpression (expression : Expression) :
  wf_expression expression = true ->
  hands_back AcquireTexture (GetAssetPath (portrait expression)) = true ->
  reads (LoadExpression AcquireTexture) (expression_bytes expression)
    (fun loaded =>
       (expr_name loaded, GetAssetPath (portrait loaded))
       = (expr_name expression, GetAssetPath (portrait expression))).
Proof.
  unfold wf_expression. intros H Hcache.
  apply andb_true_iff in H as [Hname Hpath].
  apply fits_array_spec in Hname as [Hname Hlength].
  apply String.eqb_eq in Hcache.
  unfold LoadExpression, expression_bytes.
  eapply reads_bind; [now apply reads_ReadString|]. intros ? <-.
  rewrite <- (app_nil_r (cstring_to_bytes _)).
  eapply reads_bind; [now apply reads_ReadString|]. intros ? <-.
  apply reads_ret. simpl.
  now rewrite (CopyString_fits _ _ Hlength), Hcache.
Qed.

Lemma reads_LoadObject (base object : Object) :
  wf_object object = true ->
  cache_has_object' object = true ->
  reads (LoadObject AcquireScript AcquireCollisionMap AcquireSprite
           AcquireTexture base)
        (object_bytes object)
        (fun loaded => serialized loaded = serialized object).
Proof.
  unfold wf_object, cache_has_object. intros H Hcache.
  rewrite !andb_true_iff in H. rewrite !andb_true_iff in Hcache.
  destruct Hcache as (((Hcache_script & Hcache_map) & Hcache_sprites)
                      & Hcache_portraits).
  apply String.eqb_eq in Hcache_script, Hcache_map.
  rewrite forallb_forall in Hcache_sprites, Hcache_portraits.
  destruct H as ((((((((((((((Hname & Hx) & Hy) & Hz) & Hfps) & Hdir0) & Hdir8)
                        & Hscript) & Hmap) & _) & Hsprites) & _) & _) & _)
                 & Hexpressions).
  apply fits_array_spec in Hname as [Hname Hlength].
  apply Z.leb_le in Hdir0. apply Z.ltb_lt in Hdir8.
  unfold LoadObject, object_bytes.
  eapply reads_bind; [now apply reads_ReadString|]. intros ? <-.
  eapply reads_bind; [now apply reads_ReadFloat|]. intros ? <-.
  eapply reads_bind; [now apply reads_ReadFloat|]. intros ? <-.
  eapply reads_bind; [now apply reads_ReadFloat|]. intros ? <-.
  eapply reads_bind; [now apply reads_ReadFloat|]. intros ? <-.
  eapply reads_bind.
  { apply reads_ReadInt. unfold DIRECTION_ENUM_COUNT in *. lia. }
  intros ? <-.
  eapply reads_bind; [now apply reads_ReadString|]. intros ? <-.
  eapply reads_bind; [now apply reads_ReadString|]. intros ? <-.
  eapply reads_bind.
  { apply (reads_read_array ReadString
             (fun dir => cstring_to_bytes (sprite_path object dir))
             (fun dir path => (fun p : string => p) path = sprite_path object dir)
             (seqZ 0 DIRECTION_ENUM_COUNT)).
    intros dir _. eapply reads_weaken.
    - apply reads_ReadString. now apply is_cstring_sprite_path.
    - intros ? <-. reflexivity. }
  intros spritePaths HspritePaths. apply Forall2_map_eq in HspritePaths.
  rewrite map_id in HspritePaths.
  rewrite <- (app_nil_r (concat _)).
  eapply reads_bind.
  { apply (reads_read_array (LoadExpression AcquireTexture)
             (fun j => expression_bytes (expression_at object j))
             (fun j loaded =>
                (fun e => (expr_name e, GetAssetPath (portrait e))) loaded
                = (expr_name (expression_at object j),
                   GetAssetPath (portrait (expression_at object j))))
             (seqZ 0 MAX_EXPRESSIONS)).
    intros j Hj. apply reads_LoadExpression; [now apply wf_expression_at|].
    now apply Hcache_portraits. }
  intros loadedExpressions Hloaded.
  pose proof (Forall2_length _ _ _ Hloaded) as HloadedLength.
  apply Forall2_map_eq in Hloaded.
  apply reads_ret. unfold serialized. cbn [name position x y zOffset
    animationFps direction script collisionMap].
  rewrite (CopyString_fits _ _ Hlength).
  rewrite Hcache_script, Hcache_map.
  f_equal.
  - unfold sprite_path at 1. cbn [sprites].
    rewrite map_array_get
      by (rewrite length_map, HspritePaths, length_map; reflexivity).
    rewrite HspritePaths, !map_map.
    apply map_ext_in. intros dir Hdir.
    apply String.eqb_eq. now apply Hcache_sprites.
  - unfold expression_at at 1 2. cbn [expressions].
    rewrite (map_array_get
               (fun e => (expr_name e, GetAssetPath (portrait e))))
      by (rewrite <- HloadedLength; reflexivity).
    exact Hloaded.
Qed.

Lemma reads_LoadObjects (saved : list Object) :
  forall (i : nat) (objs : list Object),
    forallb wf_object saved = true ->
    forallb cache_has_object' saved = true ->
    (i + length saved <= length objs)%nat ->
    reads (LoadObjects AcquireScript AcquireCollisionMap AcquireSprite
             AcquireTexture (length saved) i objs)
          (concat (map object_bytes saved))
          (fun loaded =>
             length loaded = length objs /\
             (forall j : nat, (j < i)%nat -> loaded !! j = objs !! j) /\
             (forall (k : nat) (object : Object),
                saved !! k = Some object ->
                exists object' : Object,
                  loaded !! (i + k)%nat = Some object' /\
                  serialized object' = serialized object)).
Proof.
  induction saved as [|object saved IH]; intros i objs Hwf Hcache Hroom.
  - simpl. apply reads_ret. repeat split; auto.
    intros k o Hk. rewrite lookup_nil in Hk. discriminate.
  - simpl in Hwf. apply andb_true_iff in Hwf as [Hobject Hsaved].
    simpl in Hcache. apply andb_true_iff in Hcache as [Hcache_object Hcache].
    simpl in Hroom. simpl.
    eapply reads_bind; [now apply reads_LoadObject|].
    intros loaded1 Hloaded1. cbv beta.
    eapply reads_weaken.
    { apply (IH (S i) (<[i := loaded1]> objs) Hsaved Hcache).
      rewrite length_insert. lia. }
    intros loaded (Hlength & Hbefore & Hafter).
    rewrite length_insert in Hlength. split; [exact Hlength|]. split.
    + intros j Hj. rewrite Hbefore by lia.
      apply list_lookup_insert_ne. lia.
    + intros [|k] o Hk; simpl in Hk.
      * injection Hk as <-. exists loaded1. split; [|exact Hloaded1].
        rewrite Nat.add_0_r, Hbefore by lia.
        apply list_lookup_insert_eq. lia.
      * destruct (Hafter k o Hk) as (o' & Hlookup & Hfields).
        exists o'. split; [|exact Hfields].
        now replace (i + S k)%nat with (S i + k)%nat by lia.
Qed.

(** Loading a file that holds the serialization of a scene table [saved],
    into whatever table there is, installs a table with the same count and
    the same serialized fields, when the cache hands back the assets of
    [saved]. *)
Lemma LoadScene_scene_bytes (w : World) (path : string)
  (saved : list Object) (n : Z) :
  files w !! path = Some (scene_bytes saved n) ->
  0 <= n <= Z.of_nat (length saved) ->
  n <= Z.of_nat (length (objects w)) ->
  n < 2 ^ 31 ->
  forallb wf_object (take (Z.to_nat n) saved) = true ->
  forallb cache_has_object' (take (Z.to_nat n) saved) = true ->
  exists loaded : list Object,
    LoadScene AcquireScript AcquireCollisionMap AcquireSprite AcquireTexture
      w path
    = {| objects := loaded; numObjects := n;
         lastSavedOrLoadedScene := CopyString path SCENE_PATH_SIZE;
         files := files w;
         log := log w ++ [Info_LoadedScene path] |} /\
    length loaded = length (objects w) /\
    serialized_scene loaded n = serialized_scene saved n.
Proof.
  intros Hfile Hn Hroom Hint Hwf Hcache.
  assert (Hbytes : scene_bytes saved n =
            SCENE_MAGIC ++ int_to_bytes SCENE_VERSION ++ int_to_bytes n
            ++ concat (map object_bytes (take (Z.to_nat n) saved)) ++ []).
  { unfold scene_bytes. rewrite app_nil_r.
    rewrite <- (take_as_map Object_zero saved n Hn), map_map. reflexivity. }
  assert (Hcons : exists c data', scene_bytes saved n = c :: data')
    by (eexists _, _; reflexivity).
  destruct Hcons as (c & data' & Hcons).
  unfold LoadScene. rewrite Hfile, Hcons, <- Hcons.
  set (stream0 := {| buffer := scene_bytes saved n;
                     size := length (scene_bytes saved n); cursor := 0 |}).
  assert (Hrem0 : remaining stream0 = scene_bytes saved n).
  { unfold remaining, stream0. cbn [buffer size cursor].
    now rewrite drop_0, take_ge by lia. }
  rewrite Hbytes in Hrem0.
  destruct (reads_ReadBytes SCENE_MAGIC _ _ Hrem0)
    as (magic & stream1 & Hrun1 & Hrem1 & <-).
  change (length SCENE_MAGIC) with 4%nat in Hrun1. rewrite Hrun1.
  cbv beta iota.
  change (BytesEqual SCENE_MAGIC SCENE_MAGIC 4) with true. cbn [negb].
  destruct (reads_ReadInt SCENE_VERSION ltac:(unfold SCENE_VERSION; lia)
              _ _ Hrem1)
    as (version & stream2 & Hrun2 & Hrem2 & <-).
  rewrite Hrun2. cbv beta iota. rewrite Z.eqb_refl. cbn [negb].
  destruct (reads_ReadInt n ltac:(lia) _ _ Hrem2)
    as (count & stream3 & Hrun3 & Hrem3 & <-).
  rewrite Hrun3. cbv beta iota.
  assert (Hcount : Z.to_nat n = length (take (Z.to_nat n) saved))
    by (rewrite length_take; lia).
  destruct (reads_LoadObjects (take (Z.to_nat n) saved) 0
              (Destroy_all (objects w) (numObjects w)) Hwf Hcache
              ltac:(rewrite Destroy_all_length, length_take; lia)
              _ _ Hrem3)
    as (loaded & stream4 & Hrun4 & _ & Hlength & _ & Hloaded).
  rewrite <- Hcount in Hrun4. rewrite Hrun4. exists loaded.
  rewrite Destroy_all_length in Hlength.
  split; [reflexivity|]. split; [exact Hlength|].
  unfold serialized_scene. rewrite !map_fmap. apply list_eq. intros k.
  rewrite !list_lookup_fmap.
  destruct (decide (k < Z.to_nat n)%nat) as [Hk|Hk].
  - rewrite !lookup_take_lt by exact Hk.
    destruct (lookup_lt_is_Some_2 saved k ltac:(lia)) as [o Ho].
    destruct (Hloaded k o) as (o' & Hlookup & Hfields).
    { now rewrite lookup_take_lt. }
    simpl in Hlookup. rewrite Hlookup, Ho. simpl. now rewrite Hfields.
  - rewrite !lookup_take_ge by lia. reflexivity.
Qed.

End LoadingFacts.

(** ** The claims on the scene file *)

Section SceneFileFacts.

Variable AcquireScript : string -> Handle Script.
Variable AcquireCollisionMap : string -> Handle Image.
Variable AcquireSprite : string -> Handle Sprite.
Variable AcquireTexture : string -> Handle Texture.
Variable writable : string -> bool.

(** C2: when the first four bytes of the file are not the magic "KEKW", or
    the version field that follows them is not the current version,
    [LoadScene] leaves the object table, the object count and the last-used
    scene path (and the disk) as they were, and logs an error. *)
Theorem LoadScene_rejects (w : World) (path : string) (content : list byte) :
  files w !! path = Some content ->
  take 4 content <> SCENE_MAGIC \/
  bytes_to_int (take 4 (drop 4 content)) <> SCENE_VERSION ->
  let w' := LoadScene AcquireScript AcquireCollisionMap AcquireSprite
              AcquireTexture w path in
  objects w' = objects w /\
  numObjects w' = numObjects w /\
  lastSavedOrLoadedScene w' = lastSavedOrLoadedScene w /\
  files w' = files w /\
  exists m : LogMessage, is_error m = true /\ log w' = log w ++ [m].
Proof.
  intros Hfile Hbad w'.
  assert (Hlog : exists m : LogMessage, is_error m = true /\ w' = set_log w m).
  { unfold w', LoadScene. rewrite Hfile.
    destruct content as [|c content'] eqn:Hcontent.
    { eexists. split; [|reflexivity]. reflexivity. }
    rewrite <- Hcontent in *. clear Hcontent c content'.
    set (stream0 := {| buffer := content; size := length content; cursor := 0 |}).
    assert (Hrem0 : remaining stream0 = content).
    { unfold remaining, stream0. cbn [buffer size cursor].
      now rewrite drop_0, take_ge by lia. }
    unfold ReadBytes at 1. rewrite Hrem0.
    destruct (BytesEqual (take 4 content) SCENE_MAGIC 4) eqn:Hmagic; cbn [negb].
    2:{ eexists. split; [|reflexivity]. reflexivity. }
    assert (Hversion : bytes_to_int (take 4 (drop 4 content)) <> SCENE_VERSION).
    { destruct Hbad as [Hbad|Hbad]; [|exact Hbad]. exfalso. apply Hbad.
      unfold BytesEqual in Hmagic.
      apply andb_true_iff in Hmagic as [Hmagic _].
      apply andb_true_iff in Hmagic as [Hmagic _].
      apply bool_decide_eq_true in Hmagic.
      rewrite take_take in Hmagic. exact Hmagic. }
    unfold ReadInt, bind, ReadBytes, ret.
    rewrite remaining_advance, Hrem0.
    destruct (Z.eqb_spec (bytes_to_int (take 4 (drop 4 content))) SCENE_VERSION)
      as [Heq|Hne]; [contradiction|]. cbn [negb].
    eexists. split; [|reflexivity]. reflexivity. }
  destruct Hlog as (m & Herror & ->).
  repeat split; try reflexivity. exists m. split; [exact Herror | reflexivity].
Qed.

(** X29: Take a scene table within capacity whose serialization fits the
    32 KiB save buffer and whose own assets the cache hands back under the
    paths they are saved with.  After [SaveScene] has written it to a
    writable path, [LoadScene] of that file, into whatever table is there at
    the time (a table of a hundred slots, as after a restart or with another
    scene in it), installs the saved object count and, for every object, the
    saved name, position, z-offset, animation rate, direction, script path,
    collision-map path, eight sprite paths and ten expression name and
    portrait-path pairs. *)
Theorem SaveScene_LoadScene_roundtrip (w later : World) (path : string) :
  wf_scene w = true ->
  cache_has_scene AcquireScript AcquireCollisionMap AcquireSprite
    AcquireTexture w = true ->
  writable path = true ->
  (length (scene_bytes (objects w) (numObjects w)) <= maxBytes)%nat ->
  files later !! path = files (SaveScene writable w path) !! path ->
  Z.of_nat (length (objects later)) = MAX_OBJECTS ->
  let w' := LoadScene AcquireScript AcquireCollisionMap AcquireSprite
              AcquireTexture later path in
  numObjects w' = numObjects w /\
  serialized_scene (objects w') (numObjects w')
  = serialized_scene (objects w) (numObjects w).
Proof.
  intros Hwf Hcache Hwritable Hfits Hfile Hslots w'.
  unfold wf_scene in Hwf. rewrite !andb_true_iff in Hwf.
  destruct Hwf as (((Hlength & Hn0) & Hn100) & Hobjects).
  apply Z.eqb_eq in Hlength. apply Z.leb_le in Hn0, Hn100.
  unfold MAX_OBJECTS in *.
  destruct (LoadScene_scene_bytes AcquireScript AcquireCollisionMap
              AcquireSprite AcquireTexture
              later path (objects w) (numObjects w))
    as (loaded & Hload & _ & Hfields).
  - rewrite Hfile, (SaveScene_file writable w path Hwritable). cbn [files].
    rewrite lookup_insert_eq. now rewrite take_ge by lia.
  - lia.
  - lia.
  - lia.
  - exact Hobjects.
  - exact Hcache.
  - unfold w'. rewrite Hload. cbn [numObjects objects]. auto.
Qed.

End SceneFileFacts.

Lemma LoadScene_rejects_witness :
  (files sample_world !! "notes.txt"%string = Some [104; 101; 108; 108; 111] /\
   (take 4 [104; 101; 108; 108; 111] <> SCENE_MAGIC \/
    bytes_to_int (take 4 (drop 4 [104; 101; 108; 108; 111])) <> SCENE_VERSION)) /\
  objects (LoadScene sample_AcquireScript sample_AcquireCollisionMap
             sample_AcquireSprite sample_AcquireTexture
             sample_world "notes.txt")
  = objects sample_world.
Proof.
  assert (Hfile : files sample_world !! "notes.txt"%string
                  = Some [104; 101; 108; 108; 111]) by (vm_compute; reflexivity).
  assert (Hbad : take 4 [104; 101; 108; 108; 111] <> SCENE_MAGIC \/
                 bytes_to_int (take 4 (drop 4 [104; 101; 108; 108; 111]))
                 <> SCENE_VERSION) by (left; vm_compute; discriminate).
  split; [split; assumption|].
  exact (proj1 (LoadScene_rejects sample_AcquireScript
                  sample_AcquireCollisionMap sample_AcquireSprite
                  sample_AcquireTexture sample_world "notes.txt" _ Hfile Hbad)).
Defined.

(** The two bad files of the sample world: each is refused with its own
    error and the world is otherwise untouched. *)
Example LoadScene_rejects_samples :
  LoadScene sample_AcquireScript sample_AcquireCollisionMap
    sample_AcquireSprite sample_AcquireTexture sample_world "notes.txt"
  = set_log sample_world (Error_NotASceneFile "notes.txt") /\
  LoadScene sample_AcquireScript sample_AcquireCollisionMap
    sample_AcquireSprite sample_AcquireTexture sample_world "old.scene"
  = set_log sample_world (Error_WrongVersion "old.scene" 1) /\
  LoadScene sample_AcquireScript sample_AcquireCollisionMap
    sample_AcquireSprite sample_AcquireTexture sample_world "missing.scene"
  = set_log sample_world (Error_FileDoesNotExist "missing.scene").
Proof. vm_compute. repeat split; reflexivity. Qed.

Lemma SaveScene_LoadScene_roundtrip_witness :
  (wf_scene sample_world = true /\
   cache_has_scene sample_AcquireScript sample_AcquireCollisionMap
     sample_AcquireSprite sample_AcquireTexture sample_world = true /\
   always_writable "res/start.scene" = true /\
   (length (scene_bytes (objects sample_world) (numObjects sample_world))
    <= maxBytes)%nat) /\
  serialized_scene
    (objects (LoadScene sample_AcquireScript sample_AcquireCollisionMap
                sample_AcquireSprite sample_AcquireTexture
                (restarted (SaveScene always_writable sample_world
                              "res/start.scene"))
                "res/start.scene"))
    (numObjects (LoadScene sample_AcquireScript sample_AcquireCollisionMap
                   sample_AcquireSprite sample_AcquireTexture
                   (restarted (SaveScene always_writable sample_world
                                 "res/start.scene"))
                   "res/start.scene"))
  = serialized_scene (objects sample_world) (numObjects sample_world).
Proof.
  assert (Hwf : wf_scene sample_world = true) by (vm_compute; reflexivity).
  assert (Hcache : cache_has_scene sample_AcquireScript
                     sample_AcquireCollisionMap sample_AcquireSprite
                     sample_AcquireTexture sample_world = true)
    by (vm_compute; reflexivity).
  assert (Hfits : (length (scene_bytes (objects sample_world)
                             (numObjects sample_world)) <= maxBytes)%nat).
  { apply Nat.leb_le. vm_compute. reflexivity. }
  split; [repeat split; assumption|].
  exact (proj2 (SaveScene_LoadScene_roundtrip
                  sample_AcquireScript sample_AcquireCollisionMap
                  sample_AcquireSprite sample_AcquireTexture always_writable
                  sample_world
                  (restarted (SaveScene always_writable sample_world
                                "res/start.scene"))
                  "res/start.scene" Hwf Hcache eq_refl Hfits eq_refl eq_refl)).
Defined.

(** The sample world through the code itself: 282 bytes on disk, and the
    loaded table shows the same serialized fields. *)
Example SaveScene_LoadScene_sample :
  let saved := SaveScene always_writable sample_world "res/start.scene" in
  let loaded := LoadScene sample_AcquireScript sample_AcquireCollisionMap
                  sample_AcquireSprite sample_AcquireTexture
                  saved "res/start.scene" in
  length <$> (files saved !! "res/start.scene"%string)
  = Some (length (scene_bytes (objects sample_world) 3)) /\
  numObjects loaded = 3 /\
  serialized_scene (objects loaded) 3 = serialized_scene (objects sample_world) 3 /\
  numExpressions <$> (objects loaded !! 1%nat) = Some 0.
Proof. vm_compute. repeat split; reflexivity. Qed.

(** ** Beyond the save buffer *)

Lemma remaining_stream_of (bytes : list byte) :
  remaining (stream_of bytes) = bytes.
Proof.
  unfold remaining, stream_of. cbn [buffer size cursor].
  now rewrite drop_0, take_ge by lia.
Qed.

Lemma natural_ret {A : Type} (v : A) : natural (ret v).
Proof. intros s1 s2 H. auto. Qed.

Lemma natural_bind {A B : Type} (c : Reader A) (k : A -> Reader B) :
  natural c -> (forall v : A, natural (k v)) -> natural (bind c k).
Proof.
  intros Hc Hk s1 s2 H. unfold bind.
  destruct (Hc s1 s2 H) as [Hv Hrem].
  destruct (c s1) as [v1 s1'], (c s2) as [v2 s2']. simpl in Hv, Hrem.
  subst v2. now apply Hk.
Qed.

Lemma natural_ReadBytes (n : nat) : natural (ReadBytes n).
Proof.
  intros s1 s2 H. unfold ReadBytes. simpl.
  now rewrite !remaining_advance, H.
Qed.

Lemma natural_ReadString : natural ReadString.
Proof.
  intros s1 s2 H. unfold ReadString. simpl.
  now rewrite !remaining_advance, H.
Qed.

Lemma natural_ReadInt : natural ReadInt.
Proof.
  apply natural_bind; [apply natural_ReadBytes | intros; apply natural_ret].
Qed.

Lemma natural_ReadFloat : natural ReadFloat.
Proof.
  apply natural_bind; [apply natural_ReadBytes | intros; apply natural_ret].
Qed.

Lemma natural_read_array {A : Type} (n : nat) (c : Reader A) :
  natural c -> natural (read_array n c).
Proof.
  intros Hc. induction n as [|n IH]; simpl.
  - apply natural_ret.
  - apply natural_bind; [exact Hc|]. intros v.
    apply natural_bind; [exact IH|]. intros vs. apply natural_ret.
Qed.

Section Crowd.

Variable AcquireScript : string -> Handle Script.
Variable AcquireCollisionMap : string -> Handle Image.
Variable AcquireSprite : string -> Handle Sprite.
Variable AcquireTexture : string -> Handle Texture.

Lemma natural_LoadObject (base : Object) :
  natural (LoadObject AcquireScript AcquireCollisionMap AcquireSprite
             AcquireTexture base).
Proof.
  unfold LoadObject.
  repeat (apply natural_bind;
          [first [apply natural_ReadString | apply natural_ReadFloat
                 | apply natural_ReadInt
                 | apply natural_read_array; first
                     [apply natural_ReadString
                     | unfold LoadExpression;
                       repeat (apply natural_bind;
                               [apply natural_ReadString | intros ?]);
                       apply natural_ret]]
          | intros ?]).
  apply natural_ret.
Qed.

(** The name an object gets from a stream depends on the bytes that remain
    only, not on the record it is loaded into. *)
Lemma LoadObject_name (base : Object) (s : BinaryStream) :
  name (fst (LoadObject AcquireScript AcquireCollisionMap AcquireSprite
               AcquireTexture base s))
  = CopyString (bytes_to_string (until_zero (remaining s))) OBJECT_NAME_SIZE.
Proof.
  unfold LoadObject, bind, ReadString at 1.
  repeat match goal with
         | |- context [let (_, _) := ?c in _] => destruct c
         end.
  reflexivity.
Qed.

(** Once the stream is exhausted, an object that is loaded leaves it
    exhausted and gets the empty name. *)
Lemma LoadObject_exhausted (base : Object) (s : BinaryStream) :
  remaining s = [] ->
  name (fst (LoadObject AcquireScript AcquireCollisionMap AcquireSprite
               AcquireTexture base s)) = EmptyString /\
  remaining (snd (LoadObject AcquireScript AcquireCollisionMap AcquireSprite
                    AcquireTexture base s)) = [].
Proof.
  intros Hrem. split.
  - rewrite LoadObject_name, Hrem. reflexivity.
  - destruct (natural_LoadObject base s (stream_of []))
      as [_ ->]; [now rewrite remaining_stream_of|].
    reflexivity.
Qed.

Lemma LoadObjects_exhausted (count : nat) :
  forall (i : nat) (objs : list Object) (s : BinaryStream),
    remaining s = [] ->
    let loaded := fst (LoadObjects AcquireScript AcquireCollisionMap
                         AcquireSprite AcquireTexture count i objs s) in
    length loaded = length objs /\
    (forall j : nat, (j < i)%nat -> loaded !! j = objs !! j) /\
    (forall j : nat,
       (i <= j < i + count)%nat -> (j < length objs)%nat ->
       name <$> loaded !! j = Some EmptyString).
Proof.
  induction count as [|count IH]; intros i objs s Hrem; cbn [LoadObjects].
  - unfold ret. cbn [fst]. repeat split; auto. intros j Hj. lia.
  - unfold bind.
    destruct (LoadObject_exhausted (default Object_zero (objs !! i)) s Hrem)
      as [Hname Hrem'].
    destruct (LoadObject _ _ _ _ _ s) as [object s']. cbn [fst snd] in Hname, Hrem'.
    destruct (IH (S i) (<[i := object]> objs) s' Hrem')
      as (Hlength & Hbefore & Hafter).
    rewrite length_insert in Hlength, Hafter.
    split; [exact Hlength|]. split.
    + intros j Hj. rewrite Hbefore by lia. apply list_lookup_insert_ne. lia.
    + intros j Hj Hroom. destruct (decide (j = i)) as [->|Hne].
      * rewrite Hbefore by lia. rewrite list_lookup_insert_eq by lia.
        simpl. now rewrite Hname.
      * apply Hafter; lia.
Qed.

Lemma LoadObjects_app (a b : nat) :
  forall (i : nat) (objs : list Object) (s : BinaryStream),
    LoadObjects AcquireScript AcquireCollisionMap AcquireSprite AcquireTexture
      (a + b) i objs s
    = let (objs1, s1) :=
        LoadObjects AcquireScript AcquireCollisionMap AcquireSprite
          AcquireTexture a i objs s in
      LoadObjects AcquireScript AcquireCollisionMap AcquireSprite
        AcquireTexture b (i + a) objs1 s1.
Proof.
  induction a as [|a IH]; intros i objs s; cbn [LoadObjects Nat.add].
  - unfold ret. now rewrite Nat.add_0_r.
  - unfold bind. destruct (LoadObject _ _ _ _ _ s) as [object s'].
    rewrite IH. now replace (S i + a)%nat with (i + S a)%nat by lia.
Qed.

Lemma LoadObjects_one (i : nat) (objs : list Object) (s : BinaryStream) :
  LoadObjects AcquireScript AcquireCollisionMap AcquireSprite AcquireTexture
    1 i objs s
  = let (object, s') :=
      LoadObject AcquireScript AcquireCollisionMap AcquireSprite
        AcquireTexture (default Object_zero (objs !! i)) s in
    (<[i := object]> objs, s').
Proof. reflexivity. Qed.

(** The header of a scene file, read by [LoadScene]: what is left is the
    loading loop over the bytes that follow the count. *)
Lemma LoadScene_header (w : World) (path : string) (n : Z) (body : list byte) :
  files w !! path
  = Some (SCENE_MAGIC ++ int_to_bytes SCENE_VERSION ++ int_to_bytes n ++ body) ->
  - 2 ^ 31 <= n < 2 ^ 31 ->
  exists s : BinaryStream,
    remaining s = body /\
    LoadScene AcquireScript AcquireCollisionMap AcquireSprite AcquireTexture
      w path
    = {| objects :=
           fst (LoadObjects AcquireScript AcquireCollisionMap AcquireSprite
                  AcquireTexture (Z.to_nat n) 0
                  (Destroy_all (objects w) (numObjects w)) s);
         numObjects := n;
         lastSavedOrLoadedScene := CopyString path SCENE_PATH_SIZE;
         files := files w;
         log := log w ++ [Info_LoadedScene path] |}.
Proof.
  intros Hfile Hn.
  remember (SCENE_MAGIC ++ int_to_bytes SCENE_VERSION
            ++ int_to_bytes n ++ body) as content eqn:Hcontent.
  assert (Hcons : exists c content', content = c :: content')
    by (rewrite Hcontent; eexists _, _; reflexivity).
  destruct Hcons as (c & content' & Hcons).
  unfold LoadScene. rewrite Hfile, Hcons, <- Hcons.
  change {| buffer := content; size := length content; cursor := 0 |}
    with (stream_of content).
  assert (Hrem0 : remaining (stream_of content)
                  = SCENE_MAGIC ++ int_to_bytes SCENE_VERSION
                    ++ int_to_bytes n ++ body)
    by (rewrite remaining_stream_of; exact Hcontent).
  destruct (reads_ReadBytes SCENE_MAGIC _ _ Hrem0)
    as (magic & stream1 & Hrun1 & Hrem1 & <-).
  change (length SCENE_MAGIC) with 4%nat in Hrun1. rewrite Hrun1.
  cbv beta iota.
  change (BytesEqual SCENE_MAGIC SCENE_MAGIC 4) with true. cbn [negb].
  destruct (reads_ReadInt SCENE_VERSION ltac:(unfold SCENE_VERSION; lia)
              _ _ Hrem1)
    as (version & stream2 & Hrun2 & Hrem2 & <-).
  rewrite Hrun2. cbv beta iota. rewrite Z.eqb_refl. cbn [negb].
  destruct (reads_ReadInt n Hn _ _ Hrem2)
    as (count & stream3 & Hrun3 & Hrem3 & <-).
  rewrite Hrun3. cbv beta iota.
  exists stream3. split; [exact Hrem3|].
  now destruct (LoadObjects _ _ _ _ _ _ _ stream3).
Qed.

End Crowd.

Lemma length_concat_replicate {A : Type} (f : A -> list byte) (k : nat) (v : A) :
  length (concat (map f (replicate k v))) = (k * length (f v))%nat.
Proof.
  induction k as [|k IH]; simpl; [reflexivity|].
  now rewrite length_app, IH.
Qed.

Lemma take_cut (capacity r : nat) (header whole cut tail : list byte) :
  (length header + length whole + r = capacity)%nat ->
  (r <= length cut)%nat ->
  take capacity (header ++ whole ++ cut ++ tail)
  = header ++ whole ++ take r cut.
Proof.
  intros Hcapacity Hr.
  rewrite take_app, take_ge by lia. f_equal.
  rewrite take_app, take_ge by lia. f_equal.
  rewrite take_app_le by lia. f_equal. lia.
Qed.

(** The crowded world on disk: the header, 44 whole objects, and the 45th
    object cut four bytes short by the end of the 32 KiB buffer. *)
Lemma crowded_file :
  take maxBytes (scene_bytes (objects crowded_world) (numObjects crowded_world))
  = SCENE_MAGIC ++ int_to_bytes SCENE_VERSION ++ int_to_bytes 100
    ++ (concat (map object_bytes (replicate 44 villager))
        ++ take 724 (object_bytes villager)).
Proof.
  assert (Hbytes :
    scene_bytes (objects crowded_world) (numObjects crowded_world)
    = (SCENE_MAGIC ++ int_to_bytes SCENE_VERSION ++ int_to_bytes 100)
      ++ concat (map object_bytes (replicate 44 villager))
      ++ object_bytes villager
      ++ concat (map object_bytes (replicate 55 villager))).
  { unfold scene_bytes. cbn [objects numObjects crowded_world].
    rewrite <- !app_assoc.
    apply (f_equal (app SCENE_MAGIC)).
    apply (f_equal (app (int_to_bytes SCENE_VERSION))).
    apply (f_equal (app (int_to_bytes 100))).
    rewrite <- (map_map (fun i => default Object_zero
                                   (array_get (replicate 100 villager) i))
                        object_bytes).
    rewrite (take_as_map Object_zero (replicate 100 villager) 100)
      by (rewrite length_replicate; lia).
    change (take (Z.to_nat 100) (replicate 100 villager))
      with (replicate 44 villager ++ villager :: replicate 55 villager).
    rewrite map_app, concat_app. reflexivity. }
  assert (Hobject : length (object_bytes villager) = 728%nat) by reflexivity.
  rewrite Hbytes.
  rewrite (take_cut maxBytes 724).
  - now rewrite <- !app_assoc.
  - rewrite length_concat_replicate, Hobject.
    change (length (SCENE_MAGIC ++ int_to_bytes SCENE_VERSION ++ int_to_bytes 100))
      with 12%nat.
    unfold maxBytes. lia.
  - rewrite Hobject. lia.
Qed.

(** What [LoadScene] makes of the crowded world's file: the loading loop
    over 44 whole objects and one that is cut. *)
Lemma crowded_load :
  exists s : BinaryStream,
    remaining s = concat (map object_bytes (replicate 44 villager))
                  ++ take 724 (object_bytes villager) /\
    LoadScene sample_AcquireScript sample_AcquireCollisionMap
      sample_AcquireSprite sample_AcquireTexture
      (SaveScene always_writable crowded_world "crowd.scene") "crowd.scene"
    = {| objects :=
           fst (LoadObjects sample_AcquireScript sample_AcquireCollisionMap
                  sample_AcquireSprite sample_AcquireTexture 100 0
                  (Destroy_all (replicate 100 villager) 100) s);
         numObjects := 100;
         lastSavedOrLoadedScene := CopyString "crowd.scene" SCENE_PATH_SIZE;
         files := {[ "crowd.scene"%string :=
                       take maxBytes (scene_bytes (objects crowded_world)
                                        (numObjects crowded_world)) ]};
         log := [Info_SavedScene "crowd.scene"; Info_LoadedScene "crowd.scene"] |}.
Proof.
  rewrite (SaveScene_file always_writable crowded_world "crowd.scene" eq_refl).
  match goal with
  | |- context [LoadScene _ _ _ _ ?w _] => set (saved := w)
  end.
  destruct (LoadScene_header sample_AcquireScript sample_AcquireCollisionMap
              sample_AcquireSprite sample_AcquireTexture saved "crowd.scene"
              100 (concat (map object_bytes (replicate 44 villager))
                   ++ take 724 (object_bytes villager)))
    as (s & Hrem & Hload).
  - unfold saved. cbn [files]. rewrite lookup_insert_eq.
    now rewrite crowded_file.
  - lia.
  - exists s. split; [exact Hrem|]. rewrite Hload. reflexivity.
Qed.

(** The loading loop on those bytes: the stream is exhausted after the 45th
    object, and the hundredth gets the empty name. *)
Lemma crowded_last_name (s : BinaryStream) (destroyed : list Object) :
  remaining s = concat (map object_bytes (replicate 44 villager))
                ++ take 724 (object_bytes villager) ->
  length destroyed = 100%nat ->
  name <$> fst (LoadObjects sample_AcquireScript sample_AcquireCollisionMap
                  sample_AcquireSprite sample_AcquireTexture 100 0
                  destroyed s) !! 99%nat
  = Some EmptyString.
Proof.
  intros Hrem Hdestroyed.
  change 100%nat with (44 + (1 + 55))%nat at 1.
  rewrite LoadObjects_app.
  destruct (reads_LoadObjects sample_AcquireScript sample_AcquireCollisionMap
              sample_AcquireSprite sample_AcquireTexture
              (replicate 44 villager) 0 destroyed
              ltac:(vm_compute; reflexivity) ltac:(vm_compute; reflexivity)
              ltac:(rewrite length_replicate; lia)
              s _ Hrem)
    as (loaded1 & s1 & Hrun1 & Hrem1 & Hlength1 & _).
  rewrite length_replicate in Hrun1. rewrite Hrun1. clear Hrun1.
  cbv beta iota. rewrite LoadObjects_app, LoadObjects_one.
  set (base := default Object_zero (loaded1 !! (0 + 44)%nat)).
  destruct (natural_LoadObject sample_AcquireScript
              sample_AcquireCollisionMap sample_AcquireSprite
              sample_AcquireTexture base s1
              (stream_of (take 724 (object_bytes villager))))
    as [_ Hrem2]; [now rewrite remaining_stream_of|].
  assert (Hend : remaining (snd (LoadObject sample_AcquireScript
                   sample_AcquireCollisionMap sample_AcquireSprite
                   sample_AcquireTexture base
                   (stream_of (take 724 (object_bytes villager))))) = [])
    by reflexivity.
  rewrite Hend in Hrem2. clear Hend.
  destruct (LoadObject _ _ _ _ base s1) as [object2 s2]. cbn [snd] in Hrem2.
  pose proof (LoadObjects_exhausted sample_AcquireScript
                sample_AcquireCollisionMap sample_AcquireSprite
                sample_AcquireTexture 55 (0 + 44 + 1)
                (<[(0 + 44)%nat := object2]> loaded1) s2 Hrem2)
    as (_ & _ & Hnames).
  cbv zeta in Hnames. rewrite length_insert in Hnames.
  apply Hnames; lia.
Qed.

(** C1: the round trip fails on a table within capacity.  The crowded world
    holds a hundred objects with ten expressions each, every string within
    its array; its serialization takes 72 812 bytes and the save buffer of
    [SaveScene] has 32 768.  [SaveScene] writes a file of 32 768 bytes and
    logs success; [LoadScene] of that file logs success too, finds 44 whole
    objects in it, and the last object of the table, saved as "villager",
    comes back with an empty name. *)
Theorem SaveScene_LoadScene_crowded :
  let saved := SaveScene always_writable crowded_world "crowd.scene" in
  let w' := LoadScene sample_AcquireScript sample_AcquireCollisionMap
              sample_AcquireSprite sample_AcquireTexture saved "crowd.scene" in
  wf_scene crowded_world = true /\
  Z.of_nat (length (scene_bytes (objects crowded_world)
                      (numObjects crowded_world))) = 72812 /\
  Z.of_nat maxBytes = 32768 /\
  (fun content => Z.of_nat (length content))
    <$> (files saved !! "crowd.scene"%string) = Some 32768 /\
  log w' = [Info_SavedScene "crowd.scene"; Info_LoadedScene "crowd.scene"] /\
  numObjects w' = 100 /\
  saved_name <$> (serialized_scene (objects crowded_world)
                    (numObjects crowded_world) !! 99%nat)
  = Some "villager"%string /\
  saved_name <$> (serialized_scene (objects w') (numObjects w') !! 99%nat)
  = Some EmptyString /\
  serialized_scene (objects w') (numObjects w')
  <> serialized_scene (objects crowded_world) (numObjects crowded_world).
Proof.
  intros saved w'.
  assert (Hwf : wf_scene crowded_world = true) by (vm_compute; reflexivity).
  assert (Hsize : Z.of_nat (length (scene_bytes (objects crowded_world)
                                      (numObjects crowded_world))) = 72812)
    by (vm_compute; reflexivity).
  assert (Hbuffer : Z.of_nat maxBytes = 32768) by reflexivity.
  assert (Hfile : (fun content => Z.of_nat (length content))
                    <$> (files saved !! "crowd.scene"%string) = Some 32768).
  { unfold saved.
    rewrite (SaveScene_file always_writable crowded_world "crowd.scene" eq_refl).
    cbn [files]. rewrite lookup_insert_eq. cbn [fmap option_fmap option_map].
    apply (f_equal Some). rewrite length_take. lia. }
  assert (Hold : saved_name <$> (serialized_scene (objects crowded_world)
                                   (numObjects crowded_world) !! 99%nat)
                 = Some "villager"%string) by reflexivity.
  assert (Hnew : log w' = [Info_SavedScene "crowd.scene";
                           Info_LoadedScene "crowd.scene"] /\
                 numObjects w' = 100 /\
                 saved_name <$> (serialized_scene (objects w') (numObjects w')
                                 !! 99%nat) = Some EmptyString).
  { destruct crowded_load as (s & Hrem & Hload). unfold w', saved.
    rewrite Hload. cbn [numObjects objects log].
    split; [reflexivity|]. split; [reflexivity|].
    pose proof (crowded_last_name s (Destroy_all (replicate 100 villager) 100)
                  Hrem ltac:(rewrite Destroy_all_length; apply length_replicate))
      as Hname.
    set (loaded := fst (LoadObjects _ _ _ _ _ _ _ s)) in *. clearbody loaded.
    unfold serialized_scene. rewrite map_fmap, list_lookup_fmap.
    rewrite lookup_take_lt by (change (Z.to_nat 100) with 100%nat; lia).
    destruct (loaded !! 99%nat) as [o|]; [|discriminate].
    cbn [fmap option_fmap option_map] in Hname. injection Hname as Hname.
    cbn [fmap option_fmap option_map serialized saved_name].
    now rewrite Hname. }
  destruct Hnew as (Hlog & Hcount & Hname).
  split; [exact Hwf|]. split; [exact Hsize|]. split; [exact Hbuffer|].
  split; [exact Hfile|]. split; [exact Hlog|]. split; [exact Hcount|].
  split; [exact Hold|]. split; [exact Hname|].
  intros Hsame. rewrite Hsame, Hold in Hname. discriminate Hname.
Qed.

(** ** Looking objects and portraits up *)

Section LookupFacts.

Variable StringsEqualNocase : string -> string -> bool.

Lemma FindObjectByName_from_spec (slots : list Object) (sought : string) (i : nat) :
  match FindObjectByName_from StringsEqualNocase i slots sought with
  | Some found =>
      (i <= found)%nat /\
      (exists object : Object,
         slots !! (found - i)%nat = Some object /\
         StringsEqualNocase (name object) sought = true) /\
      (forall (j : nat) (other : Object),
         (j < found - i)%nat -> slots !! j = Some other ->
         StringsEqualNocase (name other) sought = false)
  | None =>
      forall (j : nat) (other : Object),
        slots !! j = Some other ->
        StringsEqualNocase (name other) sought = false
  end.
Proof.
  revert i. induction slots as [|object rest IH]; intros i; simpl.
  - intros j other Hj. discriminate.
  - destruct (StringsEqualNocase (name object) sought) eqn:Hmatch.
    + split; [lia|]. rewrite Nat.sub_diag. split.
      * exists object. split; [reflexivity | exact Hmatch].
      * intros j other Hj. lia.
    + specialize (IH (S i)).
      destruct (FindObjectByName_from StringsEqualNocase (S i) rest sought)
        as [found|].
      * destruct IH as (Hle & (o & Ho & Hm) & Hbefore).
        split; [lia|].
        replace (found - i)%nat with (S (found - S i)) by lia.
        split.
        -- exists o. split; [exact Ho | exact Hm].
        -- intros [|j] other Hj Hother.
           ++ simpl in Hother. congruence.
           ++ apply (Hbefore j); [lia | exact Hother].
      * intros [|j] other Hother.
        -- simpl in Hother. congruence.
        -- apply (IH j). exact Hother.
Qed.

(** X1: [FindObjectByName] answers the lowest index among the first
    [numObjects] slots whose name equals the sought one (case aside), and NULL
    exactly when no such slot has the name: of two objects with one name the
    later one is never found, and slots past [numObjects] are never looked at. *)
Theorem FindObjectByName_first (objects : list Object) (numObjects : Z)
  (sought : string) :
  match FindObjectByName StringsEqualNocase objects numObjects sought with
  | Some found =>
      Z.of_nat found < numObjects /\
      (exists object : Object,
         objects !! found = Some object /\
         StringsEqualNocase (name object) sought = true) /\
      (forall (j : nat) (other : Object),
         (j < found)%nat -> objects !! j = Some other ->
         StringsEqualNocase (name other) sought = false)
  | None =>
      forall (j : nat) (other : Object),
        Z.of_nat j < numObjects -> objects !! j = Some other ->
        StringsEqualNocase (name other) sought = false
  end.
Proof.
  unfold FindObjectByName.
  pose proof (FindObjectByName_from_spec
                (take (Z.to_nat numObjects) objects) sought 0) as H.
  destruct (FindObjectByName_from StringsEqualNocase 0
              (take (Z.to_nat numObjects) objects) sought) as [found|].
  - destruct H as (_ & (o & Ho & Hm) & Hbefore).
    rewrite Nat.sub_0_r in Ho, Hbefore.
    apply lookup_take_Some in Ho as [Ho Hlt].
    split; [lia|]. split.
    + exists o. split; assumption.
    + intros j other Hj Hother. apply (Hbefore j); [exact Hj|].
      apply lookup_take_Some. split; [exact Hother | lia].
  - intros j other Hj Hother. apply (H j).
    apply lookup_take_Some. split; [exact Hother | lia].
Qed.

Lemma GetCharacterPortrait_scan_spec (named : list Expression) (sought : string) :
  match GetCharacterPortrait_scan StringsEqualNocase named sought with
  | Some expression =>
      exists j : nat,
        named !! j = Some expression /\
        StringsEqualNocase (expr_name expression) sought = true /\
        (forall (k : nat) (other : Expression),
           (k < j)%nat -> named !! k = Some other ->
           StringsEqualNocase (expr_name other) sought = false)
  | None =>
      forall (k : nat) (other : Expression),
        named !! k = Some other ->
        StringsEqualNocase (expr_name other) sought = false
  end.
Proof.
  induction named as [|expression rest IH]; simpl.
  - intros k other Hk. discriminate.
  - destruct (StringsEqualNocase (expr_name expression) sought) eqn:Hmatch.
    + exists 0%nat. split; [reflexivity|]. split; [exact Hmatch|].
      intros k other Hk. lia.
    + destruct (GetCharacterPortrait_scan StringsEqualNocase rest sought)
        as [found|].
      * destruct IH as (j & Hj & Hm & Hbefore).
        exists (S j). split; [exact Hj|]. split; [exact Hm|].
        intros [|k] other Hk Hother.
        -- simpl in Hother. congruence.
        -- apply (Hbefore k); [lia | exact Hother].
      * intros [|k] other Hother.
        -- simpl in Hother. congruence.
        -- apply (IH k). exact Hother.
Qed.

(** X2: [GetCharacterPortrait] yields the portrait of the first expression,
    among the object's first [numExpressions], whose name equals the sought
    one (case aside); when none has the name, and so whenever [numExpressions]
    is zero, it yields the portrait of expression 0. *)
Theorem GetCharacterPortrait_first_or_default (object : Object) (sought : string) :
  exists expression : Expression,
    GetCharacterPortrait StringsEqualNocase object sought
    = portrait_texture expression /\
    ((exists j : nat,
        Z.of_nat j < numExpressions object /\
        expressions object !! j = Some expression /\
        StringsEqualNocase (expr_name expression) sought = true /\
        (forall (k : nat) (other : Expression),
           (k < j)%nat -> expressions object !! k = Some other ->
           StringsEqualNocase (expr_name other) sought = false))
     \/
     (expression = default Expression_zero (expressions object !! 0%nat) /\
      (forall (k : nat) (other : Expression),
         Z.of_nat k < numExpressions object ->
         expressions object !! k = Some other ->
         StringsEqualNocase (expr_name other) sought = false))).
Proof.
  unfold GetCharacterPortrait.
  pose proof (GetCharacterPortrait_scan_spec
                (take (Z.to_nat (numExpressions object)) (expressions object))
                sought) as H.
  destruct (GetCharacterPortrait_scan StringsEqualNocase
              (take (Z.to_nat (numExpressions object)) (expressions object))
              sought) as [expression|].
  - destruct H as (j & Hj & Hm & Hbefore).
    apply lookup_take_Some in Hj as [Hj Hlt].
    exists expression. split; [reflexivity|]. left.
    exists j. split; [lia|]. split; [exact Hj|]. split; [exact Hm|].
    intros k other Hk Hother. apply (Hbefore k); [exact Hk|].
    apply lookup_take_Some. split; [exact Hother | lia].
  - eexists. split; [reflexivity|]. right. split; [reflexivity|].
    intros k other Hk Hother. apply (H k).
    apply lookup_take_Some. split; [exact Hother | lia].
Qed.

End LookupFacts.

(** ** Picking the object under a point *)

Lemma find_first {A : Type} (f : A -> bool) (l : list A) (a : A) :
  find f l = Some a ->
  exists before after : list A,
    l = before ++ a :: after /\ f a = true /\
    Forall (fun b => f b = false) before.
Proof.
  induction l as [|h t IH]; simpl; [discriminate|].
  destruct (f h) eqn:Hh.
  - intros [= ->]. exists [], t. repeat split; [exact Hh | constructor].
  - intros Hfind. destruct (IH Hfind) as (before & after & -> & Ha & Hbefore).
    exists (h :: before), after. repeat split; [exact Ha|].
    constructor; assumption.
Qed.

Lemma StronglySorted_after {A : Type} (R : A -> A -> Prop)
  (before after : list A) (a : A) :
  StronglySorted R (before ++ a :: after) -> Forall (R a) after.
Proof.
  induction before as [|h t IH]; simpl; intros Hsorted.
  - now apply StronglySorted_inv in Hsorted as [_ Hafter].
  - apply StronglySorted_inv in Hsorted as [Hsorted _]. now apply IH.
Qed.

Lemma leb_refl (a : float) : F32.is_nan a = false -> F32.leb a a = true.
Proof.
  unfold F32.leb, SFleb.
  destruct a as [s|s| |s m e]; try destruct s; simpl; try congruence;
    intros _; rewrite Z.compare_refl;
    change (Pos.compare_cont Eq m m) with (Pos.compare m m);
    now rewrite Pos.compare_refl.
Qed.

Section GeometryFacts.

Variable MirrorDirectionVertically : Direction -> Direction.
Variable CheckCollisionPointRec : Vector2 -> Rectangle -> bool.

(** X3: Every object of the scene table is in the draw list exactly once,
    whatever the sort keys are (NaN included). *)
Theorem GetZSortedObjects_each_once (objects : list Object) (numObjects : Z) :
  let sorted := GetZSortedObjects MirrorDirectionVertically objects numObjects in
  NoDup sorted /\
  length sorted = Z.to_nat numObjects /\
  (forall pointer : nat,
     In pointer sorted <-> (pointer < Z.to_nat numObjects)%nat).
Proof.
  intros sorted.
  pose proof (GetZSortedObjects_Permutation MirrorDirectionVertically
                objects numObjects) as Hperm.
  fold sorted in Hperm. split; [|split].
  - rewrite Hperm. apply NoDup_seq.
  - rewrite Hperm. apply length_seq.
  - intros pointer. rewrite Hperm, in_seq. lia.
Qed.

(** X4: [FindObjectAtPosition] answers an object of the scene whose outline
    holds the point, and NULL exactly when no outline of the scene holds it.
    When no sort key of the scene is NaN, the object it answers is the one in
    front: its key is at least the key of every object whose outline holds the
    point. *)
Theorem FindObjectAtPosition_frontmost (objects : list Object)
  (numObjects : Z) (point : Vector2) :
  let holds_point (pointer : nat) :=
    CheckCollisionPointRec point
      (GetOutline MirrorDirectionVertically (deref objects pointer)) in
  match FindObjectAtPosition MirrorDirectionVertically CheckCollisionPointRec
          objects numObjects point with
  | Some found =>
      (found < Z.to_nat numObjects)%nat /\
      holds_point found = true /\
      ((forall pointer : nat,
          (pointer < Z.to_nat numObjects)%nat ->
          F32.is_nan (z_key MirrorDirectionVertically objects pointer) = false) ->
       forall other : nat,
         (other < Z.to_nat numObjects)%nat -> holds_point other = true ->
         F32.leb (z_key MirrorDirectionVertically objects other)
                 (z_key MirrorDirectionVertically objects found) = true)
  | None =>
      forall other : nat,
        (other < Z.to_nat numObjects)%nat -> holds_point other = false
  end.
Proof.
  intros holds_point. unfold FindObjectAtPosition.
  fold holds_point.
  pose proof (GetZSortedObjects_Permutation MirrorDirectionVertically
                objects numObjects) as Hperm.
  set (sorted := GetZSortedObjects MirrorDirectionVertically objects numObjects)
    in *.
  assert (Hin : forall p : nat, In p sorted <-> (p < Z.to_nat numObjects)%nat).
  { intros p. rewrite Hperm, in_seq. lia. }
  destruct (find holds_point sorted) as [found|] eqn:Hfind.
  - destruct (find_first _ _ _ Hfind) as (before & after & Hsplit & Hhit & Hbefore).
    assert (Hfound : In found sorted)
      by (rewrite Hsplit; apply in_or_app; right; now left).
    split; [now apply Hin|]. split; [exact Hhit|].
    intros Hkeys other Hother Hhit_other.
    assert (Hsorted : descending MirrorDirectionVertically objects sorted).
    { unfold descending, sorted, GetZSortedObjects.
      apply (Sort_sorted _ (z_key MirrorDirectionVertically objects)).
      - intros p q. apply compare_z_key.
      - apply Forall_forall. intros p Hp.
        apply list_elem_of_In, in_seq in Hp. apply Hkeys. lia. }
    apply Hin in Hother. rewrite Hsplit in Hother.
    apply in_app_or in Hother as [Hother | [<- | Hother]].
    + rewrite Forall_forall in Hbefore.
      apply list_elem_of_In, Hbefore in Hother. congruence.
    + apply leb_refl, Hkeys. now apply Hin.
    + unfold descending in Hsorted. rewrite Hsplit in Hsorted.
      apply StronglySorted_after in Hsorted.
      rewrite Forall_forall in Hsorted.
      now apply Hsorted, list_elem_of_In.
  - intros other Hother.
    apply (find_none _ _ Hfind). now apply Hin.
Qed.

End GeometryFacts.

Lemma FindObjectAtPosition_frontmost_witness :
  (forall pointer : nat,
     (pointer < Z.to_nat 3)%nat ->
     F32.is_nan (z_key sample_MirrorDirectionVertically sample_scene pointer)
     = false) /\
  FindObjectAtPosition sample_MirrorDirectionVertically
    sample_CheckCollisionPointRec sample_scene 3 (vec 640 400) = Some 0%nat /\
  forall other : nat,
    (other < Z.to_nat 3)%nat ->
    sample_CheckCollisionPointRec (vec 640 400)
      (GetOutline sample_MirrorDirectionVertically (deref sample_scene other))
    = true ->
    F32.leb (z_key sample_MirrorDirectionVertically sample_scene other)
            (z_key sample_MirrorDirectionVertically sample_scene 0) = true.
Proof.
  assert (Hkeys : forall pointer : nat,
            (pointer < Z.to_nat 3)%nat ->
            F32.is_nan (z_key sample_MirrorDirectionVertically sample_scene pointer)
            = false).
  { intros [|[|[|p]]] Hp; reflexivity. }
  split; [exact Hkeys|]. split; [reflexivity|].
  pose proof (FindObjectAtPosition_frontmost sample_MirrorDirectionVertically
                sample_CheckCollisionPointRec sample_scene 3 (vec 640 400))
    as Hfront.
  cbv zeta in Hfront.
  change (FindObjectAtPosition sample_MirrorDirectionVertically
            sample_CheckCollisionPointRec sample_scene 3 (vec 640 400))
    with (Some 0%nat) in Hfront.
  exact (proj2 (proj2 Hfront) Hkeys).
Defined.

(** ** The per-frame update of an object *)

Lemma gtb_infinity (a : float) : F32.gtb a (S754_infinity false) = false.
Proof. destruct a as [s|s| |s m e]; try destruct s; reflexivity. Qed.

Lemma int_rem_range (a b : Z) :
  0 <= a -> 0 < b ->
  exists next : Z, int_rem a b = Some next /\ 0 <= next < b.
Proof.
  intros Ha Hb. unfold int_rem.
  destruct (Z.eqb_spec b 0); [lia|].
  destruct (Z.eqb_spec a F32.INT_MIN) as [Hmin|_];
    [unfold F32.INT_MIN in Hmin; lia|].
  simpl. exists (Z.rem a b). split; [reflexivity|].
  apply Z.rem_bound_pos; lia.
Qed.

Lemma wrap_int_small (z : Z) : F32.in_int z -> wrap_int z = z.
Proof.
  unfold F32.in_int, F32.INT_MIN, F32.INT_MAX, wrap_int. intros Hz.
  rewrite Z.mod_small; lia.
Qed.

(** The animation loop keeps a frame index that is inside the sprite inside
    it, and does not fault on a sprite that has frames. *)
Lemma animate_range (fuel : nat) (t : float) (n : Z) (acc : float) (frame : Z) :
  0 < n <= F32.INT_MAX -> 0 <= frame < n ->
  match animate fuel t n acc frame with
  | Done (_, frame') => 0 <= frame' < n
  | Crash => False
  | OutOfFuel => True
  end.
Proof.
  intros Hn. revert acc frame.
  induction fuel as [|fuel IH]; intros acc frame Hframe; simpl.
  - destruct (F32.gtb acc t); [exact I | exact Hframe].
  - destruct (F32.gtb acc t); [|exact Hframe].
    rewrite wrap_int_small
      by (unfold F32.in_int, F32.INT_MIN, F32.INT_MAX in *; lia).
    destruct (int_rem_range (frame + 1) n) as (next & -> & Hnext); [lia | lia|].
    apply IH. exact Hnext.
Qed.

Lemma gtb_zero_sign (a : float) (s : bool) :
  F32.gtb a (S754_zero s) = F32.gtb a F32.zero.
Proof. destruct a as [sa|sa| |sa m e]; try destruct sa; reflexivity. Qed.

Lemma sub_zero (a : float) (s : bool) :
  F32.gtb a (S754_zero s) = true -> a -f S754_zero s = a.
Proof. destruct a as [sa|sa| |sa m e]; try destruct sa; try discriminate; reflexivity. Qed.

(** With a frame time of zero and an accumulated time above it the loop
    outlasts every bound. *)
Lemma animate_zero_time (fuel : nat) (s : bool) (n : Z) (acc : float) (frame : Z) :
  F32.gtb acc (S754_zero s) = true ->
  0 < n <= F32.INT_MAX -> 0 <= frame < n ->
  animate fuel (S754_zero s) n acc frame = OutOfFuel.
Proof.
  intros Hacc Hn. revert frame.
  induction fuel as [|fuel IH]; intros frame Hframe; simpl; rewrite Hacc;
    [reflexivity|].
  rewrite wrap_int_small
    by (unfold F32.in_int, F32.INT_MIN, F32.INT_MAX in *; lia).
  destruct (int_rem_range (frame + 1) n) as (next & -> & Hnext); [lia | lia|].
  rewrite (sub_zero _ _ Hacc). apply IH. exact Hnext.
Qed.

(** When the loop leaves after [laps] rounds, every iteration bound of at
    least [laps] gives the same result, and no round faults on a sprite that
    has frames. *)
Lemma animate_leaves (laps : nat) (t : float) (n : Z) :
  0 < n <= F32.INT_MAX ->
  forall (acc : float) (frame : Z),
    0 <= frame < n ->
    leaves_after laps t acc = true ->
    exists (acc' : float) (frame' : Z),
      forall fuel : nat,
        (laps <= fuel)%nat -> animate fuel t n acc frame = Done (acc', frame').
Proof.
  intros Hn. induction laps as [|laps IH]; intros acc frame Hframe Hleaves;
    simpl in Hleaves.
  - apply negb_true_iff in Hleaves. exists acc, frame. intros fuel _.
    destruct fuel; simpl; now rewrite Hleaves.
  - apply andb_true_iff in Hleaves as [Habove Hleaves].
    destruct (int_rem_range (frame + 1) n) as (next & Hnext & Hrange);
      [lia | lia|].
    destruct (IH (acc -f t) next Hrange Hleaves) as (acc' & frame' & Hrun).
    exists acc', frame'. intros [|fuel] Hfuel; [lia|].
    simpl. rewrite Habove.
    rewrite wrap_int_small
      by (unfold F32.in_int, F32.INT_MIN, F32.INT_MAX in *; lia).
    rewrite Hnext. apply Hrun. lia.
Qed.

Section ObjectUpdateFacts.

Variable FRAME_TIME : float.
Variable Vector2_eq : Vector2 -> Vector2 -> bool.
Variable MirrorDirectionVertically : Direction -> Direction.
Variable Vector2Normalize : Vector2 -> Vector2.
Variable DirectionFromVector : Vector2 -> Direction.

Local Abbreviation Update_Object' :=
  (Update_Object FRAME_TIME MirrorDirectionVertically Vector2Normalize
     DirectionFromVector).
Local Abbreviation Update_motion' :=
  (Update_motion FRAME_TIME Vector2Normalize DirectionFromVector).

(** The motion half touches the position, the direction and the motion
    controller, and when the controller is idle after its own update, the
    controller alone. *)
Lemma Update_motion_fields (object : Object) :
  let object' := Update_motion' object in
  motionMaster object' = Update FRAME_TIME (motionMaster object) /\
  animationFrame object' = animationFrame object /\
  animationTimeAccumulator object' = animationTimeAccumulator object /\
  sprites object' = sprites object /\
  (isMoving (motionMaster object') = true ->
   position object' = currentPoint (motionMaster object')) /\
  (isMoving (motionMaster object') = false ->
   position object' = position object /\
   direction object' = direction object).
Proof.
  unfold Update_motion. simpl.
  destruct (isMoving (Update FRAME_TIME (motionMaster object))) eqn:Hmoving;
    simpl; rewrite ?Hmoving; repeat split; intros; try reflexivity;
    discriminate.
Qed.

(** X5: Take an object that has no current sprite, or one whose sprite has
    frames and whose animation loop leaves after [laps] rounds.  On the frame
    on which its motion arrives (the elapsed time would pass the arrival
    time), [Update] returns, with every iteration bound of at least [laps];
    it puts the controller's current point on the end point and stops it, but
    leaves the object where the frame before had put it, facing as before:
    the position follows the controller only on frames after which it is
    still moving. *)
Theorem Update_Object_arrival_frame (laps : nat) (object : Object) :
  match GetCurrentSprite MirrorDirectionVertically object with
  | Some sprite =>
      0 < numFrames (asset_data sprite) <= F32.INT_MAX /\
      0 <= animationFrame object < numFrames (asset_data sprite) /\
      leaves_after laps (F32.of_Z 1 /f animationFps object)
        (animationTimeAccumulator object +f FRAME_TIME) = true
  | None => True
  end ->
  isMoving (motionMaster object) = true ->
  F32.leb (motionTime (motionMaster object)
           +f FRAME_TIME *f speed (motionMaster object))
          (arrivalTime (motionMaster object)) = false ->
  exists object' : Object,
    (forall fuel : nat,
       (laps <= fuel)%nat -> Update_Object' fuel object = Done object') /\
    position object' = position object /\
    direction object' = direction object /\
    isMoving (motionMaster object') = false /\
    currentPoint (motionMaster object') = endPoint (motionMaster object).
Proof.
  intros Hleaves Hmoving Hpast.
  assert (Hsprite : exists animated : Object,
            (forall fuel : nat,
               (laps <= fuel)%nat ->
               Update_sprite FRAME_TIME MirrorDirectionVertically fuel object
               = Done animated) /\
            motionMaster animated = motionMaster object /\
            position animated = position object /\
            direction animated = direction object).
  { unfold Update_sprite.
    destruct (GetCurrentSprite MirrorDirectionVertically object) as [sprite|].
    - destruct Hleaves as (Hn & Hframe & Hleaves).
      destruct (animate_leaves laps _ _ Hn _ _ Hframe Hleaves)
        as (acc & frame & Hrun).
      exists (set_animation object acc frame).
      split; [|repeat split]. intros fuel Hfuel. now rewrite (Hrun fuel Hfuel).
    - exists object. repeat split. }
  destruct Hsprite as (animated & Hrun & Hm & Hp & Hd).
  destruct (Update_motion_fields animated) as (Hmotion & _ & _ & _ & _ & Hidle).
  cbv zeta in Hmotion, Hidle.
  assert (Hafter : Update FRAME_TIME (motionMaster animated)
                   = {| currentPoint := endPoint (motionMaster object);
                        isMoving := false;
                        startPoint := Vector2Zero;
                        endPoint := Vector2Zero;
                        motionTime := F32.zero;
                        arrivalTime := F32.zero;
                        speed := F32.ten |}).
  { rewrite Hm, (Update_moving FRAME_TIME _ Hmoving). cbv zeta.
    now rewrite Hpast. }
  rewrite Hafter in Hmotion. rewrite Hmotion in Hidle. simpl in Hidle.
  destruct (Hidle eq_refl) as [Hpos Hdir].
  exists (Update_motion' animated). split.
  - intros fuel Hfuel. unfold Update_Object. now rewrite (Hrun fuel Hfuel).
  - rewrite Hmotion. simpl. rewrite Hpos, Hdir, Hp, Hd. repeat split.
Qed.

(** X6: With a sprite that has frames, and an animation frame inside the
    sprite, [Update] does not fault, and when it returns the animation frame
    is inside the sprite again. *)
Theorem Update_Object_frame_in_range (fuel : nat) (object : Object)
  (sprite : Asset Sprite) :
  GetCurrentSprite MirrorDirectionVertically object = Some sprite ->
  0 < numFrames (asset_data sprite) <= F32.INT_MAX ->
  0 <= animationFrame object < numFrames (asset_data sprite) ->
  match Update_Object' fuel object with
  | Done object' =>
      0 <= animationFrame object' < numFrames (asset_data sprite) /\
      sprites object' = sprites object
  | Crash => False
  | OutOfFuel => True
  end.
Proof.
  intros Hsprite Hn Hframe. unfold Update_Object, Update_sprite.
  rewrite Hsprite.
  pose proof (animate_range fuel (F32.of_Z 1 /f animationFps object)
                (numFrames (asset_data sprite))
                (animationTimeAccumulator object +f FRAME_TIME)
                (animationFrame object) Hn Hframe) as Hloop.
  destruct (animate _ _ _ _ _) as [[acc frame]| |]; simpl; try exact Hloop.
  destruct (Update_motion_fields (set_animation object acc frame))
    as (_ & -> & _ & -> & _).
  simpl. split; [exact Hloop | reflexivity].
Qed.

(** X7: An object whose [animationFps] is zero (a prop that does not animate;
    the value of a zero-filled slot) is never advanced a frame: the frame time
    is plus infinity, the loop body does not run, and [Update] returns
    whatever the iteration bound, none included. *)
Theorem Update_Object_fps_zero (fuel : nat) (object : Object) :
  animationFps object = F32.zero ->
  exists object' : Object,
    Update_Object' fuel object = Done object' /\
    animationFrame object' = animationFrame object.
Proof.
  intros Hfps. unfold Update_Object, Update_sprite. rewrite Hfps.
  change (F32.of_Z 1 /f F32.zero) with (S754_infinity false).
  destruct (GetCurrentSprite MirrorDirectionVertically object) as [sprite|].
  - assert (Hloop : forall acc frame,
              animate fuel (S754_infinity false) (numFrames (asset_data sprite))
                acc frame = Done (acc, frame)).
    { intros acc frame. destruct fuel; simpl; now rewrite gtb_infinity. }
    rewrite Hloop. simpl. eexists. split; [reflexivity|].
    now destruct (Update_motion_fields
                    (set_animation object
                       (animationTimeAccumulator object +f FRAME_TIME)
                       (animationFrame object))) as (_ & -> & _).
  - simpl. eexists. split; [reflexivity|].
    now destruct (Update_motion_fields object) as (_ & -> & _).
Qed.

(** X8: An infinite [animationFps] hangs the game. The frame time [1 / fps] is
    then zero; once the accumulated time is above zero the loop takes nothing
    off it and its test never fails: with a sprite that has frames, [Update]
    is still looping after any number of iterations. *)
Theorem Update_Object_fps_infinite (fuel : nat) (object : Object)
  (sprite : Asset Sprite) (negative : bool) :
  GetCurrentSprite MirrorDirectionVertically object = Some sprite ->
  0 < numFrames (asset_data sprite) <= F32.INT_MAX ->
  0 <= animationFrame object < numFrames (asset_data sprite) ->
  animationFps object = S754_infinity negative ->
  F32.gtb (animationTimeAccumulator object +f FRAME_TIME) F32.zero = true ->
  Update_Object' fuel object = OutOfFuel.
Proof.
  intros Hsprite Hn Hframe Hfps Hacc. unfold Update_Object, Update_sprite.
  rewrite Hsprite, Hfps.
  change (F32.of_Z 1 /f S754_infinity negative) with (S754_zero negative).
  rewrite (animate_zero_time fuel negative); [reflexivity | | exact Hn | exact Hframe].
  now rewrite gtb_zero_sign.
Qed.

End ObjectUpdateFacts.

Lemma Update_Object_arrival_frame_witness :
  leaves_after 10
    (F32.of_Z 1 /f animationFps (set_animation arriving_walker (F32.of_Z 1) 3))
    (animationTimeAccumulator (set_animation arriving_walker (F32.of_Z 1) 3)
     +f sample_FRAME_TIME) = true /\
  exists object' : Object,
    (forall fuel : nat,
       (10 <= fuel)%nat ->
       Update_Object sample_FRAME_TIME sample_MirrorDirectionVertically
         sample_Vector2Normalize facing_right fuel
         (set_animation arriving_walker (F32.of_Z 1) 3)
       = Done object') /\
    position object' = position arriving_walker /\
    direction object' = direction arriving_walker /\
    isMoving (motionMaster object') = false /\
    currentPoint (motionMaster object') = endPoint (motionMaster arriving_walker).
Proof.
  split; [vm_compute; reflexivity|].
  apply (Update_Object_arrival_frame sample_FRAME_TIME
           sample_MirrorDirectionVertically sample_Vector2Normalize
           facing_right 10 (set_animation arriving_walker (F32.of_Z 1) 3)).
  - vm_compute. repeat split; congruence.
  - reflexivity.
  - reflexivity.
Defined.

(** The arriving walker through the code itself: the controller is on the
    end point (30, 40) and at rest, the walker still at (3, 4). *)
Example Update_Object_arrival_sample :
  Update_Object sample_FRAME_TIME sample_MirrorDirectionVertically
    sample_Vector2Normalize facing_right 8 arriving_walker
  = Done (set_motionMaster
            (set_animation arriving_walker sample_FRAME_TIME 0)
            {| currentPoint := vec 30 40; isMoving := false;
               startPoint := Vector2Zero; endPoint := Vector2Zero;
               motionTime := F32.zero; arrivalTime := F32.zero;
               speed := F32.ten |}) /\
  position arriving_walker = vec 3 4.
Proof. vm_compute. split; reflexivity. Qed.

Lemma Update_Object_frame_in_range_witness :
  animationFrame (set_animation walker (F32.of_Z 1) 3) = 3 /\
  match Update_Object sample_FRAME_TIME sample_MirrorDirectionVertically
          sample_Vector2Normalize facing_right 20
          (set_animation walker (F32.of_Z 1) 3) with
  | Done object' => 0 <= animationFrame object' < 4 /\
                    sprites object' = sprites (set_animation walker (F32.of_Z 1) 3)
  | Crash => False
  | OutOfFuel => True
  end.
Proof.
  split; [reflexivity|].
  refine (Update_Object_frame_in_range sample_FRAME_TIME
            sample_MirrorDirectionVertically sample_Vector2Normalize
            facing_right 20 (set_animation walker (F32.of_Z 1) 3)
            {| asset_path := "res/walk";
               asset_data :=
                 {| numFrames := 4;
                    frames := replicate 4 {| tex_width := 50; tex_height := 90 |} |} |}
            eq_refl _ _); vm_compute; split; congruence.
Defined.

(** A second at ten frames a second: the walker is advanced ten frames,
    from frame 3 to frame 1 of its four. *)
Example Update_Object_run :
  match Update_Object sample_FRAME_TIME sample_MirrorDirectionVertically
          sample_Vector2Normalize facing_right 20
          (set_animation walker (F32.of_Z 1) 3) with
  | Done object' => animationFrame object' = 1
  | _ => False
  end.
Proof. vm_compute. reflexivity. Qed.

Lemma Update_Object_fps_zero_witness :
  exists object' : Object,
    Update_Object sample_FRAME_TIME sample_MirrorDirectionVertically
      sample_Vector2Normalize facing_right 0
      (set_animationFps walker F32.zero) = Done object' /\
    animationFrame object' = animationFrame (set_animationFps walker F32.zero).
Proof.
  exact (Update_Object_fps_zero sample_FRAME_TIME
           sample_MirrorDirectionVertically sample_Vector2Normalize
           facing_right 0 (set_animationFps walker F32.zero) eq_refl).
Defined.

Lemma Update_Object_fps_infinite_witness :
  F32.gtb (animationTimeAccumulator
             (set_animationFps walker (S754_infinity false))
           +f sample_FRAME_TIME) F32.zero = true /\
  Update_Object sample_FRAME_TIME sample_MirrorDirectionVertically
    sample_Vector2Normalize facing_right 1000
    (set_animationFps walker (S754_infinity false)) = OutOfFuel.
Proof.
  split; [reflexivity|].
  refine (Update_Object_fps_infinite sample_FRAME_TIME
            sample_MirrorDirectionVertically sample_Vector2Normalize
            facing_right 1000 (set_animationFps walker (S754_infinity false))
            {| asset_path := "res/walk";
               asset_data :=
                 {| numFrames := 4;
                    frames := replicate 4 {| tex_width := 50; tex_height := 90 |} |} |}
            false eq_refl _ _ eq_refl eq_refl); vm_compute; split; congruence.
Defined.

(** ** Console commands *)

Lemma set_motionMaster_same (o : Object) : set_motionMaster o (motionMaster o) = o.
Proof. now destruct o. Qed.

Lemma insert_deref_same (objects : list Object) :
  <[0%nat := deref objects 0]> objects = objects.
Proof. now destruct objects. Qed.

Lemma two_arguments {A : Type} (args : list A) :
  length args = 2%nat -> exists a0 a1 : A, args = [a0; a1].
Proof.
  destruct args as [|a0 [|a1 [|a2 rest]]]; try discriminate.
  intros _. now exists a0, a1.
Qed.

Section CommandFacts.

Variable FRAME_TIME : float.
Variable Vector2_eq : Vector2 -> Vector2 -> bool.
Variable ParseCommandFloatArg : string -> option float.
Variable ParseCommandBoolArg : string -> option bool.

(** X9: The [tp] command succeeds exactly when it is given two arguments that
    both parse as floats. When it fails the object table is untouched; when it
    succeeds the player stands at exactly the coordinates given, nothing else
    of the player has changed, and no other object has. *)
Theorem HandlePlayerTeleportCommand_effect (args : list string)
  (objects : list Object) :
  let result := HandlePlayerTeleportCommand ParseCommandFloatArg args objects in
  (fst result = true <->
   exists (a0 a1 : string) (px py : float),
     args = [a0; a1] /\
     ParseCommandFloatArg a0 = Some px /\ ParseCommandFloatArg a1 = Some py) /\
  (fst result = false -> snd result = objects) /\
  (forall (a0 a1 : string) (px py : float),
     args = [a0; a1] ->
     ParseCommandFloatArg a0 = Some px -> ParseCommandFloatArg a1 = Some py ->
     snd result
     = <[0%nat := set_position (deref objects 0) (mkVector2 px py)]> objects /\
     (forall i : nat, i <> 0%nat -> snd result !! i = objects !! i)).
Proof.
  intros result. unfold result, HandlePlayerTeleportCommand.
  destruct ((length args <? 2)%nat || (2 <? length args)%nat) eqn:Hcount.
  - assert (Hlen : length args <> 2%nat).
    { intros Hlen. rewrite Hlen in Hcount. discriminate. }
    simpl. split; [|split].
    + split; [discriminate|].
      intros (a0 & a1 & px & py & -> & _). now contradiction Hlen.
    + reflexivity.
    + intros a0 a1 px py ->. now contradiction Hlen.
  - assert (Hlen : length args = 2%nat).
    { apply orb_false_iff in Hcount as [H1 H2].
      apply Nat.ltb_ge in H1, H2. lia. }
    destruct (two_arguments args Hlen) as (a0 & a1 & ->). simpl.
    destruct (ParseCommandFloatArg a0) as [px|] eqn:H0;
      destruct (ParseCommandFloatArg a1) as [py|] eqn:H1; simpl.
    + split; [|split].
      * split; [|reflexivity]. intros _. now exists a0, a1, px, py.
      * discriminate.
      * intros b0 b1 qx qy [= <- <-] Hq0 Hq1.
        rewrite H0 in Hq0. rewrite H1 in Hq1.
        injection Hq0 as <-. injection Hq1 as <-.
        split; [reflexivity|].
        intros i Hi. now apply list_lookup_insert_ne.
    + split; [|split]; [| reflexivity |].
      * split; [discriminate|].
        intros (b0 & b1 & qx & qy & [= <- <-] & _ & Hq1). congruence.
      * intros b0 b1 qx qy [= <- <-] _ Hq1. congruence.
    + split; [|split]; [| reflexivity |].
      * split; [discriminate|].
        intros (b0 & b1 & qx & qy & [= <- <-] & Hq0 & _). congruence.
      * intros b0 b1 qx qy [= <- <-] Hq0 _. congruence.
    + split; [|split]; [| reflexivity |].
      * split; [discriminate|].
        intros (b0 & b1 & qx & qy & [= <- <-] & Hq0 & _). congruence.
      * intros b0 b1 qx qy [= <- <-] Hq0 _. congruence.
Qed.

(** What a [move] command with two arguments that parse does. *)
Lemma HandleMoveTo_started (objects : list Object) (a0 a1 : string)
  (px py : float) :
  (0 < length objects)%nat ->
  ParseCommandFloatArg a0 = Some px ->
  ParseCommandFloatArg a1 = Some py ->
  let player := deref objects 0 in
  let finish := Vector2Add (position player) (mkVector2 px py) in
  exists objects' : list Object,
    HandleMoveTo Vector2_eq ParseCommandFloatArg [a0; a1] objects
    = (true, objects') /\
    (forall i : nat, i <> 0%nat -> objects' !! i = objects !! i) /\
    let player' := deref objects' 0 in
    position player' = position player /\
    if Vector2_eq (position player) finish then objects' = objects
    else
      isMoving (motionMaster player') = true /\
      startPoint (motionMaster player') = position player /\
      endPoint (motionMaster player') = finish /\
      arrivalTime (motionMaster player')
      = Vector2Distance (position player) finish /f speed (motionMaster player) /\
      motionTime (motionMaster player') = motionTime (motionMaster player) /\
      currentPoint (motionMaster player') = currentPoint (motionMaster player).
Proof.
  intros Hroom H0 H1 player finish.
  assert (Hrun : HandleMoveTo Vector2_eq ParseCommandFloatArg [a0; a1] objects
                 = (true, <[0%nat := MoveToPoint_Object Vector2_eq player
                                       (mkVector2 px py)]> objects)).
  { unfold HandleMoveTo.
    change (negb (length [a0; a1] =? 2)%nat) with false. cbv iota.
    change (default EmptyString ([a0; a1] !! 0%nat)) with a0.
    change (default EmptyString ([a0; a1] !! 1%nat)) with a1.
    now rewrite H0, H1. }
  eexists. split; [exact Hrun|]. split.
  - intros i Hi. now apply list_lookup_insert_ne.
  - cbv zeta.
    assert (Hplayer : forall o : Object, deref (<[0%nat := o]> objects) 0 = o).
    { intros o. unfold deref. now rewrite list_lookup_insert_eq by exact Hroom. }
    rewrite !Hplayer.
    split; [reflexivity|].
    unfold MoveToPoint_Object, MoveToPoint. fold finish.
    destruct (Vector2_eq (position player) finish).
    + rewrite set_motionMaster_same. apply insert_deref_same.
    + repeat split.
Qed.

(** When a [move] command fails, and when it does not. *)
Lemma HandleMoveTo_refused (args : list string) (objects : list Object) :
  let result := HandleMoveTo Vector2_eq ParseCommandFloatArg args objects in
  (fst result = false -> snd result = objects) /\
  (fst result = true ->
   exists (a0 a1 : string) (px py : float),
     args = [a0; a1] /\
     ParseCommandFloatArg a0 = Some px /\ ParseCommandFloatArg a1 = Some py).
Proof.
  intros result. unfold result, HandleMoveTo.
  destruct (length args =? 2)%nat eqn:Hcount; simpl.
  - apply Nat.eqb_eq in Hcount.
    destruct (two_arguments args Hcount) as (a0 & a1 & ->). simpl.
    destruct (ParseCommandFloatArg a0) as [px|] eqn:H0;
      destruct (ParseCommandFloatArg a1) as [py|] eqn:H1; simpl;
      split; try discriminate; try reflexivity.
    intros _. now exists a0, a1, px, py.
  - split; [reflexivity | discriminate].
Qed.

(** X10: The [shake] command fails, and leaves the camera shake as it is,
    exactly when it is given more than two arguments or an argument that does
    not parse as a float. When it succeeds the trauma given (0.5 when none is)
    is added to the trauma there is, and the falloff rate becomes the one
    given (the default when none is). *)
Theorem HandleCameraShakeCommand_effect (args : list string) (c : CameraShake) :
  let result := HandleCameraShakeCommand FRAME_TIME ParseCommandFloatArg args c in
  let parses (arg : option string) :=
    match arg with
    | Some word => is_Some (ParseCommandFloatArg word)
    | None => True
    end in
  (fst result = true <->
   (length args <= 2)%nat /\ parses (args !! 0%nat) /\ parses (args !! 1%nat)) /\
  (fst result = false -> snd result = c) /\
  (fst result = true ->
   cameraTrauma (snd result)
   = cameraTrauma c
     +f default DEFAULT_CAMERA_SHAKE_TRAUMA
          (args !! 0%nat ≫= ParseCommandFloatArg) /\
   cameraTraumaFalloff (snd result)
   = default (DEFAULT_CAMERA_SHAKE_FALLOFF FRAME_TIME)
       (args !! 1%nat ≫= ParseCommandFloatArg)).
Proof.
  intros result parses. unfold result, HandleCameraShakeCommand.
  destruct (2 <? length args)%nat eqn:Hcount; simpl.
  - apply Nat.ltb_lt in Hcount. split; [|split].
    + split; [discriminate|]. intros (Hlen & _). lia.
    + reflexivity.
    + discriminate.
  - apply Nat.ltb_ge in Hcount.
    destruct (args !! 0%nat) as [w0|] eqn:Ha0;
      destruct (args !! 1%nat) as [w1|] eqn:Ha1; simpl;
      try destruct (ParseCommandFloatArg w0) as [t|] eqn:H0;
      try destruct (ParseCommandFloatArg w1) as [f|] eqn:H1; simpl;
      (split; [|split]);
      try reflexivity; try discriminate;
      try (intros _; split; reflexivity);
      try (split; [intros _; repeat split; auto; eexists; reflexivity
                  | reflexivity]);
      try (split; [discriminate|];
           intros (_ & Hp0 & Hp1);
           first [ now apply is_Some_None in Hp0
                 | now apply is_Some_None in Hp1 ]).
Qed.


(** X12: The [dev] command fails, and leaves the developer mode as it is,
    exactly when its first argument does not parse as a boolean. Without an
    argument it flips the mode, so that giving it twice restores the mode;
    with an argument that parses it sets the mode to it whatever the mode was,
    and whatever follows the first argument is not looked at. *)
Theorem HandleToggleDevModeCommand_effect (args : list string) (devMode : bool) :
  let result := HandleToggleDevModeCommand ParseCommandBoolArg args devMode in
  (fst result = false <->
   exists (arg : string) (rest : list string),
     args = arg :: rest /\ ParseCommandBoolArg arg = None) /\
  (fst result = false -> snd result = devMode) /\
  (args = [] ->
   snd result = negb devMode /\
   HandleToggleDevModeCommand ParseCommandBoolArg [] (snd result)
   = (true, devMode)) /\
  (forall (arg : string) (rest : list string) (value : bool),
     args = arg :: rest -> ParseCommandBoolArg arg = Some value ->
     result = (true, value)).
Proof.
  intros result. unfold result, HandleToggleDevModeCommand.
  destruct args as [|arg rest].
  - split; [|split; [|split]].
    + split; [discriminate|]. intros (a & r & Hargs & _). discriminate.
    + discriminate.
    + intros _. cbn [snd]. now rewrite negb_involutive.
    + intros a r v Hargs. discriminate.
  - destruct (ParseCommandBoolArg arg) as [value|] eqn:Hparse;
      (split; [|split; [|split]]).
    + split; [discriminate|].
      intros (a & r & [= <- <-] & Hnone). congruence.
    + discriminate.
    + discriminate.
    + intros a r v [= <- <-] Hv. rewrite Hparse in Hv. now injection Hv as <-.
    + split; [|reflexivity]. intros _. now exists arg, rest.
    + reflexivity.
    + discriminate.
    + intros a r v [= <- <-] Hv. congruence.
Qed.

End CommandFacts.


(** [move 1 0] in the sample scene: the player is sent from (640, 360) to
    (641, 360), a motion of a tenth of a second, and has not moved yet;
    [move 0 0] changes nothing. *)
Example HandleMoveTo_sample :
  let moved := snd (HandleMoveTo Vector2_eq_ieee sample_ParseCommandFloatArg
                      ["1"; "0"]%string sample_scene) in
  isMoving (motionMaster (deref moved 0)) = true /\
  endPoint (motionMaster (deref moved 0)) = vec 641 360 /\
  arrivalTime (motionMaster (deref moved 0)) = F32.of_Z 1 /f F32.of_Z 10 /\
  position (deref moved 0) = vec 640 360 /\
  HandleMoveTo Vector2_eq_ieee sample_ParseCommandFloatArg
    ["0"; "0"]%string sample_scene = (true, sample_scene).
Proof. vm_compute. repeat split; reflexivity. Qed.

(** ** The scene file: what is checked, what is kept *)

Lemma Destroy_all_lookup (objs : list Object) (n : Z) (j : nat) :
  Destroy_all objs n !! j
  = if decide (j < Z.to_nat n)%nat
    then (fun _ => Object_zero) <$> objs !! j
    else objs !! j.
Proof.
  unfold Destroy_all.
  assert (H : forall (count start : nat) (l : list Object),
            fold_left (fun objects i => <[i := Object_zero]> objects)
              (seq start count) l !! j
            = if decide (start <= j < start + count)%nat
              then (fun _ => Object_zero) <$> l !! j
              else l !! j).
  { induction count as [|count IH]; intros start l; simpl.
    - destruct (decide _); [lia | reflexivity].
    - rewrite IH.
      destruct (decide (j = start)) as [->|Hne].
      + destruct (decide (S start <= start < _)%nat); [lia|].
        destruct (decide (start <= start < _)%nat); [|lia].
        destruct (decide (start < length l)%nat) as [Hlt|Hge].
        * rewrite list_lookup_insert_eq by exact Hlt.
          destruct (lookup_lt_is_Some_2 l start Hlt) as [o ->]. reflexivity.
        * rewrite !lookup_ge_None_2; [reflexivity | lia |].
          rewrite length_insert. lia.
      + rewrite list_lookup_insert_ne by congruence.
        destruct (decide (S start <= j < _)%nat);
          destruct (decide (start <= j < _)%nat); try lia; reflexivity. }
  rewrite H. destruct (decide (0 <= j < 0 + _)%nat);
    destruct (decide (j < _)%nat); try lia; reflexivity.
Qed.

Section SceneFacts.

Variable AcquireScript : string -> Handle Script.
Variable AcquireCollisionMap : string -> Handle Image.
Variable AcquireSprite : string -> Handle Sprite.
Variable AcquireTexture : string -> Handle Texture.
Variable writable : string -> bool.

Local Abbreviation LoadObject' :=
  (LoadObject AcquireScript AcquireCollisionMap AcquireSprite AcquireTexture).
Local Abbreviation LoadObjects' :=
  (LoadObjects AcquireScript AcquireCollisionMap AcquireSprite AcquireTexture).
Local Abbreviation LoadScene' :=
  (LoadScene AcquireScript AcquireCollisionMap AcquireSprite AcquireTexture).

(** The fields the file does not hold are those of the record the object is
    loaded into. *)
Lemma LoadObject_keeps (base : Object) (s : BinaryStream) :
  let object := fst (LoadObject' base s) in
  numExpressions object = numExpressions base /\
  motionMaster object = motionMaster base /\
  animationFrame object = animationFrame base /\
  animationTimeAccumulator object = animationTimeAccumulator base.
Proof.
  unfold LoadObject, bind.
  repeat match goal with
         | |- context [let (_, _) := ?c in _] => destruct c
         end.
  repeat split.
Qed.

(** The loading loop assigns the slots from [i] on, one per object read, and
    no other. *)
Lemma LoadObjects_slots (count : nat) :
  forall (i : nat) (objs : list Object) (s : BinaryStream),
    let loaded := fst (LoadObjects' count i objs s) in
    length loaded = length objs /\
    (forall j : nat,
       (j < i \/ i + count <= j)%nat -> loaded !! j = objs !! j) /\
    (forall j : nat,
       (i <= j < i + count)%nat -> (j < length objs)%nat ->
       exists s' : BinaryStream,
         loaded !! j
         = Some (fst (LoadObject' (default Object_zero (objs !! j)) s'))).
Proof.
  induction count as [|count IH]; intros i objs s; cbn [LoadObjects].
  - unfold ret. cbn [fst]. repeat split; auto. intros j Hj. lia.
  - unfold bind.
    destruct (LoadObject' (default Object_zero (objs !! i)) s)
      as [object s'] eqn:Hobject.
    destruct (IH (S i) (<[i := object]> objs) s') as (Hlength & Hout & Hin).
    rewrite length_insert in Hlength, Hin.
    split; [exact Hlength|]. split.
    + intros j Hj. rewrite Hout by lia. apply list_lookup_insert_ne. lia.
    + intros j Hj Hroom. destruct (decide (j = i)) as [->|Hne].
      * rewrite Hout by lia. rewrite list_lookup_insert_eq by lia.
        exists s. now rewrite Hobject.
      * destruct (Hin j) as (s'' & Hj'); [lia | lia|].
        exists s''. rewrite Hj'.
        assert (Hsame : <[i := object]> objs !! j = objs !! j)
          by (apply list_lookup_insert_ne; intros Heq; apply Hne;
              symmetry; exact Heq).
        rewrite Hsame. reflexivity.
Qed.

(** What [LoadScene] does to a file whose header it finds in order. *)
Lemma LoadScene_accepted (w : World) (path : string) (content : list byte) :
  files w !! path = Some content ->
  scene_header_ok content = true ->
  exists s : BinaryStream,
    LoadScene' w path
    = {| objects :=
           fst (LoadObjects'
                  (Z.to_nat (bytes_to_int (take 4 (drop 8 content)))) 0
                  (Destroy_all (objects w) (numObjects w)) s);
         numObjects := bytes_to_int (take 4 (drop 8 content));
         lastSavedOrLoadedScene := CopyString path SCENE_PATH_SIZE;
         files := files w;
         log := log w ++ [Info_LoadedScene path] |}.
Proof.
  intros Hfile Hok. unfold scene_header_ok in Hok.
  apply andb_true_iff in Hok as [Hmagic Hversion].
  apply bool_decide_eq_true in Hmagic. apply Z.eqb_eq in Hversion.
  assert (Hcons : exists c content', content = c :: content').
  { destruct content as [|c content']; [discriminate | now eexists _, _]. }
  destruct Hcons as (c & content' & Hcons).
  unfold LoadScene. rewrite Hfile, Hcons, <- Hcons.
  set (stream0 := {| buffer := content; size := length content; cursor := 0 |}).
  assert (Hrem0 : remaining stream0 = content).
  { unfold remaining, stream0. cbn [buffer size cursor].
    now rewrite drop_0, take_ge by lia. }
  unfold ReadBytes at 1. rewrite Hrem0, Hmagic.
  change (BytesEqual SCENE_MAGIC SCENE_MAGIC 4) with true. cbn [negb].
  unfold ReadInt at 1, bind at 1, ReadBytes at 1, ret at 1.
  rewrite remaining_advance, Hrem0, Hversion, Z.eqb_refl. cbn [negb].
  unfold ReadInt at 1, bind at 1, ReadBytes at 1, ret at 1.
  rewrite !remaining_advance, Hrem0, drop_drop. cbn [Nat.add].
  exists (advance (advance (advance stream0 4) 4) 4).
  now destruct (LoadObjects' _ _ _ (advance (advance (advance stream0 4) 4) 4)).
Qed.



(** X15: [SaveScene] never changes the scene table, and never writes more than
    the 32 KiB of its buffer. On a path that can be written the file is the
    serialization of the table cut to that size and the path is remembered; on
    a path that cannot, the disk and the remembered path stay as they were and
    the failure is logged. *)
Theorem SaveScene_effect (w : World) (path : string) :
  let w' := SaveScene writable w path in
  objects w' = objects w /\
  numObjects w' = numObjects w /\
  if writable path then
    files w' = <[path := take maxBytes (scene_bytes (objects w) (numObjects w))]>
                 (files w) /\
    (exists content : list byte,
       files w' !! path = Some content /\ (length content <= maxBytes)%nat) /\
    lastSavedOrLoadedScene w' = CopyString path SCENE_PATH_SIZE /\
    log w' = log w ++ [Info_SavedScene path]
  else
    files w' = files w /\
    lastSavedOrLoadedScene w' = lastSavedOrLoadedScene w /\
    log w' = log w ++ [Info_CouldNotSave path].
Proof.
  intros w'. destruct (writable path) eqn:Hwritable.
  - unfold w'. rewrite (SaveScene_file writable w path Hwritable).
    cbn [objects numObjects files lastSavedOrLoadedScene log].
    repeat split.
    eexists. split; [apply lookup_insert_eq|].
    rewrite length_take. lia.
  - unfold w', SaveScene, SaveFileData. rewrite Hwritable.
    repeat split.
Qed.

(** X16: Whatever [SaveScene] writes, [LoadScene] accepts: the file starts
    with the magic, the version and the object count even when the buffer was
    too small for the objects, so that loading it back does not fail, installs
    the count that was saved and remembers the path. *)
Theorem SaveScene_then_LoadScene_accepted (w : World) (path : string) :
  writable path = true ->
  - 2 ^ 31 <= numObjects w < 2 ^ 31 ->
  let saved := SaveScene writable w path in
  let w' := LoadScene' saved path in
  numObjects w' = numObjects w /\
  length (objects w') = length (objects w) /\
  lastSavedOrLoadedScene w' = CopyString path SCENE_PATH_SIZE /\
  files w' = files saved /\
  log w' = log w ++ [Info_SavedScene path; Info_LoadedScene path].
Proof.
  intros Hwritable Hcount saved w'.
  unfold w', saved. rewrite (SaveScene_file writable w path Hwritable).
  match goal with |- context [LoadScene' ?w0 path] => set (w1 := w0) end.
  assert (Hfile : exists body : list byte,
            files w1 !! path
            = Some (SCENE_MAGIC ++ int_to_bytes SCENE_VERSION
                    ++ int_to_bytes (numObjects w) ++ body)).
  { unfold w1. cbn [files]. rewrite lookup_insert_eq. unfold scene_bytes.
    eexists. f_equal. }
  destruct Hfile as (body & Hfile).
  destruct (LoadScene_header AcquireScript AcquireCollisionMap AcquireSprite
              AcquireTexture w1 path (numObjects w) body Hfile Hcount)
    as (s & _ & Hrun).
  rewrite Hrun. cbn [numObjects objects lastSavedOrLoadedScene files log].
  split; [reflexivity|]. split.
  - destruct (LoadObjects_slots (Z.to_nat (numObjects w)) 0
                (Destroy_all (objects w1) (numObjects w1)) s) as (Hlength & _).
    cbv zeta in Hlength. rewrite Hlength, Destroy_all_length. reflexivity.
  - repeat split. unfold w1. cbn [log]. now rewrite <- app_assoc.
Qed.



End SceneFacts.


Lemma SaveScene_then_LoadScene_accepted_witness :
  numObjects
    (LoadScene sample_AcquireScript sample_AcquireCollisionMap
       sample_AcquireSprite sample_AcquireTexture
       (SaveScene always_writable crowded_world "crowd.scene") "crowd.scene")
  = 100.
Proof.
  exact (proj1 (SaveScene_then_LoadScene_accepted sample_AcquireScript
                  sample_AcquireCollisionMap sample_AcquireSprite
                  sample_AcquireTexture always_writable crowded_world
                  "crowd.scene" eq_refl ltac:(simpl; lia))).
Defined.



(** ** The game states *)

Lemma ClampInt_range (value lo hi : Z) :
  lo <= hi -> lo <= ClampInt value lo hi <= hi.
Proof.
  intros Hle. unfold ClampInt.
  destruct (Z.ltb_spec value lo); [lia|].
  destruct (Z.gtb_spec value hi); lia.
Qed.

Lemma set_stack_same (g : Talking) : set_stack g (stack g) = g.
Proof. now destruct g. Qed.

Section StateFacts.

Variable FRAME_TIME : float.
Variable GetTimeInCurrentGameState : Z -> float.

Lemma Talking_clamp_index (g : Talking) :
  0 <= paragraphIndex g < numParagraphs g -> Talking_clamp g = g.
Proof.
  intros Hin. unfold Talking_clamp.
  destruct (Z.geb_spec (paragraphIndex g) (numParagraphs g)); [lia | reflexivity].
Qed.

Lemma Talking_key_left_index (input : TalkingInput) (g : Talking) :
  0 <= paragraphIndex g < numParagraphs g ->
  numParagraphs (Talking_key_left input g) = numParagraphs g /\
  0 <= paragraphIndex (Talking_key_left input g) < numParagraphs g.
Proof.
  intros Hin. unfold Talking_key_left.
  destruct (devMode g && key_left_pressed input); [|split; [reflexivity | exact Hin]].
  split; [reflexivity|].
  cbn [paragraphIndex set_stack set_paragraphIndex].
  pose proof (ClampInt_range (paragraphIndex g - 1) 0 (numParagraphs g - 1)
                ltac:(lia)).
  lia.
Qed.

Lemma Talking_key_right_index (input : TalkingInput) (g : Talking) :
  0 <= paragraphIndex g < numParagraphs g ->
  numParagraphs (Talking_key_right input g) = numParagraphs g /\
  0 <= paragraphIndex (Talking_key_right input g) < numParagraphs g.
Proof.
  intros Hin. unfold Talking_key_right.
  destruct (devMode g && key_right_pressed input); [|split; [reflexivity | exact Hin]].
  destruct (paragraphIndex g =? numParagraphs g - 1);
    [split; [reflexivity | exact Hin]|].
  split; [reflexivity|].
  cbn [paragraphIndex set_stack set_paragraphIndex].
  pose proof (ClampInt_range (paragraphIndex g + 1) 0 (numParagraphs g - 1)
                ltac:(lia)).
  lia.
Qed.

(** The clamp and the developer keys keep a paragraph index that is inside
    the script inside it. *)
Lemma before_interact_index (input : TalkingInput) (g : Talking) :
  0 <= paragraphIndex g < numParagraphs g ->
  0 <= paragraphIndex (before_interact input g) < numParagraphs g.
Proof.
  intros Hin. unfold before_interact.
  rewrite (Talking_clamp_index g Hin).
  destruct (Talking_key_left_index input g Hin) as [Hn Hleft].
  rewrite <- Hn in Hleft.
  destruct (Talking_key_right_index input _ Hleft) as [_ Hright].
  now rewrite Hn in Hright.
Qed.

(** X19: As long as the Talking state stays on the stack, the paragraph index
    is inside the script: a frame that starts with the index inside either
    leaves it inside, or is the frame on which an interact press at the last
    paragraph pops the state, with the index one past the end. The script's
    paragraphs are never changed. *)
Theorem Talking_Update_index_in_range (input : TalkingInput) (g : Talking) :
  0 <= paragraphIndex g < numParagraphs g ->
  let g' := Talking_Update FRAME_TIME GetTimeInCurrentGameState input g in
  paragraphs (talkingScript g') = paragraphs (talkingScript g) /\
  (0 <= paragraphIndex g' < numParagraphs g \/
   (paragraphIndex g' = numParagraphs g /\
    pause_wasPressed input = false /\ interact_wasPressed input = true /\
    stack g' = PopGameState (stack (before_interact input g)))).
Proof.
  intros Hin g'.
  pose proof (before_interact_index input g Hin) as Hbefore.
  pose proof (before_interact_frame input g) as (Hn & _).
  pose proof (Talking_Update_stack FRAME_TIME GetTimeInCurrentGameState input g)
    as Hcases. cbv zeta in Hcases. fold g' in Hcases.
  assert (Hscript : paragraphs (talkingScript g') = paragraphs (talkingScript g)).
  { unfold g', Talking_Update.
    destruct (pause_wasPressed input); [reflexivity|].
    fold (before_interact input g).
    assert (Hp : paragraphs (talkingScript (before_interact input g))
                 = paragraphs (talkingScript g)).
    { unfold before_interact, Talking_key_right, Talking_key_left, Talking_clamp.
      repeat match goal with
             | |- context [if ?c then _ else _] => destruct c
             end; reflexivity. }
    unfold Talking_finish.
    repeat match goal with
           | |- context [if ?c then _ else _] => destruct c
           end; cbn [talkingScript paragraphs set_stack set_paragraphIndex];
      exact Hp. }
  split; [exact Hscript|].
  destruct (pause_wasPressed input).
  - destruct Hcases as [_ ->]. left. exact Hin.
  - destruct (interact_wasPressed input); cbn [negb] in Hcases.
    + destruct (revealing GetTimeInCurrentGameState (before_interact input g)).
      * destruct Hcases as [_ ->]. left. exact Hbefore.
      * destruct (Z.geb_spec (paragraphIndex (before_interact input g) + 1)
                    (numParagraphs g)) as [Hlast|Hmore].
        -- destruct Hcases as [Hstack ->]. right.
           repeat split; [lia | exact Hstack].
        -- destruct Hcases as [_ ->]. left. lia.
    + destruct Hcases as [_ ->]. left. exact Hbefore.
Qed.

(** X20: Pausing a dialogue and leaving the pause gives the dialogue back as
    it was: the pause press pushes Paused without touching the paragraph
    index, the script or the camera shake, and the pause press in Paused pops
    back to a stack whose Talking entry still has its frame counter. *)
Theorem Talking_pause_and_resume (input : TalkingInput) (unpause : Input)
  (g : Talking) :
  pause_wasPressed input = true ->
  wasPressed (pause unpause) = true ->
  let paused := Talking_Update FRAME_TIME GetTimeInCurrentGameState input g in
  stack paused = PushGameState GAMESTATE_PAUSED (stack g) /\
  set_stack paused (Paused_Update unpause (stack paused)) = g.
Proof.
  intros Hpause Hunpause paused. unfold paused, Talking_Update, Paused_Update.
  rewrite Hpause, Hunpause. split; [reflexivity|].
  destruct g. reflexivity.
Qed.

End StateFacts.

Lemma Talking_Update_index_in_range_witness :
  0 <= paragraphIndex (Talking_Init sample_talking sample_script)
    < numParagraphs (Talking_Init sample_talking sample_script) /\
  paragraphs (talkingScript
                (Talking_Update sample_FRAME_TIME sample_GetTime press_interact
                   (Talking_Init sample_talking sample_script)))
  = paragraphs sample_script.
Proof.
  assert (Hin : 0 <= paragraphIndex (Talking_Init sample_talking sample_script)
                < numParagraphs (Talking_Init sample_talking sample_script))
    by (vm_compute; split; congruence).
  split; [exact Hin|].
  exact (proj1 (Talking_Update_index_in_range sample_FRAME_TIME sample_GetTime
                  press_interact (Talking_Init sample_talking sample_script)
                  Hin)).
Defined.

Lemma Talking_pause_and_resume_witness :
  set_stack
    (Talking_Update sample_FRAME_TIME sample_GetTime talking_pause sample_talking)
    (Paused_Update press_pause
       (stack (Talking_Update sample_FRAME_TIME sample_GetTime talking_pause
                 sample_talking)))
  = sample_talking.
Proof.
  exact (proj2 (Talking_pause_and_resume sample_FRAME_TIME sample_GetTime
                  talking_pause press_pause sample_talking eq_refl eq_refl)).
Defined.

(** ** The Playing state *)

Section PlayingFacts.

Variable FRAME_TIME : float.
Variable MirrorDirectionVertically : Direction -> Direction.
Variable CheckCollisionPointRec : Vector2 -> Rectangle -> bool.
Variable GetImageColor : Image -> Z -> Z -> Color.
Variable Vector2Length : Vector2 -> float.
Variable Vector2Normalize : Vector2 -> Vector2.
Variable Vector2Scale : Vector2 -> float -> Vector2.
Variable Vector2Lerp : Vector2 -> Vector2 -> float -> Vector2.
Variable Clamp01 : float -> float.
Variable Remap : float -> float -> float -> float -> float -> float.
Variable Vector2_times : float -> Vector2 -> Vector2.
Variable DirectionFromVector : Vector2 -> Direction.
Variable SliderFloat : string -> float -> float -> float -> float.

Local Abbreviation Playing_Update' :=
  (Playing_Update FRAME_TIME MirrorDirectionVertically CheckCollisionPointRec
     GetImageColor Vector2Length Vector2Normalize Vector2Scale Vector2Lerp
     Clamp01 Remap Vector2_times DirectionFromVector SliderFloat).
Local Abbreviation reach := (can_talk_to MirrorDirectionVertically).

Lemma Playing_talk_target_spec (player : Object) (slots : list Object) (i : nat) :
  match Playing_talk_target MirrorDirectionVertically player i slots with
  | Some found =>
      (i <= found)%nat /\
      (exists object : Object,
         slots !! (found - i)%nat = Some object /\ reach player object = true) /\
      (forall (j : nat) (other : Object),
         (j < found - i)%nat -> slots !! j = Some other ->
         reach player other = false)
  | None =>
      forall (j : nat) (other : Object),
        slots !! j = Some other -> reach player other = false
  end.
Proof.
  revert i. induction slots as [|object rest IH]; intros i; simpl.
  - intros j other Hj. discriminate.
  - assert (Hstep :
      Playing_talk_target MirrorDirectionVertically player i (object :: rest)
      = if reach player object then Some i
        else Playing_talk_target MirrorDirectionVertically player (S i) rest).
    { unfold can_talk_to. simpl. destruct (script object); reflexivity. }
    simpl in Hstep. rewrite Hstep. clear Hstep.
    destruct (reach player object) eqn:Hreach.
    + split; [lia|]. rewrite Nat.sub_diag. split.
      * exists object. split; [reflexivity | exact Hreach].
      * intros j other Hj. lia.
    + specialize (IH (S i)).
      destruct (Playing_talk_target MirrorDirectionVertically player (S i) rest)
        as [found|].
      * destruct IH as (Hle & (o & Ho & Hm) & Hbefore).
        split; [lia|].
        replace (found - i)%nat with (S (found - S i)) by lia.
        split.
        -- exists o. split; [exact Ho | exact Hm].
        -- intros [|j] other Hj Hother.
           ++ simpl in Hother. congruence.
           ++ apply (Hbefore j); [lia | exact Hother].
      * intros [|j] other Hother.
        -- simpl in Hother. congruence.
        -- apply (IH j). exact Hother.
Qed.


End PlayingFacts.


(** The sample game: the player stands 30 pixels from the character "A",
    who has a script, so an interact press starts the dialogue with slot 1
    and leaves the game as it is; without the press the frame goes on. *)
Example Playing_Update_sample :
  Playing_Update sample_FRAME_TIME sample_MirrorDirectionVertically
    sample_CheckCollisionPointRec sample_GetImageColor sample_Vector2Length
    sample_Vector2Normalize sample_Vector2Scale sample_Vector2Lerp
    sample_Clamp01 sample_Remap sample_Vector2_times facing_right
    sample_SliderFloat 8 press_interact_button sample_game
  = Done (sample_game,
          Some {| pushed := GAMESTATE_TALKING; param := Some 1%nat |}) /\
  match Playing_Update sample_FRAME_TIME sample_MirrorDirectionVertically
          sample_CheckCollisionPointRec sample_GetImageColor sample_Vector2Length
          sample_Vector2Normalize sample_Vector2Scale sample_Vector2Lerp
          sample_Clamp01 sample_Remap sample_Vector2_times facing_right
          sample_SliderFloat 8 idle_input sample_game with
  | Done (g', None) => game_numObjects g' = 3
  | _ => False
  end.
Proof. split; vm_compute; reflexivity. Qed.

(** ** Earlier iterations of the game file *)

Section EarlierFacts.

Variable GetImageColor : Image -> Z -> Z -> Color.

(** X22: In the iteration with one global collision map, a point never moves
    off the map nor onto a blocked pixel: [MovePointWithCollisions] either
    leaves the point where it is, or moves it to a target whose floored
    coordinates are inside the map, on a pixel whose red channel is at least
    128. A target with a NaN or infinite coordinate is refused. *)
Theorem MovePointWithCollisions_map_stays_inside (map : Image)
  (position velocity : Vector2) :
  let target := Vector2Add position velocity in
  let moved := MovePointWithCollisions_map GetImageColor map position velocity in
  moved = position \/
  (moved = target /\
   exists xi yi : Z,
     F32.floor (x target) = Some xi /\ F32.floor (y target) = Some yi /\
     0 <= xi < width map /\ 0 <= yi < height map /\
     128 <= r (GetImageColor map xi yi)).
Proof.
  intros target moved. unfold moved, MovePointWithCollisions_map.
  fold target. unfold CheckCollisionMap_xy.
  destruct (Z.ltb_spec (F32.floor_to_int (x target)) 0); [now left|].
  destruct (Z.geb_spec (F32.floor_to_int (x target)) (width map)); [now left|].
  destruct (Z.ltb_spec (F32.floor_to_int (y target)) 0); [now left|].
  destruct (Z.geb_spec (F32.floor_to_int (y target)) (height map)); [now left|].
  destruct (Z.ltb_spec
              (r (GetImageColor map (F32.floor_to_int (x target))
                    (F32.floor_to_int (y target)))) 128); [now left|].
  right. split; [reflexivity|].
  exists (F32.floor_to_int (x target)), (F32.floor_to_int (y target)).
  repeat split; auto using floor_to_int_nonneg; lia.
Qed.

End EarlierFacts.

Section DirectionIndexFacts.

Variable Vector2Atan : Vector2 -> float.
Variable Wrap : float -> float -> float -> float.
Variable PI : float.
Variable roundf : float -> float.

(** X23: [DirectionFromVector] always answers one of the eight directions,
    whatever the angle functions and the rounding give it (NaN included), so
    that the sprite arrays it indexes are never read outside: an index that is
    one of the eight already is the answer, an index of 8 (a full turn) or
    more is the direction to the right, and a negative index is the last
    direction, down right. *)
Theorem DirectionFromVector_valid (v : Vector2) :
  let index := raw_index Vector2Atan Wrap PI roundf v in
  let answer := DirectionFromVector Vector2Atan Wrap PI roundf v in
  0 <= answer < DIRECTION_ENUM_COUNT /\
  (0 <= index < DIRECTION_ENUM_COUNT -> answer = index) /\
  (DIRECTION_ENUM_COUNT <= index -> answer = DIRECTION_RIGHT) /\
  (index < 0 -> answer = DIRECTION_DOWN_RIGHT).
Proof.
  intros index answer. unfold answer, index, DirectionFromVector. cbv zeta.
  fold (raw_index Vector2Atan Wrap PI roundf v).
  generalize (raw_index Vector2Atan Wrap PI roundf v).
  clear index answer. intros index.
  unfold DIRECTION_ENUM_COUNT, DIRECTION_RIGHT, DIRECTION_DOWN_RIGHT.
  split; [test_cases; lia|].
  split; [intros Hindex; test_cases; lia|].
  split; intros Hindex; test_cases; lia.
Qed.

End DirectionIndexFacts.

Section SpriteManagerFacts.

Variable FRAME_TIME : float.

(** X24: [SpriteManager::Update] leaves an index that is inside the current
    sprite, for [Render] to read the texture at: when the manager has the
    sprite it points to, the sprite has textures, and the animation time
    truncates to an integer that is not negative, the update returns and the
    frame index is the truncated time modulo the number of textures (0 for a
    single texture). *)
Theorem SpriteManager_Update_index (m : SpriteManager)
  (sprites : list TextureList) (sprite : TextureList) (frames : list Texture) :
  manager_sprites m = Some sprites ->
  array_get sprites (_spriteIndex m) = Some sprite ->
  textures sprite = Some frames ->
  0 < Z.of_nat (length frames) ->
  0 <= float_to_int (_animationTime m) ->
  exists m' : SpriteManager,
    SpriteManager_Update FRAME_TIME m = Done m' /\
    0 <= _index m' < Z.of_nat (length frames) /\
    _index m' = float_to_int (_animationTime m) mod Z.of_nat (length frames) /\
    _spriteIndex m' = _spriteIndex m /\
    manager_sprites m' = manager_sprites m.
Proof.
  intros Hsprites Hsprite Hframes Hcount Htime.
  unfold SpriteManager_Update. rewrite Hsprites, Hsprite, Hframes.
  destruct (Z.eqb_spec (Z.of_nat (length frames)) 1) as [Hone|Hmore].
  - eexists. split; [reflexivity|]. cbn [_index _spriteIndex manager_sprites].
    rewrite Hone, Z.mod_1_r. repeat split; lia.
  - destruct (int_rem_range (float_to_int (_animationTime m))
                (Z.of_nat (length frames)) Htime Hcount)
      as (index & Hrem & Hindex).
    rewrite Hrem. eexists. split; [reflexivity|].
    cbn [_index _spriteIndex manager_sprites].
    split; [exact Hindex|]. split; [|split; reflexivity].
    unfold int_rem in Hrem.
    destruct (Z.of_nat (length frames) =? 0); [discriminate|].
    destruct ((float_to_int (_animationTime m) =? F32.INT_MIN)
              && (Z.of_nat (length frames) =? -1)); [discriminate|].
    injection Hrem as <-. apply Z.rem_mod_nonneg; lia.
Qed.

End SpriteManagerFacts.

Lemma SpriteManager_Update_index_witness :
  exists m' : SpriteManager,
    SpriteManager_Update sample_FRAME_TIME sample_manager = Done m' /\
    _index m' = 1.
Proof.
  destruct (SpriteManager_Update_index sample_FRAME_TIME sample_manager
              [ {| textures :=
                     Some (replicate 3 {| tex_width := 50; tex_height := 90 |}) |} ]
              {| textures :=
                   Some (replicate 3 {| tex_width := 50; tex_height := 90 |}) |}
              (replicate 3 {| tex_width := 50; tex_height := 90 |})
              eq_refl eq_refl eq_refl ltac:(simpl; lia) ltac:(vm_compute; discriminate))
    as (m' & Hrun & _ & Hindex & _).
  exists m'. split; [exact Hrun|]. rewrite Hindex. reflexivity.
Defined.

(** ** Signs in binary32 arithmetic *)

Section Rounding.

Local Abbreviation fexp32 := (fexp F32.prec F32.emax).

Lemma iter_pos_invariant {A : Type} (f : A -> A) (P : A -> Prop) :
  (forall a : A, P a -> P (f a)) ->
  forall (p : positive) (a : A), P a -> P (SpecFloat.iter_pos f p a).
Proof.
  intros Hstep. induction p as [p IH|p IH|]; intros a Ha; simpl; auto.
Qed.

Lemma shr_1_nonneg (mrs : shr_record) : 0 <= shr_m mrs -> 0 <= shr_m (shr_1 mrs).
Proof.
  destruct mrs as [m r s]. simpl.
  destruct m as [|[p|p|]|p]; simpl; lia.
Qed.

Lemma shr_fexp_nonneg (m e : Z) (l : location) :
  0 <= m -> 0 <= shr_m (fst (shr_fexp F32.prec F32.emax m e l)).
Proof.
  intros Hm. unfold shr_fexp, shr.
  assert (Hstart : 0 <= shr_m (shr_record_of_loc m l))
    by (destruct l as [|[| |]]; exact Hm).
  destruct (fexp32 (Zdigits2 m + e) - e) as [|p|p]; simpl; try exact Hstart.
  apply (iter_pos_invariant shr_1 (fun mrs => 0 <= shr_m mrs));
    [exact shr_1_nonneg | exact Hstart].
Qed.

Lemma round_nearest_even_nonneg (m : Z) (l : location) :
  0 <= m -> 0 <= round_nearest_even m l.
Proof.
  intros Hm. unfold round_nearest_even.
  destruct l as [|[| |]]; try destruct (Z.even m); lia.
Qed.

(** Rounding a non-negative mantissa yields a zero, a finite number or an
    infinity of the sign asked for: never NaN. *)
Lemma binary_round_aux_signed (s : bool) (m e : Z) (l : location) :
  0 <= m ->
  binary_round_aux F32.prec F32.emax s m e l
  = with_sign s (binary_round_aux F32.prec F32.emax false m e l) /\
  F32.is_nan (binary_round_aux F32.prec F32.emax s m e l) = false.
Proof.
  intros Hm. unfold binary_round_aux.
  pose proof (shr_fexp_nonneg m e l Hm) as H1.
  destruct (shr_fexp F32.prec F32.emax m e l) as [mrs' e'].
  cbn [fst] in H1.
  pose proof (shr_fexp_nonneg
                (round_nearest_even (shr_m mrs') (loc_of_shr_record mrs'))
                e' loc_Exact (round_nearest_even_nonneg _ _ H1)) as H2.
  destruct (shr_fexp F32.prec F32.emax _ e' loc_Exact) as [mrs'' e''].
  cbn [fst] in H2.
  destruct (shr_m mrs'') as [|p|p]; [| |lia].
  - split; reflexivity.
  - destruct (e'' <=? F32.emax - F32.prec); split; reflexivity.
Qed.

Lemma binary_round_signed (s : bool) (m : positive) (e : Z) :
  binary_round F32.prec F32.emax s m e
  = with_sign s (binary_round F32.prec F32.emax false m e) /\
  F32.is_nan (binary_round F32.prec F32.emax s m e) = false.
Proof.
  unfold binary_round.
  destruct (shl_align m e _) as [mz ez].
  apply binary_round_aux_signed. lia.
Qed.

End Rounding.

Lemma with_sign_idem (s t : bool) (f : float) :
  with_sign s (with_sign t f) = with_sign s f.
Proof. now destruct f. Qed.

Lemma mul_with_sign (s : bool) (f : float) :
  with_sign s f *f with_sign s f = f *f f.
Proof.
  destruct f as [t|t| |t m e]; simpl; try reflexivity;
    destruct s, t; reflexivity.
Qed.

(** The square of a difference does not depend on the order of the
    operands. *)
Lemma square_of_difference (u v : float) :
  (u -f v) *f (u -f v) = (v -f u) *f (v -f u).
Proof.
  destruct u as [su|su| |su mu eu], v as [sv|sv| |sv mv ev];
    try (destruct su, sv; reflexivity);
    try (destruct su; reflexivity);
    try (destruct sv; reflexivity);
    try reflexivity.
  unfold F32.sub, SFsub. rewrite (Z.min_comm ev eu).
  set (ez := Z.min eu ev).
  set (a := cond_Zopp su (Z.pos (fst (shl_align mu eu ez)))).
  set (b := cond_Zopp sv (Z.pos (fst (shl_align mv ev ez)))).
  replace (b - a) with (- (a - b)) by lia.
  destruct (a - b) as [|p|p]; simpl; [reflexivity| |].
  - destruct (binary_round_signed true p ez) as [-> _].
    apply eq_sym, mul_with_sign.
  - destruct (binary_round_signed true p ez) as [-> _].
    apply mul_with_sign.
Qed.

Section DistanceFacts.

Variable MirrorDirectionVertically : Direction -> Direction.


End DistanceFacts.

(** ** A controller without speed, and a camera at rest *)

Lemma mul_zero_finite (f : float) :
  is_finite f = true -> exists s : bool, f *f F32.zero = S754_zero s.
Proof.
  destruct f as [s|s| |s m e]; try discriminate; intros _; eexists; reflexivity.
Qed.

Lemma zero_add_zero (s : bool) : F32.zero +f S754_zero s = F32.zero.
Proof. now destruct s. Qed.

Lemma div_zero_positive (d : float) :
  F32.gtb d F32.zero = true -> d /f F32.zero = S754_infinity false.
Proof.
  destruct d as [s|s| |s m e]; try destruct s; try discriminate; reflexivity.
Qed.

Section StuckMotion.

Variable FRAME_TIME : float.
Variable Vector2_eq : Vector2 -> Vector2 -> bool.

(** X26: A motion controller that was zero-filled (as [Destroy] leaves it, and
    [LoadScene] after it) has speed 0, not the 10 of its initialiser: a motion
    it is sent on has an infinite arrival time, its clock does not advance,
    and it never arrives, however many frames go by. *)
Theorem MoveToPoint_zero_speed_never_arrives (start finish : Vector2) (n : nat) :
  is_finite FRAME_TIME = true ->
  Vector2_eq start finish = false ->
  F32.gtb (Vector2Distance start finish) F32.zero = true ->
  let m := Update_frames FRAME_TIME n
             (MoveToPoint Vector2_eq MotionMaster_zero start finish) in
  isMoving m = true /\
  arrivalTime m = S754_infinity false /\
  motionTime m = F32.zero /\
  startPoint m = start /\ endPoint m = finish.
Proof.
  intros Hft Hne Hdistance.
  induction n as [|n IH]; cbn [Update_frames].
  - unfold MoveToPoint. rewrite Hne. cbn.
    rewrite (div_zero_positive _ Hdistance). repeat split.
  - cbv zeta in IH. destruct IH as (Hmoving & Harrival & Htime & Hstart & Hend).
    cbv zeta. rewrite (Update_moving FRAME_TIME _ Hmoving). cbv zeta.
    assert (Hspeed : speed (Update_frames FRAME_TIME n
                              (MoveToPoint Vector2_eq MotionMaster_zero
                                 start finish)) = F32.zero).
    { destruct (Update_frames_keeps_motion FRAME_TIME _ n Hmoving)
        as (_ & _ & _ & _ & ->).
      unfold MoveToPoint. now rewrite Hne. }
    rewrite Htime, Hspeed, Harrival.
    destruct (mul_zero_finite FRAME_TIME Hft) as [s ->].
    rewrite zero_add_zero.
    change (F32.leb F32.zero (S754_infinity false)) with true. cbv iota.
    cbn [isMoving arrivalTime motionTime startPoint endPoint].
    repeat split; assumption.
Qed.

End StuckMotion.

Lemma MoveToPoint_zero_speed_never_arrives_witness :
  (is_finite sample_FRAME_TIME = true /\
   Vector2_eq_ieee (vec 3 4) (vec 30 40) = false /\
   F32.gtb (Vector2Distance (vec 3 4) (vec 30 40)) F32.zero = true) /\
  isMoving (Update_frames sample_FRAME_TIME 600
              (MoveToPoint Vector2_eq_ieee MotionMaster_zero (vec 3 4) (vec 30 40)))
  = true.
Proof.
  split; [repeat split; reflexivity|].
  exact (proj1 (MoveToPoint_zero_speed_never_arrives sample_FRAME_TIME
                  Vector2_eq_ieee (vec 3 4) (vec 30 40) 600
                  eq_refl eq_refl eq_refl)).
Defined.

Lemma mul_nonneg (a b : float) :
  F32.gtb a F32.zero = true -> is_finite a = true -> F32.leb F32.zero b = true ->
  F32.leb F32.zero (a *f b) = true.
Proof.
  destruct a as [sa|sa| |sa ma ea]; try destruct sa; try discriminate.
  intros _ _.
  destruct b as [sb|sb| |sb mb eb]; try destruct sb; try discriminate;
    intros _; try reflexivity.
  unfold F32.mul, SFmul. cbn [xorb].
  destruct (binary_round_aux_signed false (Z.pos (ma * mb)) (ea + eb) loc_Exact
              ltac:(lia)) as [Hshape Hnan].
  rewrite Hshape in *.
  now destruct (binary_round_aux F32.prec F32.emax false _ _ _).
Qed.

Lemma zero_sub_nonneg (f : float) :
  F32.leb F32.zero f = true -> F32.leb (F32.zero -f f) F32.zero = true.
Proof.
  destruct f as [s|s| |s m e]; try destruct s; try discriminate; reflexivity.
Qed.

Section RestFacts.

Variable FRAME_TIME : float.

(** X27: A camera without trauma does not start to shake by itself: with a
    frame time that is not negative, from trauma 0 and a falloff rate that is
    not negative (the zero the globals start with included), every later frame
    has trauma 0 and the default falloff rate, until a [shake] command. *)
Theorem UpdateCameraShake_rest (c : CameraShake) (n : nat) :
  F32.leb F32.zero FRAME_TIME = true ->
  cameraTrauma c = F32.zero ->
  F32.leb F32.zero (cameraTraumaFalloff c) = true ->
  UpdateCameraShake_frames FRAME_TIME (S n) c
  = {| cameraTrauma := F32.zero;
       cameraTraumaFalloff := DEFAULT_CAMERA_SHAKE_FALLOFF FRAME_TIME |}.
Proof.
  intros Hft Htrauma Hfalloff.
  assert (Hstep : forall c0 : CameraShake,
            cameraTrauma c0 = F32.zero ->
            F32.leb F32.zero (cameraTraumaFalloff c0) = true ->
            UpdateCameraShake FRAME_TIME c0
            = {| cameraTrauma := F32.zero;
                 cameraTraumaFalloff := DEFAULT_CAMERA_SHAKE_FALLOFF FRAME_TIME |}).
  { intros c0 H0 Hf. rewrite UpdateCameraShake_cases. cbv zeta.
    now rewrite H0, (zero_sub_nonneg _ Hf). }
  induction n as [|n IH]; cbn [UpdateCameraShake_frames].
  - now apply Hstep.
  - cbn [UpdateCameraShake_frames] in IH. rewrite IH.
    apply Hstep; [reflexivity|]. cbn [cameraTraumaFalloff].
    unfold DEFAULT_CAMERA_SHAKE_FALLOFF.
    apply mul_nonneg; [reflexivity | reflexivity | exact Hft].
Qed.

End RestFacts.

Lemma UpdateCameraShake_rest_witness :
  F32.leb F32.zero sample_FRAME_TIME = true /\
  UpdateCameraShake_frames sample_FRAME_TIME 600
    {| cameraTrauma := F32.zero; cameraTraumaFalloff := F32.zero |}
  = shake_at_rest.
Proof.
  split; [reflexivity|].
  exact (UpdateCameraShake_rest sample_FRAME_TIME
           {| cameraTrauma := F32.zero; cameraTraumaFalloff := F32.zero |} 599
           eq_refl eq_refl eq_refl).
Defined.

(** ** Drawing the scene *)

Lemma omap_as_filter {A B : Type} (f : A -> option B) (l : list A) :
  map Some (omap f l)
  = map f (List.filter (fun a => match f a with Some _ => true | None => false end) l).
Proof.
  induction l as [|h t IH]; [reflexivity|].
  change (omap f (h :: t))
    with (match f h with Some b => b :: omap f t | None => omap f t end).
  cbn [List.filter].
  destruct (f h) eqn:Hh; [|exact IH].
  cbn [map]. now rewrite IH, Hh.
Qed.

Lemma StronglySorted_snoc {A : Type} (R : A -> A -> Prop) (l : list A) (a : A) :
  StronglySorted R l -> List.Forall (fun b => R b a) l ->
  StronglySorted R (l ++ [a]).
Proof.
  induction 1 as [|h t Ht IH Hh]; simpl; intros Hl.
  - repeat constructor.
  - apply List.Forall_cons_iff in Hl as [Hha Hta].
    constructor; [now apply IH|].
    apply List.Forall_app. split; [exact Hh|]. now constructor.
Qed.

Lemma StronglySorted_rev {A : Type} (R : A -> A -> Prop) (l : list A) :
  StronglySorted R l -> StronglySorted (fun a b => R b a) (rev l).
Proof.
  induction 1 as [|h t Ht IH Hh]; simpl; [constructor|].
  apply StronglySorted_snoc; [exact IH|].
  rewrite List.Forall_forall in *. intros b Hb.
  apply in_rev in Hb. now apply Hh.
Qed.

Lemma StronglySorted_filter {A : Type} (R : A -> A -> Prop) (f : A -> bool)
  (l : list A) :
  StronglySorted R l -> StronglySorted R (List.filter f l).
Proof.
  induction 1 as [|h t Ht IH Hh]; simpl; [constructor|].
  destruct (f h); [|exact IH].
  constructor; [exact IH|].
  rewrite List.Forall_forall in *. intros b Hb.
  apply filter_In in Hb as [Hb _]. now apply Hh.
Qed.

Section RenderFacts.

Variable MirrorDirectionVertically : Direction -> Direction.
Variable Clamp01 : float -> float.
Variable PerlinNoise1 : Z -> float -> float.
Variable GetTime : float.
Variable DEG2RAD RAD2DEG : float.

Lemma Render_drawn (object : Object) :
  match Render MirrorDirectionVertically object with
  | Some _ => true
  | None => false
  end = true
  <-> GetCurrentSprite MirrorDirectionVertically object <> None.
Proof.
  unfold Render.
  destruct (GetCurrentSprite MirrorDirectionVertically object) as [sprite|].
  - destruct (default None (array_get (sprites object) (direction object)));
      split; congruence.
  - split; congruence.
Qed.

(** X28: [Playing_Render] draws every object of the scene that has a current
    sprite exactly once and no other, and when no sort key of the scene is NaN
    it draws them back to front: an object is drawn before every object whose
    key (foot position y plus zOffset) is greater, so that the objects in
    front are painted over the ones behind. *)
Theorem Playing_Render_back_to_front (g : Game) :
  let objects := game_objects g in
  let frame :=
    Playing_Render MirrorDirectionVertically Clamp01 PerlinNoise1 GetTime
      DEG2RAD RAD2DEG g in
  exists drawn : list nat,
    map Some (draws frame)
    = map (fun pointer => Render MirrorDirectionVertically (deref objects pointer))
          drawn /\
    NoDup drawn /\
    (forall pointer : nat,
       In pointer drawn
       <-> (pointer < Z.to_nat (game_numObjects g))%nat /\
           GetCurrentSprite MirrorDirectionVertically (deref objects pointer)
           <> None) /\
    ((forall pointer : nat,
        (pointer < Z.to_nat (game_numObjects g))%nat ->
        F32.is_nan (z_key MirrorDirectionVertically objects pointer) = false) ->
     StronglySorted
       (fun earlier later =>
          F32.leb (z_key MirrorDirectionVertically objects earlier)
                  (z_key MirrorDirectionVertically objects later) = true)
       drawn).
Proof.
  intros objects frame.
  set (sorted := GetZSortedObjects MirrorDirectionVertically objects
                   (game_numObjects g)).
  set (is_drawn := fun pointer : nat =>
         match Render MirrorDirectionVertically (deref objects pointer) with
         | Some _ => true
         | None => false
         end).
  pose proof (GetZSortedObjects_Permutation MirrorDirectionVertically
                objects (game_numObjects g)) as Hperm.
  fold sorted in Hperm.
  exists (List.filter is_drawn (rev sorted)).
  split; [|split; [|split]].
  - unfold frame, Playing_Render. cbn [draws]. unfold Render_back_to_front.
    apply omap_as_filter.
  - apply NoDup_ListNoDup, List.NoDup_filter, List.NoDup_rev, NoDup_ListNoDup.
    rewrite Hperm. apply NoDup_seq.
  - intros pointer. rewrite filter_In, <- in_rev, Hperm, in_seq.
    unfold is_drawn. rewrite Render_drawn. split; intros [Hp Hs]; split;
      solve [lia | exact Hs].
  - intros Hkeys. apply StronglySorted_filter.
    apply (StronglySorted_rev
             (fun a b => F32.leb (z_key MirrorDirectionVertically objects b)
                                 (z_key MirrorDirectionVertically objects a)
                         = true)).
    unfold sorted, GetZSortedObjects.
    apply (Sort_sorted _ (z_key MirrorDirectionVertically objects)).
    + intros p q. apply compare_z_key.
    + apply Forall_forall. intros p Hp.
      apply list_elem_of_In, in_seq in Hp. apply Hkeys. lia.
Qed.

End RenderFacts.

Lemma Playing_Render_back_to_front_witness :
  (forall pointer : nat,
     (pointer < Z.to_nat (game_numObjects painted_game))%nat ->
     F32.is_nan (z_key sample_MirrorDirectionVertically
                   (game_objects painted_game) pointer) = false) /\
  exists drawn : list nat,
    map Some
      (draws (Playing_Render sample_MirrorDirectionVertically sample_Clamp01
                sample_PerlinNoise1 F32.zero sample_DEG2RAD sample_RAD2DEG
                painted_game))
    = map (fun pointer =>
             Render sample_MirrorDirectionVertically
               (deref (game_objects painted_game) pointer)) drawn /\
    StronglySorted
      (fun earlier later =>
         F32.leb (z_key sample_MirrorDirectionVertically
                    (game_objects painted_game) earlier)
                 (z_key sample_MirrorDirectionVertically
                    (game_objects painted_game) later) = true)
      drawn.
Proof.
  assert (Hkeys : forall pointer : nat,
            (pointer < Z.to_nat (game_numObjects painted_game))%nat ->
            F32.is_nan (z_key sample_MirrorDirectionVertically
                          (game_objects painted_game) pointer) = false).
  { intros [|[|p]] Hp; [reflexivity..|].
    change (Z.to_nat (game_numObjects painted_game)) with 2%nat in Hp. lia. }
  split; [exact Hkeys|].
  destruct (Playing_Render_back_to_front sample_MirrorDirectionVertically
              sample_Clamp01 sample_PerlinNoise1 F32.zero sample_DEG2RAD
              sample_RAD2DEG painted_game)
    as (drawn & Hdraws & _ & _ & Hsorted).
  exists drawn. split; [exact Hdraws | exact (Hsorted Hkeys)].
Defined.

(** The painted scene: the tree is drawn first and the player over it. *)
Example Playing_Render_sample :
  draws (Playing_Render sample_MirrorDirectionVertically sample_Clamp01
           sample_PerlinNoise1 F32.zero sample_DEG2RAD sample_RAD2DEG
           painted_game)
  = [ DrawTextureCentered (mkTexture 50 90) (vec 600 300);
      DrawTextureCentered (mkTexture 50 90) (vec 640 360) ].
Proof. vm_compute. reflexivity. Qed.
